(** * render_server: webhook ingestion, keyword matching and dispatch

    A shallow embedding of the two servers of the repository:

    - the render server (the file with [/webhook/process] and
      [/process/pending]), embedded in [Module Render];
    - the automation processor ([src/server.js], with [/process-webhook]),
      embedded in [Module Processor].

    Asynchronous handlers are sequential between their awaits, so each one
    is a function in a state-and-exception monad over a [World]: the
    MongoDB collections, the clock, the outside network and two logs of
    what the handler did (dispatcher invocations, outbound HTTP requests).

    Modelling scope:
    - the store is connected and its operations do not fail;
    - [console.log] / [console.error] output is not part of the world;
    - strings are [string]s of 8-bit characters and [toLowerCase] folds
      the letters A-Z only, which is [String.prototype.toLowerCase] on
      ASCII strings; statements that rest on how a text is lowercased
      are restricted to ASCII texts;
    - [Date.now()] reads the field [w_now], which a handler does not advance;
    - incoming JSON is typed by the shape the platform sends, every optional
      property being an [option]; [undefined] and [null] are both [None]. *)

From Stdlib Require Import String Ascii List ZArith Bool Lia Sorted Permutation PeanoNat.
From Stdlib Require Import DecimalString.
Import ListNotations.

Local Open Scope list_scope.
Local Open Scope bool_scope.

(* ================================================================== *)
(** ** JavaScript string and truthiness primitives *)

Module Js.

(** One character of [String.prototype.toLowerCase] on the ASCII range:
    characters from 128 on are left as they are. *)
Definition lowerChar (c : ascii) : ascii :=
  let n := nat_of_ascii c in
  if (65 <=? n)%nat && (n <=? 90)%nat then ascii_of_nat (n + 32) else c.

Fixpoint toLowerCase (s : string) : string :=
  match s with
  | EmptyString => EmptyString
  | String c s' => String (lowerChar c) (toLowerCase s')
  end.

(** [s.startsWith(p)] *)
Fixpoint startsWith (s p : string) : bool :=
  match p, s with
  | EmptyString, _ => true
  | String _ _, EmptyString => false
  | String a p', String b s' => Ascii.eqb a b && startsWith s' p'
  end.

(** [s.includes(sub)] *)
Fixpoint includes (s sub : string) : bool :=
  if startsWith s sub then true
  else match s with
       | EmptyString => false
       | String _ s' => includes s' sub
       end.

(** [s.substring(n)] *)
Fixpoint substringFrom (n : nat) (s : string) : string :=
  match n, s with
  | O, _ => s
  | S n', String _ s' => substringFrom n' s'
  | S _, EmptyString => EmptyString
  end.

(** Truthiness of an optional string: [undefined], [null] and the empty
    string are falsy. *)
Definition truthy (o : option string) : bool :=
  match o with
  | Some s => negb (String.eqb s EmptyString)
  | None => false
  end.

(** [a || b] on optional strings. *)
Definition orElse (a b : option string) : option string :=
  if truthy a then a else b.

(** [a || d] where [d] is a string. *)
Definition orDefault (a : option string) (d : string) : string :=
  match a with
  | Some s => if String.eqb s EmptyString then d else s
  | None => d
  end.

(** [a || d] on optional numbers: [0] is falsy. *)
Definition numOr (a : option Z) (d : Z) : Z :=
  match a with
  | Some z => if Z.eqb z 0 then d else z
  | None => d
  end.

(** A value interpolated in a template literal. *)
Definition show (o : option string) : string :=
  match o with
  | Some s => s
  | None => "undefined"%string
  end.

Definition showZ (z : Z) : string := NilZero.string_of_int (Z.to_int z).

(** [===] on optional strings. *)
Definition optEq (a b : option string) : bool :=
  match a, b with
  | Some x, Some y => String.eqb x y
  | None, None => true
  | _, _ => false
  end.

Definition isSome {A : Type} (o : option A) : bool :=
  match o with Some _ => true | None => false end.

End Js.

(* ================================================================== *)
(** ** Data model *)

Definition ObjectId := nat.
Definition Time := Z.

(** A stored document: the store-assigned [_id] and the fields. *)
Record Doc (A : Type) : Type := mkDoc { _id : ObjectId; fields : A }.
Arguments mkDoc {A} _ _.
Arguments _id {A} _.
Arguments fields {A} _.

Record Account : Type := mkAccount {
  acc_instagramId : option string;
  acc_accessToken : option string
}.

Record Automation : Type := mkAutomation {
  auto_instagramId : option string;
  auto_type : string;
  auto_isActive : bool;
  auto_name : string;
  auto_triggerKeywords : option (list string);
  auto_replyMessage : string
}.

Record MessageData : Type := mkMessageData {
  msg_instagramId : option string;
  msg_messageId : string;
  msg_senderId : option string;
  msg_recipientId : option string;
  msg_timestamp : Time;
  msg_text : string;
  msg_attachments : list string;
  msg_isEcho : bool;
  msg_createdAt : Time;
  msg_processed : bool
}.

(** [cmt_automationId], [cmt_replyId] and [cmt_repliedAt] are absent until
    an automation fires.  Documents are schemaless: [cmt_error] stands for
    an [error] property, which no handler writes on a comment. *)
Record CommentData : Type := mkCommentData {
  cmt_instagramId : option string;
  cmt_commentId : string;
  cmt_mediaId : option string;
  cmt_parentId : option string;
  cmt_userId : option string;
  cmt_username : option string;
  cmt_text : string;
  cmt_timestamp : Time;
  cmt_createdAt : Time;
  cmt_isProcessed : bool;
  cmt_automationId : option ObjectId;
  cmt_replyId : option string;
  cmt_repliedAt : option Time;
  cmt_error : option string
}.

Record AutomationLog : Type := mkAutomationLog {
  alog_automationId : ObjectId;
  alog_automationName : string;
  alog_instagramId : option string;
  alog_triggeredBy : option string;
  alog_triggerText : string;
  alog_replyMessage : string;
  alog_triggerType : string;
  alog_timestamp : Time
}.

(** *** Webhook payloads *)

Record Party : Type := mkParty {
  p_id : option string;
  p_username : option string
}.

Record MessagePayload : Type := mkMessagePayload {
  mp_mid : option string;
  mp_text : option string;
  mp_is_echo : option bool;
  mp_attachments : option (list string)
}.

Record MessagingItem : Type := mkMessagingItem {
  mi_message : option MessagePayload;
  mi_sender : option Party;
  mi_recipient : option Party;
  mi_timestamp : option Time
}.

Record CommentValue : Type := mkCommentValue {
  cv_id : option string;
  cv_comment_id : option string;
  cv_media : option Party;
  cv_parent_id : option string;
  cv_from : option Party;
  cv_text : option string;
  cv_created_time : option Time;
  cv_timestamp : option Time
}.

Record Change : Type := mkChange {
  ch_field : option string;
  ch_value : option CommentValue
}.

Record Entry : Type := mkEntry {
  en_id : option string;
  en_messaging : option (list MessagingItem);
  en_changes : option (list Change);
  en_field : option string;
  en_value : option CommentValue
}.

(** The [entry] property of an envelope: falsy, an array, or a truthy value
    that [for ... of] cannot iterate (a number, [true], a plain object). *)
Inductive Entries : Type :=
| EntriesAbsent
| EntriesArray (l : list Entry)
| EntriesNotIterable.

Record Envelope : Type := mkEnvelope {
  env_object : option string;
  env_entry : Entries
}.

(** A raw event of the [webhook_events] collection. *)
Record WebhookEvent : Type := mkWebhookEvent {
  we_data : option Envelope;
  we_processed : bool;
  we_createdAt : Time;
  we_processedAt : option Time;
  we_error : option string
}.

(** The [data] payloads that [logEvent] is called with. *)
Inductive LogData : Type :=
| LdEnvelope (e : Envelope)
| LdError (error : string)
| LdEntryError (entry : Entry) (error : string)
| LdMessageStored (messageId : ObjectId) (text : string)
| LdMessageError (message : MessagingItem) (error : string)
| LdCommentStored (commentId : ObjectId) (text : string) (username : option string)
| LdCommentError (commentValue : option CommentValue) (error : string)
| LdNoAutomations (instagramId : option string)
| LdTriggered (automationName triggerText replyMessage : string) (success : bool)
| LdMessageAutomationError (messageData : Doc MessageData) (error : string)
| LdCommentAutomationError (commentData : Doc CommentData) (error : string).

(** A document of [webhook_logs].  The last three properties are the ones
    the processor sets; [logEvent] leaves them absent. *)
Record WebhookLog : Type := mkWebhookLog {
  wl_eventType : string;
  wl_data : LogData;
  wl_success : bool;
  wl_error : option string;
  wl_timestamp : Time;
  wl_createdAt : Time;
  wl_source : string;
  wl_processed : option bool;
  wl_processedAt : option Time;
  wl_processorResponse : option string
}.

(** *** The outside network *)

Inductive HttpBody : Type :=
| MessageBody (recipient : option string) (text : string) (access_token : string)
| ReplyBody (message : string) (access_token : string).

Record HttpRequest : Type := mkHttpRequest {
  rq_url : string;
  rq_body : HttpBody
}.

Record ResponseData : Type := mkResponseData {
  rd_id : option string;
  rd_raw : string
}.

(** What [response.json()] gives: the parsed body, or the rejection with
    the message of the parser, which depends on the body. *)
Inductive ParsedBody : Type :=
| Parsed (d : ResponseData)
| Rejects (message : string).

Record Response : Type := mkResponse {
  rs_ok : bool;
  rs_json : ParsedBody
}.

Inductive FetchOutcome : Type :=
| Responded (r : Response)
| NetworkError (message : string).

(** *** Dispatcher results and invocations *)

Inductive ErrorDetail : Type :=
| ErrMessage (s : string)
| ErrBody (d : ResponseData).

(** [{success: true, messageId | replyId}] or [{success: false, error}]. *)
Inductive DispatchResult : Type :=
| Sent (id : option string)
| Failed (error : ErrorDetail).

Definition success (r : DispatchResult) : bool :=
  match r with Sent _ => true | Failed _ => false end.

Inductive DispatchCall : Type :=
| CallSendDirectMessage (instagramId recipientId : option string) (message : string)
| CallReplyToComment (commentId : string) (replyMessage : string) (instagramId : option string).

(** *** HTTP replies of the endpoints *)

Inductive ReplyJson : Type :=
| RError (error : string)
| RSuccess (message : string)
| RProcessed (processed : nat).

Record HttpReply : Type := mkHttpReply {
  rp_status : nat;
  rp_json : ReplyJson
}.

Record Request : Type := mkRequest {
  req_authorization : option string;
  req_body : Envelope
}.

(* ================================================================== *)
(** ** The world *)

Record World : Type := mkWorld {
  w_accounts : list (Doc Account);
  w_automations : list (Doc Automation);
  w_messages : list (Doc MessageData);
  w_comments : list (Doc CommentData);
  w_automation_logs : list (Doc AutomationLog);
  w_webhook_logs : list (Doc WebhookLog);
  w_webhook_events : list (Doc WebhookEvent);
  w_nextId : ObjectId;
  w_now : Time;
  w_secret : string;
  w_net : list HttpRequest -> HttpRequest -> FetchOutcome;
  w_http : list HttpRequest;
  w_calls : list DispatchCall
}.

Definition set_messages (l : list (Doc MessageData)) (w : World) : World :=
  mkWorld (w_accounts w) (w_automations w) l (w_comments w)
          (w_automation_logs w) (w_webhook_logs w) (w_webhook_events w)
          (w_nextId w) (w_now w) (w_secret w) (w_net w) (w_http w) (w_calls w).

Definition set_comments (l : list (Doc CommentData)) (w : World) : World :=
  mkWorld (w_accounts w) (w_automations w) (w_messages w) l
          (w_automation_logs w) (w_webhook_logs w) (w_webhook_events w)
          (w_nextId w) (w_now w) (w_secret w) (w_net w) (w_http w) (w_calls w).

Definition set_automation_logs (l : list (Doc AutomationLog)) (w : World) : World :=
  mkWorld (w_accounts w) (w_automations w) (w_messages w) (w_comments w)
          l (w_webhook_logs w) (w_webhook_events w)
          (w_nextId w) (w_now w) (w_secret w) (w_net w) (w_http w) (w_calls w).

Definition set_webhook_logs (l : list (Doc WebhookLog)) (w : World) : World :=
  mkWorld (w_accounts w) (w_automations w) (w_messages w) (w_comments w)
          (w_automation_logs w) l (w_webhook_events w)
          (w_nextId w) (w_now w) (w_secret w) (w_net w) (w_http w) (w_calls w).

Definition set_webhook_events (l : list (Doc WebhookEvent)) (w : World) : World :=
  mkWorld (w_accounts w) (w_automations w) (w_messages w) (w_comments w)
          (w_automation_logs w) (w_webhook_logs w) l
          (w_nextId w) (w_now w) (w_secret w) (w_net w) (w_http w) (w_calls w).

Definition set_nextId (n : ObjectId) (w : World) : World :=
  mkWorld (w_accounts w) (w_automations w) (w_messages w) (w_comments w)
          (w_automation_logs w) (w_webhook_logs w) (w_webhook_events w)
          n (w_now w) (w_secret w) (w_net w) (w_http w) (w_calls w).

Definition set_http (l : list HttpRequest) (w : World) : World :=
  mkWorld (w_accounts w) (w_automations w) (w_messages w) (w_comments w)
          (w_automation_logs w) (w_webhook_logs w) (w_webhook_events w)
          (w_nextId w) (w_now w) (w_secret w) (w_net w) l (w_calls w).

Definition set_calls (l : list DispatchCall) (w : World) : World :=
  mkWorld (w_accounts w) (w_automations w) (w_messages w) (w_comments w)
          (w_automation_logs w) (w_webhook_logs w) (w_webhook_events w)
          (w_nextId w) (w_now w) (w_secret w) (w_net w) (w_http w) l.

(* ================================================================== *)
(** ** The handler monad: state and exceptions *)

Inductive Outcome (A : Type) : Type :=
| Ok (a : A)
| Throw (message : string).
Arguments Ok {A} _.
Arguments Throw {A} _.

Definition M (A : Type) : Type := World -> Outcome A * World.

Definition ret {A : Type} (a : A) : M A := fun w => (Ok a, w).

Definition throw {A : Type} (message : string) : M A := fun w => (Throw message, w).

Definition bind {A B : Type} (m : M A) (k : A -> M B) : M B :=
  fun w =>
    match m w with
    | (Ok a, w') => k a w'
    | (Throw e, w') => (Throw e, w')
    end.

(** [try { m } catch (error) { h(error.message) }] *)
Definition try_catch {A : Type} (m : M A) (h : string -> M A) : M A :=
  fun w =>
    match m w with
    | (Ok a, w') => (Ok a, w')
    | (Throw e, w') => h e w'
    end.

Definition gets {A : Type} (f : World -> A) : M A := fun w => (Ok (f w), w).

Definition modify (f : World -> World) : M unit := fun w => (Ok tt, f w).

Declare Scope js_scope.
Delimit Scope js_scope with js.
Notation "x <- m ;; k" := (bind m (fun x => k))
  (at level 61, m at next level, right associativity) : js_scope.
Notation "m ;; k" := (bind m (fun _ => k))
  (at level 61, right associativity) : js_scope.
Local Open Scope js_scope.

(** [for (const x of l) { await body(x) }] *)
Fixpoint forOf {A : Type} (l : list A) (body : A -> M unit) : M unit :=
  match l with
  | [] => ret tt
  | x :: rest => body x ;; forOf rest body
  end.

(** A loop whose body may [break]: the body answers [true] to leave. *)
Fixpoint forOfBreak {A : Type} (l : list A) (body : A -> M bool) : M unit :=
  match l with
  | [] => ret tt
  | x :: rest =>
      stop <- body x ;;
      if stop then ret tt else forOfBreak rest body
  end.

Definition state {A : Type} (m : M A) (w : World) : World := snd (m w).
Definition result {A : Type} (m : M A) (w : World) : Outcome A := fst (m w).

(* ================================================================== *)
(** ** Store operations *)

Definition dateNow : M Time := gets w_now.

(** [collection.insertOne(d)]: the store assigns the next identifier. *)
Definition insertOne {A : Type}
    (get : World -> list (Doc A)) (set : list (Doc A) -> World -> World)
    (d : A) : M ObjectId :=
  fun w =>
    let i := w_nextId w in
    (Ok i, set_nextId (S i) (set (get w ++ [mkDoc i d]) w)).

(** [$set] on the first document that the filter selects. *)
Fixpoint updateFirst {A : Type} (sel : Doc A -> bool) (f : A -> A)
    (l : list (Doc A)) : list (Doc A) :=
  match l with
  | [] => []
  | d :: rest =>
      if sel d then mkDoc (_id d) (f (fields d)) :: rest
      else d :: updateFirst sel f rest
  end.

Definition updateOne {A : Type}
    (get : World -> list (Doc A)) (set : list (Doc A) -> World -> World)
    (sel : Doc A -> bool) (f : A -> A) : M unit :=
  modify (fun w => set (updateFirst sel f (get w)) w).

Definition byId {A : Type} (i : ObjectId) (d : Doc A) : bool := Nat.eqb (_id d) i.

(** [automations.find({instagramId, isActive: true, type}).toArray()] *)
Definition activeAutomation (instagramId : option string) (type : string)
    (d : Doc Automation) : bool :=
  Js.optEq (auto_instagramId (fields d)) instagramId
  && Bool.eqb (auto_isActive (fields d)) true
  && String.eqb (auto_type (fields d)) type.

Definition findAutomations (instagramId : option string) (type : string)
    : M (list (Doc Automation)) :=
  gets (fun w => filter (activeAutomation instagramId type) (w_automations w)).

(** [accounts.findOne({instagramId})] *)
Definition findAccount (instagramId : option string) : M (option (Doc Account)) :=
  gets (fun w =>
    find (fun d => Js.optEq (acc_instagramId (fields d)) instagramId) (w_accounts w)).

(** [account?.accessToken] *)
Definition accessTokenOf (account : option (Doc Account)) : option string :=
  match account with
  | Some d => acc_accessToken (fields d)
  | None => None
  end.

(** [webhook_events.find({processed: false}).sort({createdAt: 1}).limit(n)];
    the sort keeps stored order among equal [createdAt]. *)
Fixpoint insertByCreatedAt (e : Doc WebhookEvent) (l : list (Doc WebhookEvent))
    : list (Doc WebhookEvent) :=
  match l with
  | [] => [e]
  | x :: rest =>
      if (we_createdAt (fields e) <=? we_createdAt (fields x))%Z
      then e :: x :: rest
      else x :: insertByCreatedAt e rest
  end.

Definition sortByCreatedAt (l : list (Doc WebhookEvent)) : list (Doc WebhookEvent) :=
  fold_right insertByCreatedAt [] l.

Definition isPending (e : Doc WebhookEvent) : bool :=
  Bool.eqb (we_processed (fields e)) false.

Definition fetchPending (limit : nat) (events : list (Doc WebhookEvent))
    : list (Doc WebhookEvent) :=
  firstn limit (sortByCreatedAt (filter isPending events)).

(* ================================================================== *)
(** ** Action dispatcher (the same in both servers) *)

Definition graph : string := "https://graph.instagram.com/v19.0/"%string.

Definition fetch (rq : HttpRequest) : M Response :=
  fun w =>
    let w' := set_http (w_http w ++ [rq]) w in
    match w_net w (w_http w) rq with
    | Responded r => (Ok r, w')
    | NetworkError e => (Throw e, w')
    end.

(** [await response.json()] *)
Definition json (r : Response) : M ResponseData :=
  match rs_json r with
  | Parsed d => ret d
  | Rejects message => throw message
  end.

(** Not in the source: the dispatcher notes each of its invocations in
    [w_calls], so that statements can tell which calls a handler made. *)
Definition recordCall (c : DispatchCall) : M unit :=
  modify (fun w => set_calls (w_calls w ++ [c]) w).

Definition noAccessToken : DispatchResult :=
  Failed (ErrMessage "No access token"%string).

Definition sendDirectMessage (instagramId recipientId : option string)
    (message : string) : M DispatchResult :=
  recordCall (CallSendDirectMessage instagramId recipientId message) ;;
  try_catch
    (account <- findAccount instagramId ;;
     match accessTokenOf account with
     | Some token =>
         if String.eqb token EmptyString then ret noAccessToken
         else
           response <- fetch (mkHttpRequest
                         (graph ++ Js.show instagramId ++ "/messages")%string
                         (MessageBody recipientId message token)) ;;
           responseData <- json response ;;
           if rs_ok response then ret (Sent (rd_id responseData))
           else ret (Failed (ErrBody responseData))
     | None => ret noAccessToken
     end)
    (fun error => ret (Failed (ErrMessage error))).

Definition replyToComment (commentId : string) (replyMessage : string)
    (instagramId : option string) : M DispatchResult :=
  recordCall (CallReplyToComment commentId replyMessage instagramId) ;;
  try_catch
    (account <- findAccount instagramId ;;
     match accessTokenOf account with
     | Some token =>
         if String.eqb token EmptyString then ret noAccessToken
         else
           response <- fetch (mkHttpRequest
                         (graph ++ commentId ++ "/replies")%string
                         (ReplyBody replyMessage token)) ;;
           responseData <- json response ;;
           if rs_ok response then ret (Sent (rd_id responseData))
           else ret (Failed (ErrBody responseData))
     | None => ret noAccessToken
     end)
    (fun error => ret (Failed (ErrMessage error))).

Definition logAutomationTrigger (automation : Doc Automation)
    (instagramId triggeredBy : option string)
    (triggerText replyMessage triggerType : string) : M unit :=
  try_catch
    (t <- dateNow ;;
     insertOne w_automation_logs set_automation_logs
       (mkAutomationLog (_id automation) (auto_name (fields automation))
          instagramId triggeredBy triggerText replyMessage triggerType t) ;;
     ret tt)
    (fun _ => ret tt).

(** [keywords.some(keyword => text.includes(keyword.toLowerCase()))] with
    [keywords = automation.triggerKeywords || []]. *)
Definition hasKeyword (text : string) (automation : Doc Automation) : bool :=
  let keywords :=
    match auto_triggerKeywords (fields automation) with
    | Some l => l
    | None => []
    end in
  existsb (fun keyword => Js.includes text (Js.toLowerCase keyword)) keywords.

(** [result.messageId] / [result.replyId] *)
Definition resultId (r : DispatchResult) : option string :=
  match r with Sent id => id | Failed _ => None end.

(** [x?.id] *)
Definition idOf (p : option Party) : option string :=
  match p with Some q => p_id q | None => None end.

(** [x?.username] *)
Definition usernameOf (p : option Party) : option string :=
  match p with Some q => p_username q | None => None end.

(** [field === "comments" || field === "live_comments"] *)
Definition isCommentField (f : option string) : bool :=
  Js.optEq f (Some "comments"%string) || Js.optEq f (Some "live_comments"%string).

(** The messageData object that [handleMessage] builds. *)
Definition buildMessageData (instagramId : option string) (message : MessagingItem)
    (payload : MessagePayload) (now : Time) : MessageData :=
  mkMessageData
    instagramId
    (Js.orDefault (mp_mid payload) ("msg_" ++ Js.showZ now)%string)
    (idOf (mi_sender message))
    (idOf (mi_recipient message))
    (Js.numOr (mi_timestamp message) now)
    (Js.orDefault (mp_text payload) EmptyString)
    (match mp_attachments payload with Some l => l | None => [] end)
    false
    now
    false.

(** [commentValue.id || commentValue.comment_id || `comment_${Date.now()}`] *)
Definition commentIdOf (commentValue : CommentValue) (now : Time) : string :=
  Js.orDefault (Js.orElse (cv_id commentValue) (cv_comment_id commentValue))
               ("comment_" ++ Js.showZ now)%string.

(** The commentData object that [handleComment] builds. *)
Definition buildCommentData (instagramId : option string)
    (commentValue : CommentValue) (now : Time) : CommentData :=
  mkCommentData
    instagramId
    (commentIdOf commentValue now)
    (idOf (cv_media commentValue))
    (cv_parent_id commentValue)
    (idOf (cv_from commentValue))
    (usernameOf (cv_from commentValue))
    (Js.orDefault (cv_text commentValue) EmptyString)
    (Js.numOr (cv_created_time commentValue)
       (Js.numOr (cv_timestamp commentValue) now))
    now
    false
    None None None None.

(** [$set: {isProcessed: true, automationId, replyId, repliedAt}] *)
Definition setReplied (automationId : ObjectId) (replyId : option string)
    (repliedAt : Time) (c : CommentData) : CommentData :=
  mkCommentData (cmt_instagramId c) (cmt_commentId c) (cmt_mediaId c)
    (cmt_parentId c) (cmt_userId c) (cmt_username c) (cmt_text c)
    (cmt_timestamp c) (cmt_createdAt c)
    true (Some automationId) replyId (Some repliedAt) (cmt_error c).

(** [$set: {processed: true, processedAt}] *)
Definition setProcessed (processedAt : Time) (e : WebhookEvent) : WebhookEvent :=
  mkWebhookEvent (we_data e) true (we_createdAt e) (Some processedAt) (we_error e).

(** [$set: {error, processedAt}] *)
Definition setError (error : string) (processedAt : Time) (e : WebhookEvent)
    : WebhookEvent :=
  mkWebhookEvent (we_data e) (we_processed e) (we_createdAt e)
    (Some processedAt) (Some error).

(** Truthiness of [webhookData.entry]. *)
Definition entryTruthy (e : Entries) : bool :=
  match e with EntriesAbsent => false | _ => true end.

(** What [for (const entry of entries)] iterates over. *)
Definition iterate (e : Entries) : M (list Entry) :=
  match e with
  | EntriesArray l => ret l
  | _ => throw "entries is not iterable"%string
  end.

(** [webhookData.object === "instagram" && webhookData.entry] *)
Definition isInstagram (webhookData : Envelope) : bool :=
  Js.optEq (env_object webhookData) (Some "instagram"%string)
  && entryTruthy (env_entry webhookData).

Definition reply (status : nat) (body : ReplyJson) : M HttpReply :=
  ret (mkHttpReply status body).

(* ================================================================== *)
(** ** The render server *)

Module Render.

Definition logEvent (eventType : string) (data : LogData) (success : bool)
    (error : option string) : M unit :=
  try_catch
    (t <- dateNow ;;
     insertOne w_webhook_logs set_webhook_logs
       (mkWebhookLog eventType data success error t t "render_server"%string
          None None None) ;;
     ret tt)
    (fun _ => ret tt).

(** One turn of the loop over the automations; [true] is [break]. *)
Definition messageTurn (instagramId : option string)
    (messageData : Doc MessageData) (messageText : string)
    (automation : Doc Automation) : M bool :=
  if hasKeyword messageText automation then
     result <- sendDirectMessage instagramId
                 (msg_senderId (fields messageData))
                 (auto_replyMessage (fields automation)) ;;
     logEvent "automation_triggered"%string
       (LdTriggered (auto_name (fields automation))
          (msg_text (fields messageData))
          (auto_replyMessage (fields automation)) (success result))
       true None ;;
     (if success result then
        logAutomationTrigger automation instagramId
          (msg_senderId (fields messageData))
          (msg_text (fields messageData))
          (auto_replyMessage (fields automation)) "message"%string
      else ret tt) ;;
     ret true
  else ret false.

Definition processMessageAutomation (instagramId : option string)
    (messageData : Doc MessageData) : M unit :=
  try_catch
    (automations <- findAutomations instagramId "message"%string ;;
     if Nat.eqb (length automations) 0 then
       logEvent "no_message_automations"%string (LdNoAutomations instagramId) true None
     else
       let messageText := Js.toLowerCase (msg_text (fields messageData)) in
       forOfBreak automations
         (messageTurn instagramId messageData messageText))
    (fun error =>
       logEvent "message_automation_error"%string
         (LdMessageAutomationError messageData error) false (Some error)).

(** One turn of the loop over the automations; [true] is [break]. *)
Definition commentTurn (instagramId : option string)
    (commentData : Doc CommentData) (commentText : string)
    (automation : Doc Automation) : M bool :=
  if hasKeyword commentText automation then
     result <- replyToComment (cmt_commentId (fields commentData))
                 (auto_replyMessage (fields automation)) instagramId ;;
     logEvent "comment_automation_triggered"%string
       (LdTriggered (auto_name (fields automation))
          (cmt_text (fields commentData))
          (auto_replyMessage (fields automation)) (success result))
       true None ;;
     (if success result then
        logAutomationTrigger automation instagramId
          (cmt_userId (fields commentData))
          (cmt_text (fields commentData))
          (auto_replyMessage (fields automation)) "comment"%string ;;
        t <- dateNow ;;
        updateOne w_comments set_comments (byId (_id commentData))
          (setReplied (_id automation) (resultId result) t)
      else ret tt) ;;
     ret true
  else ret false.

Definition processCommentAutomation (instagramId : option string)
    (commentData : Doc CommentData) : M unit :=
  try_catch
    (automations <- findAutomations instagramId "comment"%string ;;
     if Nat.eqb (length automations) 0 then
       logEvent "no_comment_automations"%string (LdNoAutomations instagramId) true None
     else
       let commentText := Js.toLowerCase (cmt_text (fields commentData)) in
       forOfBreak automations
         (commentTurn instagramId commentData commentText))
    (fun error =>
       logEvent "comment_automation_error"%string
         (LdCommentAutomationError commentData error) false (Some error)).

Definition handleMessage (instagramId : option string) (message : MessagingItem)
    : M unit :=
  try_catch
    (match mi_message message with
     | None => ret tt
     | Some payload =>
         match mp_is_echo payload with
         | Some true => ret tt
         | _ =>
             now <- dateNow ;;
             let messageData := buildMessageData instagramId message payload now in
             insertedId <- insertOne w_messages set_messages messageData ;;
             logEvent "message_stored"%string
               (LdMessageStored insertedId (msg_text messageData)) true None ;;
             if negb (String.eqb (msg_text messageData) EmptyString) then
               processMessageAutomation instagramId (mkDoc insertedId messageData)
             else ret tt
         end
     end)
    (fun error =>
       logEvent "message_handling_error"%string
         (LdMessageError message error) false (Some error)).

Definition handleComment (instagramId : option string)
    (commentValue : option CommentValue) : M unit :=
  try_catch
    (match commentValue with
     | None => throw "Cannot read properties of undefined (reading 'id')"%string
     | Some value =>
         now <- dateNow ;;
         let commentData := buildCommentData instagramId value now in
         insertedId <- insertOne w_comments set_comments commentData ;;
         logEvent "comment_stored"%string
           (LdCommentStored insertedId (cmt_text commentData)
              (cmt_username commentData)) true None ;;
         if negb (String.eqb (cmt_text commentData) EmptyString) then
           processCommentAutomation instagramId (mkDoc insertedId commentData)
         else ret tt
     end)
    (fun error =>
       logEvent "comment_handling_error"%string
         (LdCommentError commentValue error) false (Some error)).

(** The body of the loop over [entry.changes]. *)
Definition handleChange (instagramId : option string) (change : Change)
    : M unit :=
  if isCommentField (ch_field change)
  then handleComment instagramId (ch_value change)
  else ret tt.

Definition processEntry (entry : Entry) : M unit :=
  try_catch
    (let instagramId := en_id entry in
     match en_messaging entry with
     | Some messaging => forOf messaging (handleMessage instagramId)
     | None => ret tt
     end ;;
     match en_changes entry with
     | Some changes => forOf changes (handleChange instagramId)
     | None => ret tt
     end)
    (fun entryError =>
       logEvent "entry_processing_error"%string
         (LdEntryError entry entryError) false (Some entryError)).

Definition processWebhookEntries (entries : Entries) : M unit :=
  l <- iterate entries ;;
  forOf l processEntry.

Definition verifyAuth (req : Request) (next : M HttpReply) : M HttpReply :=
  match req_authorization req with
  | None => reply 401 (RError "Unauthorized"%string)
  | Some authHeader =>
      if negb (Js.startsWith authHeader "Bearer "%string) then
        reply 401 (RError "Unauthorized"%string)
      else
        secret <- gets w_secret ;;
        if negb (String.eqb (Js.substringFrom 7 authHeader) secret) then
          reply 401 (RError "Invalid token"%string)
        else next
  end.

(** [POST /webhook/process] *)
Definition webhook_process (req : Request) : M HttpReply :=
  verifyAuth req
    (try_catch
       (let webhookData := req_body req in
        if isInstagram webhookData then
          processWebhookEntries (env_entry webhookData) ;;
          logEvent "webhook_processed_on_render"%string (LdEnvelope webhookData)
            true None ;;
          reply 200 (RSuccess "Webhook processed successfully"%string)
        else reply 400 (RError "Invalid webhook format"%string))
       (fun error =>
          logEvent "webhook_processing_error"%string (LdError error) false
            (Some error) ;;
          reply 500 (RError "Internal server error"%string))).

(** The body of the sweep loop: one pending event. *)
Definition processPendingEvent (event : Doc WebhookEvent) : M unit :=
  try_catch
    (match we_data (fields event) with
     | None => throw "Cannot read properties of undefined (reading 'object')"%string
     | Some data =>
         if isInstagram data then
           processWebhookEntries (env_entry data) ;;
           t <- dateNow ;;
           updateOne w_webhook_events set_webhook_events (byId (_id event))
             (setProcessed t)
         else ret tt
     end)
    (fun eventError =>
       t <- dateNow ;;
       updateOne w_webhook_events set_webhook_events (byId (_id event))
         (setError eventError t)).

(** [POST /process/pending] *)
Definition process_pending (req : Request) : M HttpReply :=
  verifyAuth req
    (try_catch
       (pendingEvents <- gets (fun w => fetchPending 50 (w_webhook_events w)) ;;
        forOf pendingEvents processPendingEvent ;;
        reply 200 (RProcessed (length pendingEvents)))
       (fun _ => reply 500 (RError "Internal server error"%string))).

End Render.

(* ================================================================== *)
(** ** The automation processor ([src/server.js]) *)

Module Processor.

(** One turn of the loop over the automations; [true] is [break]. *)
Definition messageTurn (instagramId : option string)
    (messageData : Doc MessageData) (messageText : string)
    (automation : Doc Automation) : M bool :=
  if hasKeyword messageText automation then
     result <- sendDirectMessage instagramId
                 (msg_senderId (fields messageData))
                 (auto_replyMessage (fields automation)) ;;
     (if success result then
        logAutomationTrigger automation instagramId
          (msg_senderId (fields messageData))
          (msg_text (fields messageData))
          (auto_replyMessage (fields automation)) "message"%string
      else ret tt) ;;
     ret true
  else ret false.

Definition processMessageAutomation (instagramId : option string)
    (messageData : Doc MessageData) : M unit :=
  try_catch
    (automations <- findAutomations instagramId "message"%string ;;
     if Nat.eqb (length automations) 0 then ret tt
     else
       let messageText := Js.toLowerCase (msg_text (fields messageData)) in
       forOfBreak automations
         (messageTurn instagramId messageData messageText))
    (fun _ => ret tt).

(** One turn of the loop over the automations; [true] is [break]. *)
Definition commentTurn (instagramId : option string)
    (commentData : Doc CommentData) (commentText : string)
    (automation : Doc Automation) : M bool :=
  if hasKeyword commentText automation then
     result <- replyToComment (cmt_commentId (fields commentData))
                 (auto_replyMessage (fields automation)) instagramId ;;
     (if success result then
        logAutomationTrigger automation instagramId
          (cmt_userId (fields commentData))
          (cmt_text (fields commentData))
          (auto_replyMessage (fields automation)) "comment"%string ;;
        t <- dateNow ;;
        updateOne w_comments set_comments (byId (_id commentData))
          (setReplied (_id automation) (resultId result) t)
      else ret tt) ;;
     ret true
  else ret false.

Definition processCommentAutomation (instagramId : option string)
    (commentData : Doc CommentData) : M unit :=
  try_catch
    (automations <- findAutomations instagramId "comment"%string ;;
     if Nat.eqb (length automations) 0 then ret tt
     else
       let commentText := Js.toLowerCase (cmt_text (fields commentData)) in
       forOfBreak automations
         (commentTurn instagramId commentData commentText))
    (fun _ => ret tt).

Definition handleMessage (instagramId : option string) (message : MessagingItem)
    : M unit :=
  try_catch
    (match mi_message message with
     | None => ret tt
     | Some payload =>
         match mp_is_echo payload with
         | Some true => ret tt
         | _ =>
             now <- dateNow ;;
             let messageData := buildMessageData instagramId message payload now in
             insertedId <- insertOne w_messages set_messages messageData ;;
             if negb (String.eqb (msg_text messageData) EmptyString) then
               processMessageAutomation instagramId (mkDoc insertedId messageData)
             else ret tt
         end
     end)
    (fun _ => ret tt).

Definition handleComment (instagramId : option string)
    (commentValue : option CommentValue) : M unit :=
  try_catch
    (match commentValue with
     | None => throw "Cannot read properties of undefined (reading 'id')"%string
     | Some value =>
         now <- dateNow ;;
         let commentData := buildCommentData instagramId value now in
         insertedId <- insertOne w_comments set_comments commentData ;;
         if negb (String.eqb (cmt_text commentData) EmptyString) then
           processCommentAutomation instagramId (mkDoc insertedId commentData)
         else ret tt
     end)
    (fun _ => ret tt).

(** The body of the loop over [entry.changes]. *)
Definition handleChange (instagramId : option string) (change : Change)
    : M unit :=
  if isCommentField (ch_field change)
  then handleComment instagramId (ch_value change)
  else ret tt.

Definition processEntry (entry : Entry) : M unit :=
  try_catch
    (let instagramId := en_id entry in
     match en_messaging entry with
     | Some messaging => forOf messaging (handleMessage instagramId)
     | None => ret tt
     end ;;
     match en_changes entry with
     | Some changes => forOf changes (handleChange instagramId)
     | None => ret tt
     end ;;
     if isCommentField (en_field entry)
     then handleComment instagramId (en_value entry)
     else ret tt)
    (fun _ => ret tt).

Definition processWebhookEntries (entries : Entries) : M unit :=
  l <- iterate entries ;;
  forOf l processEntry.

(** [webhookData.entry?.[0]?.id] *)
Definition firstEntryId (webhookData : Envelope) : option string :=
  match env_entry webhookData with
  | EntriesArray (entry :: _) => en_id entry
  | _ => None
  end.

(** The filter [{"data.entry.0.id": id}] on a [webhook_logs] document; an
    absent path is matched by an absent [id]. *)
Definition logOfEntry (id : option string) (d : Doc WebhookLog) : bool :=
  Js.optEq
    (match wl_data (fields d) with
     | LdEnvelope e => firstEntryId e
     | _ => None
     end) id.

(** [$set: {processed: true, processedAt, processorResponse}] *)
Definition setStarted (processedAt : Time) (l : WebhookLog) : WebhookLog :=
  mkWebhookLog (wl_eventType l) (wl_data l) (wl_success l) (wl_error l)
    (wl_timestamp l) (wl_createdAt l) (wl_source l)
    (Some true) (Some processedAt) (Some "Processing started"%string).

(** [POST /process-webhook]; [w_secret] is PROCESSOR_SECRET_KEY. *)
Definition process_webhook (req : Request) : M HttpReply :=
  try_catch
    (secret <- gets w_secret ;;
     if negb (Js.truthy (req_authorization req))
        || negb (Js.optEq (req_authorization req) (Some ("Bearer " ++ secret)%string))
     then reply 401 (RError "Unauthorized"%string)
     else
       let webhookData := req_body req in
       try_catch
         (t <- dateNow ;;
          updateOne w_webhook_logs set_webhook_logs
            (logOfEntry (firstEntryId webhookData)) (setStarted t))
         (fun _ => ret tt) ;;
       (if isInstagram webhookData
        then processWebhookEntries (env_entry webhookData)
        else ret tt) ;;
       reply 200 (RSuccess "Webhook processed successfully"%string))
    (fun error => reply 500 (RError error)).

End Processor.

(* ================================================================== *)
(** ** Concrete worlds *)

Module Scenario.

Local Open Scope string_scope.

Definition account : Doc Account :=
  mkDoc 1 (mkAccount (Some "ig1") (Some "token-1")).

Definition accountWithoutToken : Doc Account :=
  mkDoc 1 (mkAccount (Some "ig1") None).

Definition priceReply : string := "Here's our price list: ...".

Definition priceOnComments : Doc Automation :=
  mkDoc 2 (mkAutomation (Some "ig1") "comment" true "price-comment"
             (Some ["price"]) priceReply).

Definition priceOnMessages : Doc Automation :=
  mkDoc 3 (mkAutomation (Some "ig1") "message" true "price-dm"
             (Some ["price"]) priceReply).

Definition helloOnComments : Doc Automation :=
  mkDoc 4 (mkAutomation (Some "ig1") "comment" true "hello-comment"
             (Some ["list"; "hello"]) "Hello!").

Definition anyOnComments : Doc Automation :=
  mkDoc 5 (mkAutomation (Some "ig1") "comment" true "any-comment"
             (Some [""]) "Thanks for your comment!").

Definition commentValue (id text : string) : CommentValue :=
  mkCommentValue (Some id) None (Some (mkParty (Some "media1") None)) None
    (Some (mkParty (Some "user1") (Some "alice"))) (Some text)
    (Some 1700000000%Z) None.

Definition commentEnvelope (id text : string) : Envelope :=
  mkEnvelope (Some "instagram")
    (EntriesArray
       [mkEntry (Some "ig1") None
          (Some [mkChange (Some "comments") (Some (commentValue id text))])
          None None]).

Definition messagingItem (text : string) (echo : option bool) : MessagingItem :=
  mkMessagingItem (Some (mkMessagePayload (Some "mid1") (Some text) echo None))
    (Some (mkParty (Some "user1") None)) (Some (mkParty (Some "ig1") None))
    (Some 1700000000%Z).

Definition itemWithoutMessage : MessagingItem :=
  mkMessagingItem None (Some (mkParty (Some "user1") None)) None None.

Definition messageEnvelope (text : string) : Envelope :=
  mkEnvelope (Some "instagram")
    (EntriesArray
       [mkEntry (Some "ig1") (Some [messagingItem text None]) None None None]).

Definition pageEnvelope : Envelope :=
  mkEnvelope (Some "page")
    (EntriesArray
       [mkEntry (Some "ig1") None
          (Some [mkChange (Some "comments")
                   (Some (commentValue "c1" "what is the price?"))])
          None None]).

Definition pending (id : ObjectId) (createdAt : Time) (data : option Envelope)
    : Doc WebhookEvent :=
  mkDoc id (mkWebhookEvent data false createdAt None None).

Definition accepted : Response :=
  mkResponse true (Parsed (mkResponseData (Some "reply-1") "{id}")).

Definition rejected : Response :=
  mkResponse false (Parsed (mkResponseData None "{error}")).

(** A platform that accepts every request. *)
Definition netAccepts (_ : list HttpRequest) (_ : HttpRequest) : FetchOutcome :=
  Responded accepted.

(** A platform that accepts the requests to one URL and rejects the rest. *)
Definition netAcceptsOnly (url : string) (_ : list HttpRequest) (rq : HttpRequest)
    : FetchOutcome :=
  if String.eqb (rq_url rq) url then Responded accepted else Responded rejected.

Definition secret : string := "s3cret".

Definition authorized (body : Envelope) : Request :=
  mkRequest (Some "Bearer s3cret") body.

(** The request of the scheduler to [/process/pending]; it has no body. *)
Definition sweep : Request := authorized (mkEnvelope None EntriesAbsent).

Definition world (accounts : list (Doc Account))
    (automations : list (Doc Automation))
    (events : list (Doc WebhookEvent))
    (net : list HttpRequest -> HttpRequest -> FetchOutcome) : World :=
  mkWorld accounts automations [] [] [] [] events 1000 1700000100%Z secret
          net [] [].

(** The raw event of a comment is stored unprocessed while the same
    envelope is delivered to [/webhook/process]. *)
Definition liveAndPending : World :=
  world [account] [priceOnComments]
    [pending 100 1700000050%Z (Some (commentEnvelope "c1" "What is the PRICE?"))]
    netAccepts.

Definition afterLive : World :=
  state (Render.webhook_process
           (authorized (commentEnvelope "c1" "What is the PRICE?")))
        liveAndPending.

Definition afterLiveThenSweep : World :=
  state (Render.process_pending sweep) afterLive.

(** Three unprocessed comment events; the platform accepts the reply to
    the first comment and rejects the other two. *)
Definition threePending : World :=
  world [account] [priceOnComments]
    [pending 100 1700000010%Z (Some (commentEnvelope "c1" "price?"));
     pending 101 1700000020%Z (Some (commentEnvelope "c2" "price??"));
     pending 102 1700000030%Z (Some (commentEnvelope "c3" "price???"))]
    (netAcceptsOnly "https://graph.instagram.com/v19.0/c1/replies").

Definition afterThreePending : World :=
  state (Render.process_pending sweep) threePending.

(** Pending events that make the body of the sweep loop throw. *)
Definition brokenPending : World :=
  world [account] [priceOnComments]
    [pending 100 1700000010%Z None;
     pending 101 1700000020%Z (Some (mkEnvelope (Some "instagram") EntriesNotIterable))]
    netAccepts.

(** The processor's world: the log of the forwarded webhook is stored. *)
Definition forwardedLog (data : Envelope) : Doc WebhookLog :=
  mkDoc 500 (mkWebhookLog "webhook_received" (LdEnvelope data) true None
               1700000040%Z 1700000040%Z "vercel" (Some false) None None).

Definition processorWorld : World :=
  mkWorld [account] [priceOnComments] [] [] [] [forwardedLog pageEnvelope] []
          1000 1700000100%Z secret netAccepts [] [].

(** A stored comment whose reply the platform rejects. *)
Definition storedComment (id text : string) : Doc CommentData :=
  mkDoc 900 (buildCommentData (Some "ig1") (commentValue id text) 1700000100%Z).

Definition rejecting : World :=
  mkWorld [account] [helloOnComments; priceOnComments] []
          [storedComment "c2" "price??"] [] [] []
          1000 1700000100%Z secret
          (netAcceptsOnly "https://graph.instagram.com/v19.0/c1/replies") [] [].

Definition withEmptyKeyword : World :=
  world [account] [helloOnComments; anyOnComments; priceOnComments] [] netAccepts.

(** A comment that was replied to, and an unprocessed raw event that
    carries another comment. *)
Definition repliedComment : Doc CommentData :=
  mkDoc 900 (setReplied 2 (Some "reply-1") 1700000090%Z
               (buildCommentData (Some "ig1")
                  (commentValue "c1" "What is the PRICE?") 1700000080%Z)).

Definition otherPending : World :=
  mkWorld [account] [priceOnComments] [] [repliedComment] [] []
          [pending 101 1700000060%Z (Some (commentEnvelope "c2" "price please"))]
          1000 1700000100%Z secret netAccepts [] [].

(** An unprocessed raw event that carries a direct message. *)
Definition pendingMessage : World :=
  world [account] [priceOnMessages]
    [pending 100 1700000050%Z (Some (messageEnvelope "Hi, send me the PRICE list"))]
    netAccepts.

(** Scenario A of the specification: a message that mentions the price. *)
Definition priceMessage : World :=
  world [account] [priceOnMessages] [] netAccepts.

(** Scenario B: a comment that matches no keyword. *)
Definition nicePost : World :=
  world [account] [helloOnComments; priceOnComments] [] netAccepts.

(** Requests that [verifyAuth] turns away. *)
Definition withoutHeader (body : Envelope) : Request := mkRequest None body.

Definition withWrongToken (body : Envelope) : Request :=
  mkRequest (Some "Bearer guess") body.

(** A platform that cannot be reached. *)
Definition netDown (_ : list HttpRequest) (_ : HttpRequest) : FetchOutcome :=
  NetworkError "fetch failed".

Definition unreachable : World := world [account] [priceOnComments] [] netDown.

(** A stored message that asks for the price. *)
Definition storedMessage (text : string) : Doc MessageData :=
  mkDoc 901 (buildMessageData (Some "ig1") (messagingItem text None)
               (mkMessagePayload (Some "mid1") (Some text) None None)
               1700000100%Z).

Definition answering : World :=
  mkWorld [account] [helloOnComments; priceOnComments; priceOnMessages]
          [storedMessage "What is the price?"] [storedComment "c2" "price??"]
          [] [] [] 1000 1700000100%Z secret netAccepts [] [].

(** An envelope with a comment change that has no value between two that
    have one, and a change of another field. *)
Definition mixedEnvelope : Envelope :=
  mkEnvelope (Some "instagram")
    (EntriesArray
       [mkEntry (Some "ig1") (Some [messagingItem "hello" (Some true)])
          (Some [mkChange (Some "comments") (Some (commentValue "c1" "first"));
                 mkChange (Some "comments") None;
                 mkChange (Some "mentions") (Some (commentValue "m1" "price"));
                 mkChange (Some "live_comments") (Some (commentValue "c2" "price"))])
          None None]).

(** An envelope whose [entry] is an object, not a list. *)
Definition objectEntryEnvelope : Envelope :=
  mkEnvelope (Some "instagram") EntriesNotIterable.

(** Two raw events that no sweep retires: one without data, one that is
    not an Instagram envelope. *)
Definition blockedBehind : World :=
  world [account] [priceOnComments]
    [pending 100 1700000010%Z None;
     pending 101 1700000020%Z (Some (mkEnvelope (Some "page") EntriesAbsent))]
    netAccepts.

(** An entry that carries its comment in its own [field] and [value]. *)
Definition directEnvelope : Envelope :=
  mkEnvelope (Some "instagram")
    (EntriesArray
       [mkEntry (Some "ig1") None None (Some "comments")
          (Some (commentValue "c7" "price?"))]).

(** A comment and a message that carry no text. *)
Definition commentWithoutText : CommentValue :=
  mkCommentValue (Some "c8") None None None
    (Some (mkParty (Some "user1") (Some "alice"))) None None None.

Definition itemWithoutText : MessagingItem :=
  mkMessagingItem (Some (mkMessagePayload (Some "mid8") None None None))
    (Some (mkParty (Some "user1") None)) None None.

(** An event that an earlier sweep retired, stored before a pending one. *)
Definition settled : Doc WebhookEvent :=
  mkDoc 99 (mkWebhookEvent (Some (commentEnvelope "c0" "price")) true
              1700000000%Z (Some 1700000005%Z) None).

Definition oneSettled : World :=
  world [account] [priceOnComments]
    [settled; pending 100 1700000050%Z (Some (commentEnvelope "c1" "price?"))]
    netAccepts.

End Scenario.

(* ================================================================== *)
(** ** Vocabulary of the statements *)

(** A relation between the world before and after a handler holds for
    every run of [m]. *)
Definition preserves (R : World -> World -> Prop) {A : Type} (m : M A) : Prop :=
  forall w, R w (state m w).

(** [m] never lets an exception escape. *)
Definition safe {A : Type} (m : M A) : Prop :=
  forall w, exists a, result m w = Ok a.

(** The list [proj] of the world only grew, by items that satisfy [P]. *)
Definition extends {A : Type} (proj : World -> list A) (P : A -> Prop)
    (w w' : World) : Prop :=
  exists l, proj w' = proj w ++ l /\ Forall P l.

(** The part [proj] of the world is the same before and after. *)
Definition unchanged {A : Type} (proj : World -> A) (w w' : World) : Prop :=
  proj w' = proj w.

(** Ascending creation time. *)
Definition olderOrEqual (a b : Doc WebhookEvent) : Prop :=
  (we_createdAt (fields a) <= we_createdAt (fields b))%Z.

(** [proj] does not read what the setter [set] writes. *)
Definition ignores {A B : Type} (proj : World -> B) (set : A -> World -> World)
    : Prop :=
  forall x w, proj (set x w) = proj w.

Definition notEcho (d : Doc MessageData) : Prop := msg_isEcho (fields d) = false.

(** What one turn of the matcher's loop does once its automation matched. *)
Definition fired (c : DispatchCall) (m : M bool) : Prop :=
  forall w, result m w = Ok true /\ w_calls (state m w) = w_calls w ++ [c].

(** The dispatcher writes nothing but its two logs. *)
Definition sameStore (w w' : World) : Prop :=
  w_messages w' = w_messages w /\
  w_comments w' = w_comments w /\
  w_automation_logs w' = w_automation_logs w /\
  w_webhook_logs w' = w_webhook_logs w /\
  w_webhook_events w' = w_webhook_events w /\
  w_nextId w' = w_nextId w.

(** The automation whose keywords the matcher finds first. *)
Definition firstMatch (text : string) (automations : list (Doc Automation))
    : option (Doc Automation) :=
  find (hasKeyword (Js.toLowerCase text)) automations.

Definition loaded (w : World) (instagramId : option string) (type : string)
    : list (Doc Automation) :=
  filter (activeAutomation instagramId type) (w_automations w).

Definition storedAccount (w : World) (instagramId : option string)
    : option (Doc Account) :=
  find (fun d => Js.optEq (acc_instagramId (fields d)) instagramId) (w_accounts w).

(** The call that the matcher makes for an automation. *)
Definition replyCall (instagramId : option string) (d : Doc CommentData)
    (a : Doc Automation) : DispatchCall :=
  CallReplyToComment (cmt_commentId (fields d)) (auto_replyMessage (fields a))
    instagramId.

Definition messageCall (instagramId : option string) (d : Doc MessageData)
    (a : Doc Automation) : DispatchCall :=
  CallSendDirectMessage instagramId (msg_senderId (fields d))
    (auto_replyMessage (fields a)).

(** The calls that the matcher makes for an event. *)
Definition callsFor (call : Doc Automation -> DispatchCall)
    (text : string) (automations : list (Doc Automation)) : list DispatchCall :=
  match firstMatch text automations with
  | Some a => [call a]
  | None => []
  end.

(** [sub] occurs in [s]. *)
Definition isSubstring (sub s : string) : Prop :=
  exists pre post, s = (pre ++ sub ++ post)%string.

Definition keywordsOf (a : Doc Automation) : list string :=
  match auto_triggerKeywords (fields a) with
  | Some l => l
  | None => []
  end.

(** Some keyword of the automation, lowercased, is a substring of the
    lowercased text. *)
Definition matches (text : string) (a : Doc Automation) : Prop :=
  exists keyword,
    In keyword (keywordsOf a) /\
    isSubstring (Js.toLowerCase keyword) (Js.toLowerCase text).

(** [a] is the first automation, in the order of the list, that matches. *)
Definition firstMatching (text : string) (automations : list (Doc Automation))
    (a : Doc Automation) : Prop :=
  exists before after,
    automations = before ++ a :: after /\
    matches text a /\
    forall b, In b before -> ~ matches text b.

(** At most one dispatch, and for the first matching automation. *)
Definition firstMatchOnly (call : Doc Automation -> DispatchCall) (text : string)
    (automations : list (Doc Automation)) (made : list DispatchCall) : Prop :=
  (exists a, firstMatching text automations a /\ made = [call a]) \/
  ((forall b, In b automations -> ~ matches text b) /\ made = []).

(** *** What an event makes the pipeline do *)

(** [handleMessage] stores the item: it has a message that is no echo. *)
Definition storesMessage (item : MessagingItem) : bool :=
  match mi_message item with
  | Some payload =>
      match mp_is_echo payload with
      | Some true => false
      | _ => true
      end
  | None => false
  end.

(** [processEntry] hands the change to [handleComment], which stores it. *)
Definition storesComment (change : Change) : bool :=
  isCommentField (ch_field change) && Js.isSome (ch_value change).

Definition storedMessagesOf (entry : Entry) : nat :=
  match en_messaging entry with
  | Some l => length (filter storesMessage l)
  | None => 0
  end.

Definition storedCommentsOf (entry : Entry) : nat :=
  match en_changes entry with
  | Some l => length (filter storesComment l)
  | None => 0
  end.

(** The dispatcher invocations that a messaging item leads to, given the
    stored automations and the time. *)
Definition messageCallsOf (automations : list (Doc Automation)) (now : Time)
    (instagramId : option string) (item : MessagingItem) : list DispatchCall :=
  match mi_message item with
  | Some payload =>
      match mp_is_echo payload with
      | Some true => []
      | _ =>
          let d := buildMessageData instagramId item payload now in
          if String.eqb (msg_text d) EmptyString then []
          else callsFor (messageCall instagramId (mkDoc 0 d)) (msg_text d)
                 (filter (activeAutomation instagramId "message") automations)
      end
  | None => []
  end.

Definition commentCallsOf (automations : list (Doc Automation)) (now : Time)
    (instagramId : option string) (commentValue : option CommentValue)
    : list DispatchCall :=
  match commentValue with
  | Some value =>
      let d := buildCommentData instagramId value now in
      if String.eqb (cmt_text d) EmptyString then []
      else callsFor (replyCall instagramId (mkDoc 0 d)) (cmt_text d)
             (filter (activeAutomation instagramId "comment") automations)
  | None => []
  end.

Definition changeCallsOf (automations : list (Doc Automation)) (now : Time)
    (instagramId : option string) (change : Change) : list DispatchCall :=
  if isCommentField (ch_field change)
  then commentCallsOf automations now instagramId (ch_value change)
  else [].

Definition entryCallsOf (automations : list (Doc Automation)) (now : Time)
    (entry : Entry) : list DispatchCall :=
  match en_messaging entry with
  | Some l => flat_map (messageCallsOf automations now (en_id entry)) l
  | None => []
  end ++
  match en_changes entry with
  | Some l => flat_map (changeCallsOf automations now (en_id entry)) l
  | None => []
  end.

Definition eventCallsOf (automations : list (Doc Automation)) (now : Time)
    (event : Doc WebhookEvent) : list DispatchCall :=
  match we_data (fields event) with
  | Some data =>
      if isInstagram data then
        match env_entry data with
        | EntriesArray l => flat_map (entryCallsOf automations now) l
        | _ => []
        end
      else []
  | None => []
  end.

(** The two loops of [processEntry], on a property that may be absent. *)
Definition eachMessage (iid : option string) (o : option (list MessagingItem))
    : M unit :=
  match o with
  | Some messaging => forOf messaging (Render.handleMessage iid)
  | None => ret tt
  end.

Definition eachChange (iid : option string) (o : option (list Change)) : M unit :=
  match o with
  | Some changes => forOf changes (Render.handleChange iid)
  | None => ret tt
  end.

(** What the sweep writes on an event whose processing threw. *)
Definition recordFailure (event : Doc WebhookEvent) (error : string) (w : World)
    : World :=
  set_webhook_events
    (updateFirst (byId (_id event)) (setError error (w_now w)) (w_webhook_events w))
    w.

(** What the sweep writes on an event whose processing returned. *)
Definition recordProcessed (event : Doc WebhookEvent) (w : World) : World :=
  set_webhook_events
    (updateFirst (byId (_id event)) (setProcessed (w_now w)) (w_webhook_events w))
    w.

Definition notAnObject : string :=
  "Cannot read properties of undefined (reading 'object')".

Definition notIterable : string := "entries is not iterable".

(** The world after the sweep has driven one event. *)
Definition afterEvent (event : Doc WebhookEvent) (w : World) : World :=
  match we_data (fields event) with
  | None => recordFailure event notAnObject w
  | Some data =>
      if isInstagram data then
        match env_entry data with
        | EntriesArray l =>
            recordProcessed event (state (forOf l Render.processEntry) w)
        | _ => recordFailure event notIterable w
        end
      else w
  end.

(** What the loop of the sweep writes on the raw event, if anything. *)
Definition eventUpdate (now : Time) (event : Doc WebhookEvent)
    : option (WebhookEvent -> WebhookEvent) :=
  match we_data (fields event) with
  | None => Some (setError notAnObject now)
  | Some data =>
      if isInstagram data then
        match env_entry data with
        | EntriesArray _ => Some (setProcessed now)
        | _ => Some (setError notIterable now)
        end
      else None
  end.

Definition applyUpdate (now : Time) (events : list (Doc WebhookEvent))
    (event : Doc WebhookEvent) : list (Doc WebhookEvent) :=
  match eventUpdate now event with
  | Some f => updateFirst (byId (_id event)) f events
  | None => events
  end.

(** Processing the event throws: it has no [data], or its [entry] is not
    iterable. *)
Definition processingThrows (event : Doc WebhookEvent) : Prop :=
  we_data (fields event) = None \/
  exists data, we_data (fields event) = Some data /\
               isInstagram data = true /\
               env_entry data = EntriesNotIterable.

(** The event is an Instagram envelope with a list of entries. *)
Definition wellFormed (event : Doc WebhookEvent) : Prop :=
  exists data entries, we_data (fields event) = Some data /\
                       isInstagram data = true /\
                       env_entry data = EntriesArray entries.

(** The records that driving the event inserts. *)
Definition storedMessagesOfEvent (event : Doc WebhookEvent) : nat :=
  match we_data (fields event) with
  | Some data =>
      if isInstagram data then
        match env_entry data with
        | EntriesArray l => list_sum (map storedMessagesOf l)
        | _ => 0
        end
      else 0
  | None => 0
  end.

Definition storedCommentsOfEvent (event : Doc WebhookEvent) : nat :=
  match we_data (fields event) with
  | Some data =>
      if isInstagram data then
        match env_entry data with
        | EntriesArray l => list_sum (map storedCommentsOf l)
        | _ => 0
        end
      else 0
  | None => 0
  end.

(** The bearer token of the request is the secret of the server. *)
Definition authorizedBy (w : World) (req : Request) : bool :=
  match req_authorization req with
  | Some authHeader =>
      Js.startsWith authHeader "Bearer "
      && String.eqb (Js.substringFrom 7 authHeader) (w_secret w)
  | None => false
  end.

(** The comment identifiers that the changes of an entry carry. *)
Definition commentIdsOfChanges (now : Time) (changes : list Change) : list string :=
  flat_map (fun change =>
    if isCommentField (ch_field change) then
      match ch_value change with
      | Some value => [commentIdOf value now]
      | None => []
      end
    else []) changes.

Definition commentIdsOfEntry (now : Time) (entry : Entry) : list string :=
  match en_changes entry with
  | Some changes => commentIdsOfChanges now changes
  | None => []
  end.

Definition commentIdsOfEnvelope (now : Time) (data : Envelope) : list string :=
  match env_entry data with
  | EntriesArray l => flat_map (commentIdsOfEntry now) l
  | _ => []
  end.

Definition commentIdsOfEvent (now : Time) (event : Doc WebhookEvent) : list string :=
  match we_data (fields event) with
  | Some data => if isInstagram data then commentIdsOfEnvelope now data else []
  | None => []
  end.

(** *** Beyond the claims *)

(** How the dispatcher reads what the platform answered. *)
Definition outcomeOf (o : FetchOutcome) : DispatchResult :=
  match o with
  | Responded r =>
      match rs_json r with
      | Parsed d => if rs_ok r then Sent (rd_id d) else Failed (ErrBody d)
      | Rejects message => Failed (ErrMessage message)
      end
  | NetworkError e => Failed (ErrMessage e)
  end.

(** The request of [sendDirectMessage]. *)
Definition messageRequest (instagramId recipientId : option string)
    (message token : string) : HttpRequest :=
  mkHttpRequest (graph ++ Js.show instagramId ++ "/messages")
                (MessageBody recipientId message token).

(** The request of [replyToComment]. *)
Definition replyRequest (commentId replyMessage token : string) : HttpRequest :=
  mkHttpRequest (graph ++ commentId ++ "/replies") (ReplyBody replyMessage token).

(** The record of a firing that [logAutomationTrigger] writes. *)
Definition firingOf (a : Doc Automation) (instagramId triggeredBy : option string)
    (triggerText triggerType : string) (now : Time) : AutomationLog :=
  mkAutomationLog (_id a) (auto_name (fields a)) instagramId triggeredBy
    triggerText (auto_replyMessage (fields a)) triggerType now.

(** Store-assigned identifiers are fresh: every stored comment has an
    identifier below the next one. *)
Definition freshComments (w : World) : Prop :=
  Forall (fun d => _id d < w_nextId w) (w_comments w).

(** The record that [logEvent] appends. *)
Definition logged (w : World) (eventType : string) (data : LogData)
    (success : bool) (error : option string) : Doc WebhookLog :=
  mkDoc (w_nextId w)
    (mkWebhookLog eventType data success error (w_now w) (w_now w) "render_server"
       None None None).

(** What the sweep keeps of a raw event: its identifier, payload and
    creation time. *)
Definition sameEvent (d d' : Doc WebhookEvent) : Prop :=
  _id d' = _id d /\
  we_data (fields d') = we_data (fields d) /\
  we_createdAt (fields d') = we_createdAt (fields d).

(** Two raw events that the pending query cannot tell apart. *)
Definition samePending (d d' : Doc WebhookEvent) : Prop :=
  _id d' = _id d /\
  we_createdAt (fields d') = we_createdAt (fields d) /\
  we_processed (fields d') = we_processed (fields d).

(** A message as [handleMessage] stores it: not an echo, not processed. *)
Definition asStored (d : Doc MessageData) : Prop :=
  msg_isEcho (fields d) = false /\ msg_processed (fields d) = false.

(** A log record written by [logEvent]. *)
Definition fromRender (d : Doc WebhookLog) : Prop :=
  wl_source (fields d) = "render_server"%string /\
  wl_processed (fields d) = None.

Definition anyRecord {A : Type} (d : A) : Prop := True.

(** The requests that one invocation of the dispatcher sends, given the
    accounts of the store: one when the account of the id has a non-empty
    access token, none otherwise. *)
Definition requestsOf (w : World) (c : DispatchCall) : list HttpRequest :=
  match c with
  | CallSendDirectMessage iid rid msg =>
      match accessTokenOf (storedAccount w iid) with
      | Some token =>
          if String.eqb token EmptyString then []
          else [messageRequest iid rid msg token]
      | None => []
      end
  | CallReplyToComment cid msg iid =>
      match accessTokenOf (storedAccount w iid) with
      | Some token =>
          if String.eqb token EmptyString then []
          else [replyRequest cid msg token]
      | None => []
      end
  end.

(** From [w] to [w'] the accounts stayed, the dispatcher was invoked for
    some calls, and the requests sent are those of these calls, in order. *)
Definition traffic (w w' : World) : Prop :=
  w_accounts w' = w_accounts w /\
  exists calls,
    w_calls w' = w_calls w ++ calls /\
    w_http w' = w_http w ++ flat_map (requestsOf w) calls.

(** *** The processor's entries *)

(** The processor also reads a comment from the entry itself, when the
    entry has the field [comments] or [live_comments]. *)
Definition storesDirectComment (entry : Entry) : bool :=
  isCommentField (en_field entry) && Js.isSome (en_value entry).

Definition directCallsOf (automations : list (Doc Automation)) (now : Time)
    (entry : Entry) : list DispatchCall :=
  if isCommentField (en_field entry)
  then commentCallsOf automations now (en_id entry) (en_value entry)
  else [].

Definition processorCallsOf (automations : list (Doc Automation)) (now : Time)
    (entry : Entry) : list DispatchCall :=
  entryCallsOf automations now entry ++ directCallsOf automations now entry.

Definition processorCommentsOf (entry : Entry) : nat :=
  storedCommentsOf entry + (if storesDirectComment entry then 1 else 0).

(** A loop over a property that may be absent. *)
Definition eachOf {A : Type} (o : option (list A)) (f : A -> M unit) : M unit :=
  match o with
  | Some l => forOf l f
  | None => ret tt
  end.

(** The call carries the reply of a stored automation that is active, of
    the account and the kind of the call, and has a keyword. *)
Definition configured (automations : list (Doc Automation)) (c : DispatchCall)
    : Prop :=
  exists a,
    In a automations /\ auto_isActive (fields a) = true /\ keywordsOf a <> [] /\
    match c with
    | CallSendDirectMessage iid _ msg =>
        auto_type (fields a) = "message"%string /\
        auto_instagramId (fields a) = iid /\ msg = auto_replyMessage (fields a)
    | CallReplyToComment _ msg iid =>
        auto_type (fields a) = "comment"%string /\
        auto_instagramId (fields a) = iid /\ msg = auto_replyMessage (fields a)
    end.

(** From [w] to [w'] the automations stayed and every invocation of the
    dispatcher was [configured]. *)
Definition dispatchesConfigured (w w' : World) : Prop :=
  w_automations w' = w_automations w /\
  exists made,
    w_calls w' = w_calls w ++ made /\
    Forall (configured (w_automations w)) made.

(** Nothing was dispatched, sent or logged as a firing. *)
Definition nothingFired (w w' : World) : Prop :=
  w_calls w' = w_calls w /\ w_http w' = w_http w /\
  w_automation_logs w' = w_automation_logs w.

(** What a stored comment holds of the webhook that delivered it. *)
Definition delivered (c : CommentData) :=
  (cmt_instagramId c, cmt_commentId c, cmt_mediaId c, cmt_parentId c,
   cmt_userId c, cmt_username c, cmt_text c, cmt_timestamp c, cmt_createdAt c).

(** The same comment, possibly answered in between: the identifier and
    what the webhook delivered are equal, no error was written on it, and
    a comment that was processed still is. *)
Definition sameComment (d d' : Doc CommentData) : Prop :=
  _id d' = _id d /\
  delivered (fields d') = delivered (fields d) /\
  cmt_error (fields d') = cmt_error (fields d) /\
  (cmt_isProcessed (fields d) = true -> cmt_isProcessed (fields d') = true).

(** Every comment of [w] is still there in [w'], in place, and new
    comments only follow them. *)
Definition keepsComments (w w' : World) : Prop :=
  exists added, Forall2 sameComment (w_comments w ++ added) (w_comments w').

(** The answer of the processor to an authorized request: 500 when the
    envelope is Instagram's and its [entry] cannot be iterated, 200
    otherwise. *)
Definition processorReply (webhookData : Envelope) : HttpReply :=
  match env_entry webhookData with
  | EntriesNotIterable =>
      if Js.optEq (env_object webhookData) (Some "instagram"%string)
      then mkHttpReply 500 (RError "entries is not iterable")
      else mkHttpReply 200 (RSuccess "Webhook processed successfully")
  | _ => mkHttpReply 200 (RSuccess "Webhook processed successfully")
  end.


(* ================================================================== *)
(** ** The monad: equations and composition rules *)

Lemma pair_state_result {A : Type} (m : M A) (w : World) :
  m w = (result m w, state m w).
Proof. unfold result, state. destruct (m w); reflexivity. Qed.

Lemma bind_ok {A B : Type} (m : M A) (k : A -> M B) (w : World) (a : A) :
  result m w = Ok a -> bind m k w = k a (state m w).
Proof.
  unfold result, state, bind. destruct (m w) as [r w']; simpl.
  intros ->. reflexivity.
Qed.

Lemma try_ok {A : Type} (m : M A) (h : string -> M A) (w : World) (a : A) :
  result m w = Ok a -> try_catch m h w = (Ok a, state m w).
Proof.
  unfold result, state, try_catch. destruct (m w) as [r w']; simpl.
  intros ->. reflexivity.
Qed.

Lemma try_throw {A : Type} (m : M A) (h : string -> M A) (w : World) (e : string) :
  result m w = Throw e -> try_catch m h w = h e (state m w).
Proof.
  unfold result, state, try_catch. destruct (m w) as [r w']; simpl.
  intros ->. reflexivity.
Qed.

Section Preserves.

Variable R : World -> World -> Prop.
Hypothesis R_refl : forall w, R w w.
Hypothesis R_trans : forall a b c, R a b -> R b c -> R a c.

Lemma preserves_ret {A : Type} (a : A) : preserves R (ret a).
Proof. intro w. apply R_refl. Qed.

Lemma preserves_throw {A : Type} (e : string) : preserves R (@throw A e).
Proof. intro w. apply R_refl. Qed.

Lemma preserves_gets {A : Type} (f : World -> A) : preserves R (gets f).
Proof. intro w. apply R_refl. Qed.

Lemma preserves_bind {A B : Type} (m : M A) (k : A -> M B) :
  preserves R m -> (forall a, preserves R (k a)) -> preserves R (bind m k).
Proof.
  intros Hm Hk w. specialize (Hm w). unfold state, bind in *.
  destruct (m w) as [[a|e] w1]; simpl in *.
  - eapply R_trans; [exact Hm | apply Hk].
  - exact Hm.
Qed.

Lemma preserves_try {A : Type} (m : M A) (h : string -> M A) :
  preserves R m -> (forall e, preserves R (h e)) -> preserves R (try_catch m h).
Proof.
  intros Hm Hh w. specialize (Hm w). unfold state, try_catch in *.
  destruct (m w) as [[a|e] w1]; simpl in *.
  - exact Hm.
  - eapply R_trans; [exact Hm | apply Hh].
Qed.

Lemma preserves_forOf {A : Type} (l : list A) (body : A -> M unit) :
  (forall x, In x l -> preserves R (body x)) -> preserves R (forOf l body).
Proof.
  induction l as [|x rest IH]; intros Hb; simpl.
  - apply preserves_ret.
  - apply preserves_bind.
    + apply Hb. now left.
    + intros _. apply IH. intros y Hy. apply Hb. now right.
Qed.

Lemma preserves_forOfBreak {A : Type} (l : list A) (body : A -> M bool) :
  (forall x, In x l -> preserves R (body x)) -> preserves R (forOfBreak l body).
Proof.
  induction l as [|x rest IH]; intros Hb; simpl.
  - apply preserves_ret.
  - apply preserves_bind.
    + apply Hb. now left.
    + intros [|].
      * apply preserves_ret.
      * apply IH. intros y Hy. apply Hb. now right.
Qed.

End Preserves.

Lemma safe_ret {A : Type} (a : A) : safe (ret a).
Proof. intro w. now exists a. Qed.

Lemma safe_gets {A : Type} (f : World -> A) : safe (gets f).
Proof. intro w. now exists (f w). Qed.

Lemma safe_modify (f : World -> World) : safe (modify f).
Proof. intro w. now exists tt. Qed.

Lemma safe_bind {A B : Type} (m : M A) (k : A -> M B) :
  safe m -> (forall a, safe (k a)) -> safe (bind m k).
Proof.
  intros Hm Hk w. destruct (Hm w) as [a Ha].
  unfold result. rewrite (bind_ok _ _ _ _ Ha). apply Hk.
Qed.

Lemma safe_try {A : Type} (m : M A) (h : string -> M A) :
  (forall e, safe (h e)) -> safe (try_catch m h).
Proof.
  intros Hh w. unfold result. destruct (result m w) as [a|e] eqn:E.
  - rewrite (try_ok _ _ _ _ E). now exists a.
  - rewrite (try_throw _ _ _ _ E). apply Hh.
Qed.

Lemma safe_forOf {A : Type} (l : list A) (body : A -> M unit) :
  (forall x, safe (body x)) -> safe (forOf l body).
Proof.
  intro Hb. induction l as [|x rest IH]; simpl.
  - apply safe_ret.
  - apply safe_bind; [apply Hb | intros _; exact IH].
Qed.

Lemma safe_unit (m : M unit) (w : World) : safe m -> result m w = Ok tt.
Proof. intro H. destruct (H w) as [[] E]. exact E. Qed.

Lemma run_safe (m : M unit) (w : World) : safe m -> m w = (Ok tt, state m w).
Proof. intro H. rewrite (pair_state_result m w) at 1. now rewrite safe_unit. Qed.

(** *** The world after a primitive operation *)

Lemma state_modify (f : World -> World) (w : World) : state (modify f) w = f w.
Proof. reflexivity. Qed.

Lemma state_insertOne {A : Type} get set (d : A) (w : World) :
  state (insertOne get set d) w
  = set_nextId (S (w_nextId w)) (set (get w ++ [mkDoc (w_nextId w) d]) w).
Proof. reflexivity. Qed.

Lemma state_updateOne {A : Type} get set sel (f : A -> A) (w : World) :
  state (updateOne get set sel f) w = set (updateFirst sel f (get w)) w.
Proof. reflexivity. Qed.

Lemma state_recordCall (c : DispatchCall) (w : World) :
  state (recordCall c) w = set_calls (w_calls w ++ [c]) w.
Proof. reflexivity. Qed.

Lemma state_fetch (rq : HttpRequest) (w : World) :
  state (fetch rq) w = set_http (w_http w ++ [rq]) w.
Proof. unfold state, fetch. destruct (w_net w (w_http w) rq); reflexivity. Qed.

Lemma state_json (r : Response) (w : World) : state (json r) w = w.
Proof. unfold state, json. destruct (rs_json r); reflexivity. Qed.

Lemma state_iterate (e : Entries) (w : World) : state (iterate e) w = w.
Proof. destruct e; reflexivity. Qed.

(** *** Relations that every handler is checked against *)

Lemma unchanged_refl {A : Type} (proj : World -> A) w : unchanged proj w w.
Proof. reflexivity. Qed.

Lemma unchanged_trans {A : Type} (proj : World -> A) a b c :
  unchanged proj a b -> unchanged proj b c -> unchanged proj a c.
Proof. unfold unchanged. congruence. Qed.

Lemma extends_refl {A : Type} (proj : World -> list A) P w : extends proj P w w.
Proof. exists []. split; [now rewrite app_nil_r | constructor]. Qed.

Lemma extends_trans {A : Type} (proj : World -> list A) P a b c :
  extends proj P a b -> extends proj P b c -> extends proj P a c.
Proof.
  intros (l1 & E1 & F1) (l2 & E2 & F2). exists (l1 ++ l2). split.
  - now rewrite E2, E1, app_assoc.
  - apply Forall_app. now split.
Qed.

(** [walk refl trans leaf] follows the structure of a handler: sequencing,
    try/catch, loops and branches, down to the primitive operations, which
    [leaf] is left to solve on the world they produce. *)
Ltac walk_leaf leaf :=
  let w := fresh "w" in
  intro w;
  rewrite ?state_fetch, ?state_json, ?state_iterate, ?state_insertOne,
          ?state_updateOne, ?state_recordCall, ?state_modify;
  leaf.

Ltac walk refl trans leaf :=
  repeat first
    [ match goal with
      | |- preserves _ (ret _) => apply (preserves_ret _ refl)
      | |- preserves _ (throw _) => apply (preserves_throw _ refl)
      | |- preserves _ (gets _) => apply (preserves_gets _ refl)
      | |- preserves _ (bind _ _) => apply (preserves_bind _ trans); [ | intro ]
      | |- preserves _ (try_catch _ _) => apply (preserves_try _ trans); [ | intro ]
      | |- preserves _ (forOf _ _) =>
          apply (preserves_forOf _ refl trans); intros ? ?
      | |- preserves _ (forOfBreak _ _) =>
          apply (preserves_forOfBreak _ refl trans); intros ? ?
      | |- preserves _ (match ?x with _ => _ end) => destruct x
      end
    | progress unfold Render.messageTurn, Render.commentTurn,
        Render.handleChange, Processor.messageTurn, Processor.commentTurn,
        Processor.handleChange
    | solve [ leaf ] ].

Ltac unfold_helpers :=
  unfold dateNow, findAutomations, findAccount, reply.

(** *** The dispatcher *)

Lemma sendDirectMessage_safe iid rid msg : safe (sendDirectMessage iid rid msg).
Proof.
  unfold sendDirectMessage. apply safe_bind; [apply safe_modify | intros _].
  apply safe_try. intro e. apply safe_ret.
Qed.

Lemma replyToComment_safe cid msg iid : safe (replyToComment cid msg iid).
Proof.
  unfold replyToComment. apply safe_bind; [apply safe_modify | intros _].
  apply safe_try. intro e. apply safe_ret.
Qed.

(* ================================================================== *)
(** ** The embedding, evaluated *)

Example toLowerCase_price :
  Js.toLowerCase "Hi, send me the PRICE list" = "hi, send me the price list"%string.
Proof. reflexivity. Qed.

Example includes_price :
  Js.includes "hi, send me the price list" "price" = true /\
  Js.includes "nice post" "price" = false /\
  Js.includes "nice post" "" = true.
Proof. repeat split. Qed.

(** A live message that mentions the price is stored, answered through the
    dispatcher with the reply of the automation, and the firing is logged. *)
Example price_message_is_answered :
  let w := state (Render.webhook_process
                    (Scenario.authorized
                       (Scenario.messageEnvelope "Hi, send me the PRICE list")))
                 Scenario.priceMessage in
  w_calls w = [CallSendDirectMessage (Some "ig1") (Some "user1") Scenario.priceReply]%string /\
  map rq_url (w_http w) = ["https://graph.instagram.com/v19.0/ig1/messages"]%string /\
  length (w_messages w) = 1 /\
  map (fun l => alog_automationName (fields l)) (w_automation_logs w)
  = ["price-dm"]%string.
Proof. vm_compute. repeat split. Qed.

(** A live comment that matches no keyword is stored with [isProcessed]
    false and nothing is dispatched. *)
Example nice_post_is_not_answered :
  let w := state (Render.webhook_process
                    (Scenario.authorized (Scenario.commentEnvelope "c7" "nice post")))
                 Scenario.nicePost in
  w_calls w = [] /\ w_http w = [] /\
  map (fun c => (cmt_commentId (fields c), cmt_isProcessed (fields c))) (w_comments w)
  = [("c7"%string, false)].
Proof. vm_compute. repeat split. Qed.

(** The sweep takes the oldest pending events first. *)
Example fetchPending_order :
  map _id (fetchPending 2
             [Scenario.pending 1 30%Z None;
              mkDoc 2 (mkWebhookEvent None true 5%Z None None);
              Scenario.pending 3 10%Z None;
              Scenario.pending 4 20%Z None])
  = [3; 4].
Proof. reflexivity. Qed.

(* ================================================================== *)
(** ** Pending events: filter, sort, limit *)

Lemma insertByCreatedAt_In e l x :
  In x (insertByCreatedAt e l) <-> x = e \/ In x l.
Proof.
  induction l as [|y rest IH]; simpl.
  - intuition.
  - destruct (_ <=? _)%Z; simpl; [intuition | rewrite IH; intuition].
Qed.

Lemma sortByCreatedAt_In l x : In x (sortByCreatedAt l) <-> In x l.
Proof.
  induction l as [|y rest IH]; simpl; [tauto |].
  rewrite insertByCreatedAt_In, IH. intuition.
Qed.

Lemma insertByCreatedAt_sorted e l :
  StronglySorted olderOrEqual l -> StronglySorted olderOrEqual (insertByCreatedAt e l).
Proof.
  induction 1 as [|y rest Hs IH Hall]; simpl.
  - repeat constructor.
  - destruct (_ <=? _)%Z eqn:E.
    + apply Z.leb_le in E. constructor; [now constructor |].
      constructor; [exact E |].
      eapply Forall_impl; [| exact Hall].
      intros z Hz. unfold olderOrEqual in *. lia.
    + apply Z.leb_gt in E. constructor; [exact IH |].
      apply Forall_forall. intros z Hz.
      apply insertByCreatedAt_In in Hz. destruct Hz as [-> | Hz].
      * unfold olderOrEqual. lia.
      * rewrite Forall_forall in Hall. now apply Hall.
Qed.

Lemma sortByCreatedAt_sorted l : StronglySorted olderOrEqual (sortByCreatedAt l).
Proof.
  induction l as [|y rest IH]; simpl; [constructor |].
  now apply insertByCreatedAt_sorted.
Qed.

Lemma sorted_split (l1 l2 : list (Doc WebhookEvent)) :
  StronglySorted olderOrEqual (l1 ++ l2) ->
  StronglySorted olderOrEqual l1 /\
  forall x y, In x l1 -> In y l2 -> olderOrEqual x y.
Proof.
  induction l1 as [|a l1 IH]; simpl; intro H.
  - split; [constructor | intros x y []].
  - inversion H as [|? ? Hs Hall]; subst. destruct (IH Hs) as [S1 C1].
    rewrite Forall_forall in Hall. split.
    + constructor; [exact S1 |]. apply Forall_forall. intros z Hz.
      apply Hall. apply in_or_app. now left.
    + intros x y [-> | Hx] Hy.
      * apply Hall. apply in_or_app. now right.
      * now apply C1.
Qed.

Lemma fetchPending_In limit events e :
  In e (fetchPending limit events) ->
  In e events /\ we_processed (fields e) = false.
Proof.
  unfold fetchPending. intro H.
  assert (H1 : In e (sortByCreatedAt (filter isPending events))).
  { rewrite <- (firstn_skipn limit). apply in_or_app. now left. }
  apply sortByCreatedAt_In, filter_In in H1. destruct H1 as [H1 H2].
  split; [exact H1 |]. unfold isPending in H2.
  destruct (we_processed (fields e)); [discriminate | reflexivity].
Qed.

(** C6. Whatever the event store holds, fetching the pending events for a
    reconciliation sweep returns only stored events whose [processed] is
    false, in ascending order of creation time, at most 50 of them, and
    they are the oldest: a pending event left out was created no earlier
    than any returned one. *)
Theorem fetchPending_oldest_unprocessed_first :
  forall events : list (Doc WebhookEvent),
    Forall (fun e => In e events /\ we_processed (fields e) = false)
           (fetchPending 50 events) /\
    StronglySorted olderOrEqual (fetchPending 50 events) /\
    (length (fetchPending 50 events) <= 50)%nat /\
    (forall e x,
        In e events -> we_processed (fields e) = false ->
        ~ In e (fetchPending 50 events) ->
        In x (fetchPending 50 events) -> olderOrEqual x e).
Proof.
  intro events.
  pose proof (sortByCreatedAt_sorted (filter isPending events)) as Hs.
  rewrite <- (firstn_skipn 50) in Hs. apply sorted_split in Hs.
  destruct Hs as [Hs Hc].
  split; [| split; [| split]].
  - apply Forall_forall. intros e He. now apply fetchPending_In in He.
  - exact Hs.
  - unfold fetchPending. apply firstn_le_length.
  - intros e x He Hp Hn Hx. apply Hc; [exact Hx |].
    assert (Hin : In e (sortByCreatedAt (filter isPending events))).
    { apply sortByCreatedAt_In, filter_In. split; [exact He |].
      unfold isPending. now rewrite Hp. }
    rewrite <- (firstn_skipn 50) in Hin. apply in_app_or in Hin.
    destruct Hin as [Hin | Hin]; [| exact Hin].
    exfalso. apply Hn. exact Hin.
Qed.

(* ================================================================== *)
(** ** The dispatcher without credentials *)

Lemma sendDirectMessage_no_token w iid rid msg :
  Js.truthy (accessTokenOf (storedAccount w iid)) = false ->
  sendDirectMessage iid rid msg w
  = (Ok noAccessToken,
     set_calls (w_calls w ++ [CallSendDirectMessage iid rid msg]) w).
Proof.
  intro H. unfold sendDirectMessage, bind, try_catch, recordCall, modify,
    findAccount, gets. simpl.
  fold (storedAccount w iid).
  destruct (accessTokenOf (storedAccount w iid)) as [token|]; [| reflexivity].
  simpl in H. destruct (String.eqb token EmptyString); [reflexivity | discriminate].
Qed.

Lemma replyToComment_no_token w cid msg iid :
  Js.truthy (accessTokenOf (storedAccount w iid)) = false ->
  replyToComment cid msg iid w
  = (Ok noAccessToken,
     set_calls (w_calls w ++ [CallReplyToComment cid msg iid]) w).
Proof.
  intro H. unfold replyToComment, bind, try_catch, recordCall, modify,
    findAccount, gets. simpl.
  fold (storedAccount w iid).
  destruct (accessTokenOf (storedAccount w iid)) as [token|]; [| reflexivity].
  simpl in H. destruct (String.eqb token EmptyString); [reflexivity | discriminate].
Qed.

(** C5. When the store has no Account for the account id, or the Account
    found has no access token (absent or empty), [sendDirectMessage] and
    [replyToComment] both return [{success: false, error: "No access
    token"}] and perform no outbound HTTP request: the world after the call
    is the world before it, the record of the invocation apart. *)
Theorem dispatch_without_access_token :
  forall (w : World) (instagramId recipientId : option string)
         (commentId message : string),
    storedAccount w instagramId = None \/
    (exists account, storedAccount w instagramId = Some account /\
                     Js.truthy (acc_accessToken (fields account)) = false) ->
    result (sendDirectMessage instagramId recipientId message) w
      = Ok (Failed (ErrMessage "No access token"%string)) /\
    w_http (state (sendDirectMessage instagramId recipientId message) w) = w_http w /\
    sameStore w (state (sendDirectMessage instagramId recipientId message) w) /\
    result (replyToComment commentId message instagramId) w
      = Ok (Failed (ErrMessage "No access token"%string)) /\
    w_http (state (replyToComment commentId message instagramId) w) = w_http w /\
    sameStore w (state (replyToComment commentId message instagramId) w).
Proof.
  intros w iid rid cid msg H.
  assert (Ht : Js.truthy (accessTokenOf (storedAccount w iid)) = false).
  { destruct H as [-> | (account & -> & Hf)]; [reflexivity | exact Hf]. }
  unfold result, state.
  rewrite (sendDirectMessage_no_token w iid rid msg Ht).
  rewrite (replyToComment_no_token w cid msg iid Ht).
  simpl. repeat split.
Qed.

Lemma dispatch_without_access_token_witness :
  result (sendDirectMessage (Some "ig1"%string) (Some "user1"%string) "hello")
         (Scenario.world [Scenario.accountWithoutToken] [] [] Scenario.netAccepts)
    = Ok (Failed (ErrMessage "No access token"%string)) /\
  w_http (state (replyToComment "c1" "hello" (Some "ig1"%string))
            (Scenario.world [Scenario.accountWithoutToken] [] [] Scenario.netAccepts))
    = [].
Proof.
  pose proof (dispatch_without_access_token
                (Scenario.world [Scenario.accountWithoutToken] [] [] Scenario.netAccepts)
                (Some "ig1"%string) (Some "user1"%string) "c1" "hello") as H.
  destruct H as (H1 & _ & _ & _ & H2 & _).
  - right. exists Scenario.accountWithoutToken. split; reflexivity.
  - split; [exact H1 | exact H2].
Defined.

(* ================================================================== *)
(** ** Footprints: what each handler leaves alone *)

Section Footprint.

Context {B : Type} (proj : World -> B).

Hypothesis I_calls : ignores proj set_calls.
Hypothesis I_http : ignores proj set_http.
Hypothesis I_nextId : ignores proj set_nextId.
Hypothesis I_webhook_logs : ignores proj set_webhook_logs.
Hypothesis I_automation_logs : ignores proj set_automation_logs.
Hypothesis I_comments : ignores proj set_comments.
Hypothesis I_messages : ignores proj set_messages.

Let refl := unchanged_refl proj.
Let trans := unchanged_trans proj.

Ltac ignore_leaf :=
  walk_leaf ltac:(unfold unchanged;
                  rewrite ?I_nextId, ?I_calls, ?I_http, ?I_webhook_logs,
                          ?I_automation_logs, ?I_comments, ?I_messages;
                  reflexivity).

Lemma sendDirectMessage_ignores iid rid msg :
  preserves (unchanged proj) (sendDirectMessage iid rid msg).
Proof. unfold sendDirectMessage; unfold_helpers. walk refl trans ignore_leaf. Qed.

Lemma replyToComment_ignores cid msg iid :
  preserves (unchanged proj) (replyToComment cid msg iid).
Proof. unfold replyToComment; unfold_helpers. walk refl trans ignore_leaf. Qed.

Lemma logAutomationTrigger_ignores a iid by_ text rep type :
  preserves (unchanged proj) (logAutomationTrigger a iid by_ text rep type).
Proof. unfold logAutomationTrigger; unfold_helpers. walk refl trans ignore_leaf. Qed.

Lemma logEvent_ignores t d s e :
  preserves (unchanged proj) (Render.logEvent t d s e).
Proof. unfold Render.logEvent; unfold_helpers. walk refl trans ignore_leaf. Qed.

Ltac known :=
  first [ apply sendDirectMessage_ignores | apply replyToComment_ignores
        | apply logAutomationTrigger_ignores | apply logEvent_ignores
        | ignore_leaf ].

Lemma render_processMessageAutomation_ignores iid d :
  preserves (unchanged proj) (Render.processMessageAutomation iid d).
Proof.
  unfold Render.processMessageAutomation; unfold_helpers. walk refl trans known.
Qed.

Lemma processor_processMessageAutomation_ignores iid d :
  preserves (unchanged proj) (Processor.processMessageAutomation iid d).
Proof.
  unfold Processor.processMessageAutomation; unfold_helpers. walk refl trans known.
Qed.

Lemma render_processCommentAutomation_ignores iid d :
  preserves (unchanged proj) (Render.processCommentAutomation iid d).
Proof.
  unfold Render.processCommentAutomation; unfold_helpers. walk refl trans known.
Qed.

Ltac known2 :=
  first [ apply render_processMessageAutomation_ignores
        | apply render_processCommentAutomation_ignores
        | known ].

Lemma render_handleMessage_ignores iid item :
  preserves (unchanged proj) (Render.handleMessage iid item).
Proof. unfold Render.handleMessage; unfold_helpers. walk refl trans known2. Qed.

Lemma render_handleComment_ignores iid v :
  preserves (unchanged proj) (Render.handleComment iid v).
Proof. unfold Render.handleComment; unfold_helpers. walk refl trans known2. Qed.

Ltac known3 :=
  first [ apply render_handleMessage_ignores | apply render_handleComment_ignores
        | known2 ].

Lemma render_processEntry_ignores entry :
  preserves (unchanged proj) (Render.processEntry entry).
Proof. unfold Render.processEntry; unfold_helpers. walk refl trans known3. Qed.

End Footprint.

Ltac ignore_all :=
  repeat match goal with
         | |- ignores _ _ => intros ? ?; reflexivity
         end.

(* ================================================================== *)
(** ** No handler lets an exception escape *)

Lemma logEvent_safe t d s e : safe (Render.logEvent t d s e).
Proof. apply safe_try. intro. apply safe_ret. Qed.

Lemma logAutomationTrigger_safe a iid by_ text rep type :
  safe (logAutomationTrigger a iid by_ text rep type).
Proof. apply safe_try. intro. apply safe_ret. Qed.

Lemma render_processMessageAutomation_safe iid d :
  safe (Render.processMessageAutomation iid d).
Proof. apply safe_try. intro. apply logEvent_safe. Qed.

Lemma render_processCommentAutomation_safe iid d :
  safe (Render.processCommentAutomation iid d).
Proof. apply safe_try. intro. apply logEvent_safe. Qed.

Lemma render_handleMessage_safe iid item : safe (Render.handleMessage iid item).
Proof. apply safe_try. intro. apply logEvent_safe. Qed.

Lemma render_handleComment_safe iid v : safe (Render.handleComment iid v).
Proof. apply safe_try. intro. apply logEvent_safe. Qed.

Lemma render_processEntry_safe entry : safe (Render.processEntry entry).
Proof. apply safe_try. intro. apply logEvent_safe. Qed.

Lemma render_processEntries_safe l : safe (forOf l Render.processEntry).
Proof. apply safe_forOf. apply render_processEntry_safe. Qed.

Lemma render_processPendingEvent_safe event : safe (Render.processPendingEvent event).
Proof.
  apply safe_try. intro. apply safe_bind; [apply safe_gets | intro].
  apply safe_modify.
Qed.

(* ================================================================== *)
(** ** Echoes and items without a message *)

Lemma unchanged_extends {A : Type} (proj : World -> list A) (P : A -> Prop)
    {X : Type} (m : M X) :
  preserves (unchanged proj) m -> preserves (extends proj P) m.
Proof.
  intros H w. exists []. split; [| constructor].
  rewrite app_nil_r. apply H.
Qed.

Lemma render_handleMessage_extends iid item :
  preserves (extends w_messages notEcho) (Render.handleMessage iid item).
Proof.
  unfold Render.handleMessage; unfold_helpers.
  walk (extends_refl w_messages notEcho) (extends_trans w_messages notEcho)
    ltac:(first
      [ apply unchanged_extends;
        first [ apply logEvent_ignores
              | apply render_processMessageAutomation_ignores ]; ignore_all
      | walk_leaf ltac:(eexists; split; [simpl; reflexivity |];
                        repeat constructor) ]).
Qed.

Lemma processor_handleMessage_extends iid item :
  preserves (extends w_messages notEcho) (Processor.handleMessage iid item).
Proof.
  unfold Processor.handleMessage; unfold_helpers.
  walk (extends_refl w_messages notEcho) (extends_trans w_messages notEcho)
    ltac:(first
      [ apply unchanged_extends;
        apply processor_processMessageAutomation_ignores; ignore_all
      | walk_leaf ltac:(eexists; split; [simpl; reflexivity |];
                        repeat constructor) ]).
Qed.

(** C7. A messaging item without a [message] payload, or whose
    [message.is_echo] is true, makes [handleMessage] return at once, in both
    servers: nothing is stored, no record is written to the webhook log (it
    is not an error) and nothing is dispatched.  And whatever the item, the
    MessageEvent records that [handleMessage] adds to the store all have
    [isEcho] false. *)
Theorem handleMessage_skips_echo :
  forall (instagramId : option string) (message : MessagingItem) (w : World),
    (mi_message message = None \/
     (exists payload, mi_message message = Some payload /\
                      mp_is_echo payload = Some true) ->
     Render.handleMessage instagramId message w = (Ok tt, w) /\
     Processor.handleMessage instagramId message w = (Ok tt, w)) /\
    extends w_messages notEcho w (state (Render.handleMessage instagramId message) w) /\
    extends w_messages notEcho w (state (Processor.handleMessage instagramId message) w).
Proof.
  intros iid item w. split; [| split].
  - unfold Render.handleMessage, Processor.handleMessage, try_catch.
    intros [H | (payload & H & He)]; rewrite H; [| rewrite He]; split; reflexivity.
  - apply render_handleMessage_extends.
  - apply processor_handleMessage_extends.
Qed.

Lemma handleMessage_skips_echo_witness :
  Render.handleMessage (Some "ig1"%string)
    (Scenario.messagingItem "price" (Some true)) Scenario.liveAndPending
  = (Ok tt, Scenario.liveAndPending) /\
  Processor.handleMessage (Some "ig1"%string)
    Scenario.itemWithoutMessage Scenario.liveAndPending
  = (Ok tt, Scenario.liveAndPending).
Proof.
  split.
  - apply (proj1 (handleMessage_skips_echo (Some "ig1"%string)
                    (Scenario.messagingItem "price" (Some true))
                    Scenario.liveAndPending)).
    right. eexists. split; reflexivity.
  - apply (proj1 (handleMessage_skips_echo (Some "ig1"%string)
                    Scenario.itemWithoutMessage Scenario.liveAndPending)).
    left. reflexivity.
Defined.

(* ================================================================== *)
(** ** The matcher: one dispatch, for the first match *)

Lemma bind_unit {B : Type} (m : M unit) (k : unit -> M B) (w : World) :
  safe m -> bind m k w = k tt (state m w).
Proof. intro H. apply bind_ok. now apply safe_unit. Qed.

Lemma state_bind_unit {B : Type} (m : M unit) (k : unit -> M B) (w : World) :
  safe m -> state (bind m k) w = state (k tt) (state m w).
Proof. intro H. unfold state at 1. now rewrite bind_unit. Qed.

Lemma try_safe (m : M unit) (h : string -> M unit) (w : World) :
  safe m -> try_catch m h w = (Ok tt, state m w).
Proof. intro H. apply try_ok. now apply safe_unit. Qed.

Lemma replyToComment_calls cid msg iid w :
  w_calls (state (replyToComment cid msg iid) w)
  = w_calls w ++ [CallReplyToComment cid msg iid].
Proof.
  unfold replyToComment. rewrite state_bind_unit by apply safe_modify.
  match goal with
  | |- context [try_catch ?m ?h] =>
      assert (H : preserves (unchanged w_calls) (try_catch m h))
  end.
  { unfold_helpers.
    walk (unchanged_refl w_calls) (unchanged_trans w_calls)
         ltac:(walk_leaf ltac:(reflexivity)). }
  rewrite H. reflexivity.
Qed.

Lemma sendDirectMessage_calls iid rid msg w :
  w_calls (state (sendDirectMessage iid rid msg) w)
  = w_calls w ++ [CallSendDirectMessage iid rid msg].
Proof.
  unfold sendDirectMessage. rewrite state_bind_unit by apply safe_modify.
  match goal with
  | |- context [try_catch ?m ?h] =>
      assert (H : preserves (unchanged w_calls) (try_catch m h))
  end.
  { unfold_helpers.
    walk (unchanged_refl w_calls) (unchanged_trans w_calls)
         ltac:(walk_leaf ltac:(reflexivity)). }
  rewrite H. reflexivity.
Qed.

Lemma forOfBreak_first_match (text : string) (body : Doc Automation -> M bool)
    (call : Doc Automation -> DispatchCall) :
  (forall a, hasKeyword text a = true -> fired (call a) (body a)) ->
  (forall a, hasKeyword text a = false -> body a = ret false) ->
  forall l w,
    result (forOfBreak l body) w = Ok tt /\
    w_calls (state (forOfBreak l body) w)
    = w_calls w ++ match find (hasKeyword text) l with
                   | Some a => [call a]
                   | None => []
                   end.
Proof.
  intros Hyes Hno. induction l as [|a rest IH]; intro w; simpl.
  - split; [reflexivity |]. unfold state, ret. simpl. now rewrite app_nil_r.
  - destruct (hasKeyword text a) eqn:E.
    + destruct (Hyes a E w) as [Hr Hc].
      unfold result, state. rewrite (bind_ok _ _ _ _ Hr). simpl.
      split; [reflexivity | exact Hc].
    + rewrite (Hno a E). unfold result, state, bind, ret. simpl. apply IH.
Qed.

Lemma preserved {A B : Type} (proj : World -> B) (m : M A) (w : World) :
  preserves (unchanged proj) m -> proj (state m w) = proj w.
Proof. intro H. apply H. Qed.

Ltac quiet :=
  first [ apply logEvent_ignores | apply logAutomationTrigger_ignores
        | walk_leaf ltac:(reflexivity) ]; ignore_all.

(** After the dispatcher has answered [r], the rest of a turn is safe,
    answers [true] and makes no further call. *)
Ltac rest_of_turn r :=
  split;
  [ unfold result; rewrite ?bind_unit by apply logEvent_safe;
    destruct (success r);
    [ rewrite bind_unit; [reflexivity |];
      repeat first [ apply logAutomationTrigger_safe
                   | apply safe_bind; [| intro]
                   | apply safe_gets | apply safe_modify ]
    | reflexivity ]
  | match goal with
    | |- w_calls (snd (?m ?w2)) = _ =>
        let Hq := fresh "Hq" in
        assert (Hq : preserves (unchanged w_calls) m);
        [ unfold_helpers;
          walk (unchanged_refl w_calls) (unchanged_trans w_calls) quiet
        | change (snd (m w2)) with (state m w2); rewrite (preserved _ _ _ Hq) ]
    end ].

Lemma render_commentTurn_fired iid d t a :
  hasKeyword t a = true ->
  fired (replyCall iid d a) (Render.commentTurn iid d t a).
Proof.
  intros Ha w. unfold Render.commentTurn. rewrite Ha.
  destruct (replyToComment_safe (cmt_commentId (fields d))
              (auto_replyMessage (fields a)) iid w) as [r Hr].
  unfold result, state. rewrite (bind_ok _ _ _ _ Hr).
  rest_of_turn r. apply replyToComment_calls.
Qed.

Lemma processor_commentTurn_fired iid d t a :
  hasKeyword t a = true ->
  fired (replyCall iid d a) (Processor.commentTurn iid d t a).
Proof.
  intros Ha w. unfold Processor.commentTurn. rewrite Ha.
  destruct (replyToComment_safe (cmt_commentId (fields d))
              (auto_replyMessage (fields a)) iid w) as [r Hr].
  unfold result, state. rewrite (bind_ok _ _ _ _ Hr).
  rest_of_turn r. apply replyToComment_calls.
Qed.

Lemma render_messageTurn_fired iid d t a :
  hasKeyword t a = true ->
  fired (messageCall iid d a) (Render.messageTurn iid d t a).
Proof.
  intros Ha w. unfold Render.messageTurn. rewrite Ha.
  destruct (sendDirectMessage_safe iid (msg_senderId (fields d))
              (auto_replyMessage (fields a)) w) as [r Hr].
  unfold result, state. rewrite (bind_ok _ _ _ _ Hr).
  rest_of_turn r. apply sendDirectMessage_calls.
Qed.

Lemma processor_messageTurn_fired iid d t a :
  hasKeyword t a = true ->
  fired (messageCall iid d a) (Processor.messageTurn iid d t a).
Proof.
  intros Ha w. unfold Processor.messageTurn. rewrite Ha.
  destruct (sendDirectMessage_safe iid (msg_senderId (fields d))
              (auto_replyMessage (fields a)) w) as [r Hr].
  unfold result, state. rewrite (bind_ok _ _ _ _ Hr).
  rest_of_turn r. apply sendDirectMessage_calls.
Qed.

Lemma matcher_calls (type text : string) (iid : option string)
    (empty : M unit) (turn : Doc Automation -> M bool)
    (call : Doc Automation -> DispatchCall) (h : string -> M unit) :
  (forall a, hasKeyword (Js.toLowerCase text) a = true -> fired (call a) (turn a)) ->
  (forall a, hasKeyword (Js.toLowerCase text) a = false -> turn a = ret false) ->
  safe empty -> preserves (unchanged w_calls) empty ->
  forall w,
    result (try_catch
              (automations <- findAutomations iid type ;;
               if Nat.eqb (length automations) 0 then empty
               else forOfBreak automations turn) h) w = Ok tt /\
    w_calls (state (try_catch
              (automations <- findAutomations iid type ;;
               if Nat.eqb (length automations) 0 then empty
               else forOfBreak automations turn) h) w)
    = w_calls w ++ callsFor call text (loaded w iid type).
Proof.
  intros Hyes Hno Hsafe Hquiet w.
  pose proof (forOfBreak_first_match _ turn call Hyes Hno) as Hloop.
  assert (Hbody : safe (automations <- findAutomations iid type ;;
                        if Nat.eqb (length automations) 0 then empty
                        else forOfBreak automations turn)).
  { apply safe_bind; [apply safe_gets | intro l].
    destruct (Nat.eqb (length l) 0); [exact Hsafe |].
    intro w0. exists tt. apply Hloop. }
  unfold result, state. rewrite (try_safe _ _ w Hbody). simpl.
  split; [reflexivity |].
  unfold state, bind, findAutomations, gets. simpl.
  fold (loaded w iid type). unfold callsFor, firstMatch.
  destruct (loaded w iid type) as [|a0 l0].
  - simpl. rewrite app_nil_r. apply (preserved w_calls empty w Hquiet).
  - change (Nat.eqb (length (a0 :: l0)) 0) with false. cbv iota.
    apply (proj2 (Hloop (a0 :: l0) w)).
Qed.

Lemma render_processCommentAutomation_calls iid d w :
  w_calls (state (Render.processCommentAutomation iid d) w)
  = w_calls w ++ callsFor (replyCall iid d) (cmt_text (fields d))
                          (loaded w iid "comment").
Proof.
  unfold Render.processCommentAutomation. apply matcher_calls.
  - intros a Ha. now apply render_commentTurn_fired.
  - intros a Ha. unfold Render.commentTurn. now rewrite Ha.
  - apply logEvent_safe.
  - apply logEvent_ignores; ignore_all.
Qed.

Lemma render_processMessageAutomation_calls iid d w :
  w_calls (state (Render.processMessageAutomation iid d) w)
  = w_calls w ++ callsFor (messageCall iid d) (msg_text (fields d))
                          (loaded w iid "message").
Proof.
  unfold Render.processMessageAutomation. apply matcher_calls.
  - intros a Ha. now apply render_messageTurn_fired.
  - intros a Ha. unfold Render.messageTurn. now rewrite Ha.
  - apply logEvent_safe.
  - apply logEvent_ignores; ignore_all.
Qed.

Lemma processor_processCommentAutomation_calls iid d w :
  w_calls (state (Processor.processCommentAutomation iid d) w)
  = w_calls w ++ callsFor (replyCall iid d) (cmt_text (fields d))
                          (loaded w iid "comment").
Proof.
  unfold Processor.processCommentAutomation. apply matcher_calls.
  - intros a Ha. now apply processor_commentTurn_fired.
  - intros a Ha. unfold Processor.commentTurn. now rewrite Ha.
  - apply safe_ret.
  - apply (preserves_ret _ (unchanged_refl w_calls)).
Qed.

Lemma processor_processMessageAutomation_calls iid d w :
  w_calls (state (Processor.processMessageAutomation iid d) w)
  = w_calls w ++ callsFor (messageCall iid d) (msg_text (fields d))
                          (loaded w iid "message").
Proof.
  unfold Processor.processMessageAutomation. apply matcher_calls.
  - intros a Ha. now apply processor_messageTurn_fired.
  - intros a Ha. unfold Processor.messageTurn. now rewrite Ha.
  - apply safe_ret.
  - apply (preserves_ret _ (unchanged_refl w_calls)).
Qed.

(* ================================================================== *)
(** ** Keywords: [includes] is the substring test *)

Lemma startsWith_spec s p :
  Js.startsWith s p = true <-> exists post, s = (p ++ post)%string.
Proof.
  revert s. induction p as [|a p IH]; intro s; simpl.
  - split; [intros _; now exists s | now destruct s].
  - destruct s as [|b s]; simpl.
    + split; [discriminate | intros [post H]; discriminate].
    + rewrite andb_true_iff, Ascii.eqb_eq, IH. split.
      * intros [-> [post ->]]. now exists post.
      * intros [post H]. injection H as -> ->. split; [reflexivity | now exists post].
Qed.

Lemma includes_eq s sub :
  Js.includes s sub
  = if Js.startsWith s sub then true
    else match s with
         | EmptyString => false
         | String _ s' => Js.includes s' sub
         end.
Proof. destruct s; reflexivity. Qed.

Lemma includes_spec s sub : Js.includes s sub = true <-> isSubstring sub s.
Proof.
  split.
  - induction s as [|c s IH]; rewrite includes_eq;
      destruct (Js.startsWith _ sub) eqn:E.
    + intros _. apply startsWith_spec in E. destruct E as [post E].
      now exists ""%string, post.
    + discriminate.
    + intros _. apply startsWith_spec in E. destruct E as [post E].
      now exists ""%string, post.
    + intro H. destruct (IH H) as (pre & post & ->).
      now exists (String c pre), post.
  - intros (pre & post & ->). induction pre as [|c pre IH]; rewrite includes_eq.
    + assert (E : Js.startsWith (sub ++ post) sub = true).
      { apply startsWith_spec. now exists post. }
      simpl. now rewrite E.
    + change ((String c pre ++ sub ++ post)%string)
        with (String c (pre ++ sub ++ post)).
      match goal with |- (if ?b then _ else _) = _ => destruct b end;
        [reflexivity | exact IH].
Qed.

Lemma hasKeyword_matches text a :
  hasKeyword (Js.toLowerCase text) a = true <-> matches text a.
Proof.
  unfold hasKeyword, matches. fold (keywordsOf a). rewrite existsb_exists.
  split; intros (k & Hk & H); exists k; (split; [exact Hk |]);
    now apply includes_spec.
Qed.

Lemma hasKeyword_no_match text a :
  hasKeyword (Js.toLowerCase text) a = false <-> ~ matches text a.
Proof.
  rewrite <- hasKeyword_matches. now destruct (hasKeyword _ a).
Qed.

Lemma find_first {A : Type} (f : A -> bool) (l : list A) (a : A) :
  find f l = Some a ->
  exists before after,
    l = before ++ a :: after /\ f a = true /\ forall b, In b before -> f b = false.
Proof.
  induction l as [|x rest IH]; simpl; [discriminate |].
  destruct (f x) eqn:E.
  - intros [= ->]. exists [], rest. repeat split; [exact E | intros b []].
  - intro H. destruct (IH H) as (before & after & -> & Ha & Hb).
    exists (x :: before), after. repeat split; [exact Ha |].
    intros b [<- | Hin]; [exact E | now apply Hb].
Qed.

Lemma find_app_first {A : Type} (f : A -> bool) (before after : list A) (a : A) :
  f a = true -> (forall b, In b before -> f b = false) ->
  find f (before ++ a :: after) = Some a.
Proof.
  intros Ha Hb. induction before as [|x rest IH]; simpl.
  - now rewrite Ha.
  - rewrite (Hb x) by now left. apply IH. intros b Hin. apply Hb. now right.
Qed.

Lemma callsFor_firstMatchOnly call text automations :
  firstMatchOnly call text automations (callsFor call text automations).
Proof.
  unfold callsFor, firstMatch.
  destruct (find _ automations) as [a|] eqn:E.
  - left. exists a. split; [| reflexivity].
    destruct (find_first _ _ _ E) as (before & after & -> & Ha & Hb).
    exists before, after. split; [reflexivity |]. split.
    + now apply hasKeyword_matches.
    + intros b Hin. apply hasKeyword_no_match. now apply Hb.
  - right. split; [| reflexivity]. intros b Hin.
    apply hasKeyword_no_match. now apply (find_none _ _ E).
Qed.

(** C2. For every message or comment and every list of active automations
    loaded for its account and kind, the matcher invokes the dispatcher at
    most once, and then for the first automation in load order one of whose
    keywords, lowercased, is a substring of the lowercased text; when no
    automation matches there is no dispatch.  Automations after the first
    match are not looked at, whether they match or not.  This holds for
    [processMessageAutomation] and [processCommentAutomation] of both
    servers. *)
Theorem first_match_wins :
  forall (instagramId : option string) (messageData : Doc MessageData)
         (commentData : Doc CommentData) (w : World),
    (exists made,
        w_calls (state (Render.processMessageAutomation instagramId messageData) w)
        = w_calls w ++ made /\
        w_calls (state (Processor.processMessageAutomation instagramId messageData) w)
        = w_calls w ++ made /\
        (length made <= 1)%nat /\
        firstMatchOnly (messageCall instagramId messageData)
          (msg_text (fields messageData)) (loaded w instagramId "message") made) /\
    (exists made,
        w_calls (state (Render.processCommentAutomation instagramId commentData) w)
        = w_calls w ++ made /\
        w_calls (state (Processor.processCommentAutomation instagramId commentData) w)
        = w_calls w ++ made /\
        (length made <= 1)%nat /\
        firstMatchOnly (replyCall instagramId commentData)
          (cmt_text (fields commentData)) (loaded w instagramId "comment") made).
Proof.
  intros iid m c w. split.
  - exists (callsFor (messageCall iid m) (msg_text (fields m)) (loaded w iid "message")).
    split; [apply render_processMessageAutomation_calls |].
    split; [apply processor_processMessageAutomation_calls |]. split.
    + unfold callsFor. destruct (firstMatch _ _); simpl; lia.
    + apply callsFor_firstMatchOnly.
  - exists (callsFor (replyCall iid c) (cmt_text (fields c)) (loaded w iid "comment")).
    split; [apply render_processCommentAutomation_calls |].
    split; [apply processor_processCommentAutomation_calls |]. split.
    + unfold callsFor. destruct (firstMatch _ _); simpl; lia.
    + apply callsFor_firstMatchOnly.
Qed.

(* ================================================================== *)
(** ** A reply that fails *)

Lemma forOfBreak_stops_at_first (t : string) (turn : Doc Automation -> M bool)
    (l : list (Doc Automation)) (a : Doc Automation) (w : World) :
  (forall b, hasKeyword t b = false -> turn b = ret false) ->
  find (hasKeyword t) l = Some a ->
  result (turn a) w = Ok true ->
  forOfBreak l turn w = (Ok tt, state (turn a) w).
Proof.
  intros Hno Hf Hr. induction l as [|x rest IH]; simpl in *; [discriminate |].
  destruct (hasKeyword t x) eqn:E.
  - injection Hf as ->. now rewrite (bind_ok _ _ _ _ Hr).
  - rewrite (Hno x E). unfold bind, ret. simpl. now apply IH.
Qed.

Lemma matcher_state (type text : string) (iid : option string)
    (empty : M unit) (turn : Doc Automation -> M bool)
    (h : string -> M unit) (a : Doc Automation) (w : World) :
  (forall b, hasKeyword (Js.toLowerCase text) b = false -> turn b = ret false) ->
  firstMatch text (loaded w iid type) = Some a ->
  result (turn a) w = Ok true ->
  state (try_catch
           (automations <- findAutomations iid type ;;
            if Nat.eqb (length automations) 0 then empty
            else forOfBreak automations turn) h) w
  = state (turn a) w.
Proof.
  intros Hno Hf Hr. unfold firstMatch in Hf.
  unfold state at 1. unfold try_catch, bind, findAutomations, gets. simpl.
  fold (loaded w iid type).
  destruct (loaded w iid type) as [|a0 l0]; [discriminate |].
  change (Nat.eqb (length (a0 :: l0)) 0) with false. cbv iota.
  now rewrite (forOfBreak_stops_at_first _ _ _ _ _ Hno Hf Hr).
Qed.

(** C9. When the reply for the first matching automation of a comment
    fails, the comments of the store are exactly what they were (the
    comment keeps [isProcessed] false and gets no [error]) and no
    AutomationLog is inserted, in both servers. *)
Theorem failed_reply_leaves_comment_untouched :
  forall (instagramId : option string) (commentData : Doc CommentData)
         (w : World) (automation : Doc Automation) (error : ErrorDetail),
    firstMatch (cmt_text (fields commentData)) (loaded w instagramId "comment")
      = Some automation ->
    result (replyToComment (cmt_commentId (fields commentData))
              (auto_replyMessage (fields automation)) instagramId) w
      = Ok (Failed error) ->
    w_comments (state (Render.processCommentAutomation instagramId commentData) w)
      = w_comments w /\
    w_automation_logs (state (Render.processCommentAutomation instagramId commentData) w)
      = w_automation_logs w /\
    w_comments (state (Processor.processCommentAutomation instagramId commentData) w)
      = w_comments w /\
    w_automation_logs (state (Processor.processCommentAutomation instagramId commentData) w)
      = w_automation_logs w.
Proof.
  intros iid c w a e Hf Hr.
  assert (Ha : hasKeyword (Js.toLowerCase (cmt_text (fields c))) a = true).
  { unfold firstMatch in Hf. now apply find_some in Hf. }
  set (text := Js.toLowerCase (cmt_text (fields c))) in *.
  set (reply := replyToComment (cmt_commentId (fields c))
                  (auto_replyMessage (fields a)) iid) in *.
  set (note := Render.logEvent "comment_automation_triggered"
                 (LdTriggered (auto_name (fields a)) (cmt_text (fields c))
                    (auto_replyMessage (fields a)) false) true None).
  assert (Hrender : Render.commentTurn iid c text a w
                    = (Ok true, state note (state reply w))).
  { unfold Render.commentTurn. rewrite Ha. fold reply.
    rewrite (bind_ok _ _ _ _ Hr). simpl success.
    rewrite bind_unit by apply logEvent_safe. reflexivity. }
  assert (Hprocessor : Processor.commentTurn iid c text a w
                       = (Ok true, state reply w)).
  { unfold Processor.commentTurn. rewrite Ha. fold reply.
    now rewrite (bind_ok _ _ _ _ Hr). }
  assert (H1 : state (Render.processCommentAutomation iid c) w
               = state note (state reply w)).
  { unfold Render.processCommentAutomation.
    rewrite (matcher_state "comment" (cmt_text (fields c)) iid _ _ _ a w).
    - unfold state at 1. fold text. now rewrite Hrender.
    - intros b Hb. unfold Render.commentTurn. now rewrite Hb.
    - exact Hf.
    - unfold result. fold text. now rewrite Hrender. }
  assert (H2 : state (Processor.processCommentAutomation iid c) w
               = state reply w).
  { unfold Processor.processCommentAutomation.
    rewrite (matcher_state "comment" (cmt_text (fields c)) iid _ _ _ a w).
    - unfold state at 1. fold text. now rewrite Hprocessor.
    - intros b Hb. unfold Processor.commentTurn. now rewrite Hb.
    - exact Hf.
    - unfold result. fold text. now rewrite Hprocessor. }
  rewrite H1, H2. unfold note, reply.
  rewrite !(preserved _ (Render.logEvent _ _ _ _))
    by (apply logEvent_ignores; ignore_all).
  rewrite !(preserved _ (replyToComment _ _ _))
    by (apply replyToComment_ignores; ignore_all).
  repeat split.
Qed.

Lemma failed_reply_leaves_comment_untouched_witness :
  w_comments (state (Render.processCommentAutomation (Some "ig1"%string)
                       (Scenario.storedComment "c2" "price??")) Scenario.rejecting)
    = [Scenario.storedComment "c2" "price??"] /\
  w_automation_logs
    (state (Processor.processCommentAutomation (Some "ig1"%string)
              (Scenario.storedComment "c2" "price??")) Scenario.rejecting)
    = [].
Proof.
  destruct (failed_reply_leaves_comment_untouched (Some "ig1"%string)
              (Scenario.storedComment "c2" "price??") Scenario.rejecting
              Scenario.priceOnComments
              (ErrBody (mkResponseData None "{error}")) eq_refl eq_refl)
    as (H1 & _ & _ & H4).
  split; [exact H1 | exact H4].
Defined.

(* ================================================================== *)
(** ** Envelopes that are not Instagram webhooks *)

Lemma not_instagram (webhookData : Envelope) :
  env_object webhookData <> Some "instagram"%string \/
  env_entry webhookData = EntriesAbsent ->
  isInstagram webhookData = false.
Proof.
  unfold isInstagram. intros [H | ->].
  - destruct (env_object webhookData) as [o|]; simpl; [| reflexivity].
    destruct (String.eqb_spec o "instagram"); [| reflexivity].
    subst. now contradiction H.
  - apply andb_false_r.
Qed.

Lemma render_authorized (req : Request) (next : M HttpReply) (w : World) :
  req_authorization req = Some ("Bearer " ++ w_secret w)%string ->
  Render.verifyAuth req next w = next w.
Proof.
  intro H. unfold Render.verifyAuth. rewrite H. simpl.
  replace (Js.startsWith (w_secret w) "") with true
    by now destruct (w_secret w).
  unfold bind, gets. simpl. now rewrite String.eqb_refl.
Qed.

Lemma render_rejects_invalid_envelope (req : Request) (w : World) :
  req_authorization req = Some ("Bearer " ++ w_secret w)%string ->
  env_object (req_body req) <> Some "instagram"%string \/
  env_entry (req_body req) = EntriesAbsent ->
  Render.webhook_process req w
  = (Ok (mkHttpReply 400 (RError "Invalid webhook format")), w).
Proof.
  intros Hauth Hbad. unfold Render.webhook_process.
  rewrite (render_authorized _ _ _ Hauth).
  unfold try_catch. now rewrite (not_instagram _ Hbad).
Qed.

Lemma processor_accepts_invalid_envelope (req : Request) (w : World) :
  req_authorization req = Some ("Bearer " ++ w_secret w)%string ->
  env_object (req_body req) <> Some "instagram"%string \/
  env_entry (req_body req) = EntriesAbsent ->
  Processor.process_webhook req w
  = (Ok (mkHttpReply 200 (RSuccess "Webhook processed successfully")),
     set_webhook_logs
       (updateFirst (Processor.logOfEntry (Processor.firstEntryId (req_body req)))
          (Processor.setStarted (w_now w)) (w_webhook_logs w)) w).
Proof.
  intros Hauth Hbad. unfold Processor.process_webhook.
  unfold try_catch at 1. unfold bind at 1. unfold gets at 1.
  rewrite Hauth. unfold Js.optEq, Js.truthy. rewrite String.eqb_refl.
  rewrite (not_instagram _ Hbad). reflexivity.
Qed.

(** C8, as stated, fails for the processor: an authorized envelope whose
    [object] is "page" is answered 200 and a stored webhook log, the first
    whose first entry has the id of the first entry of the request, is
    rewritten. *)
Lemma processor_answers_200_to_page_envelope :
  env_object Scenario.pageEnvelope <> Some "instagram"%string /\
  result (Processor.process_webhook (Scenario.authorized Scenario.pageEnvelope))
         Scenario.processorWorld
    = Ok (mkHttpReply 200 (RSuccess "Webhook processed successfully")) /\
  w_webhook_logs
    (state (Processor.process_webhook (Scenario.authorized Scenario.pageEnvelope))
           Scenario.processorWorld)
    <> w_webhook_logs Scenario.processorWorld.
Proof.
  split; [discriminate |]. split; [reflexivity |].
  vm_compute. discriminate.
Qed.

(** C8 (amended). For an authorized envelope whose [object] is not
    "instagram" or whose [entry] is missing, [POST /webhook/process] of the
    render server answers 400 and leaves the whole store as it was;
    [POST /process-webhook] of the processor inserts no event record and
    dispatches nothing either, but it answers 200 with [success] and it
    first rewrites at most one stored webhook log: the first one, in
    stored order, whose first entry has the id of the first entry of the
    request is marked as processed.  That log may be the one of another
    webhook of the same account; when no stored log has that id, none is
    rewritten. *)
Theorem invalid_envelope_is_not_ingested :
  forall (req : Request) (w : World),
    req_authorization req = Some ("Bearer " ++ w_secret w)%string ->
    env_object (req_body req) <> Some "instagram"%string \/
    env_entry (req_body req) = EntriesAbsent ->
    (result (Render.webhook_process req) w
       = Ok (mkHttpReply 400 (RError "Invalid webhook format")) /\
     state (Render.webhook_process req) w = w) /\
    (result (Processor.process_webhook req) w
       = Ok (mkHttpReply 200 (RSuccess "Webhook processed successfully")) /\
     w_messages (state (Processor.process_webhook req) w) = w_messages w /\
     w_comments (state (Processor.process_webhook req) w) = w_comments w /\
     w_automation_logs (state (Processor.process_webhook req) w)
       = w_automation_logs w /\
     w_calls (state (Processor.process_webhook req) w) = w_calls w /\
     w_http (state (Processor.process_webhook req) w) = w_http w /\
     w_webhook_logs (state (Processor.process_webhook req) w)
       = updateFirst (Processor.logOfEntry (Processor.firstEntryId (req_body req)))
           (Processor.setStarted (w_now w)) (w_webhook_logs w)).
Proof.
  intros req w Hauth Hbad. unfold result, state.
  rewrite (render_rejects_invalid_envelope _ _ Hauth Hbad).
  rewrite (processor_accepts_invalid_envelope _ _ Hauth Hbad).
  simpl. repeat split.
Qed.

Lemma invalid_envelope_is_not_ingested_witness :
  result (Render.webhook_process (Scenario.authorized Scenario.pageEnvelope))
         Scenario.liveAndPending
    = Ok (mkHttpReply 400 (RError "Invalid webhook format")) /\
  state (Render.webhook_process (Scenario.authorized Scenario.pageEnvelope))
        Scenario.liveAndPending
    = Scenario.liveAndPending.
Proof.
  apply (invalid_envelope_is_not_ingested
           (Scenario.authorized Scenario.pageEnvelope) Scenario.liveAndPending).
  - reflexivity.
  - left. discriminate.
Defined.

(* ================================================================== *)
(** ** Ingestion: what the handlers store and dispatch *)

Lemma bind_gets {A B : Type} (f : World -> A) (k : A -> M B) (w : World) :
  bind (gets f) k w = k (f w) w.
Proof. reflexivity. Qed.

Lemma bind_insertOne {A B : Type} get set (d : A) (k : ObjectId -> M B) (w : World) :
  bind (insertOne get set d) k w = k (w_nextId w) (state (insertOne get set d) w).
Proof. reflexivity. Qed.

Lemma render_handleMessage_skip iid item w :
  storesMessage item = false -> Render.handleMessage iid item w = (Ok tt, w).
Proof.
  unfold storesMessage, Render.handleMessage, try_catch.
  destruct (mi_message item) as [p|]; [| reflexivity].
  destruct (mp_is_echo p) as [[|]|]; [reflexivity | discriminate | discriminate].
Qed.

Lemma render_handleMessage_store iid item p w :
  mi_message item = Some p -> storesMessage item = true ->
  let d := buildMessageData iid item p (w_now w) in
  let w1 := state (insertOne w_messages set_messages d) w in
  let w2 := state (Render.logEvent "message_stored"
                     (LdMessageStored (w_nextId w) (msg_text d)) true None) w1 in
  Render.handleMessage iid item w
  = (Ok tt,
     if negb (String.eqb (msg_text d) EmptyString)
     then state (Render.processMessageAutomation iid (mkDoc (w_nextId w) d)) w2
     else w2).
Proof.
  intros Hm Hs d w1 w2. unfold storesMessage in Hs. rewrite Hm in Hs.
  unfold Render.handleMessage. rewrite Hm.
  assert (E : forall k1 k2 : M unit,
             match mp_is_echo p with
             | Some true => k1
             | _ => k2
             end = k2).
  { intros. destruct (mp_is_echo p) as [[|]|]; [discriminate | |]; reflexivity. }
  rewrite E. unfold try_catch, dateNow.
  rewrite bind_gets, bind_insertOne.
  rewrite bind_unit by apply logEvent_safe.
  fold d w1 w2.
  destruct (negb (String.eqb (msg_text d) EmptyString)).
  - now rewrite (run_safe _ w2 (render_processMessageAutomation_safe _ _)).
  - reflexivity.
Qed.

Lemma render_handleComment_none iid w :
  Render.handleComment iid None w
  = (Ok tt,
     state (Render.logEvent "comment_handling_error"
              (LdCommentError None
                 "Cannot read properties of undefined (reading 'id')")
              false
              (Some "Cannot read properties of undefined (reading 'id')"%string)) w).
Proof.
  unfold Render.handleComment, try_catch, throw.
  now rewrite (run_safe _ w (logEvent_safe _ _ _ _)).
Qed.

Lemma render_handleComment_store iid v w :
  let d := buildCommentData iid v (w_now w) in
  let w1 := state (insertOne w_comments set_comments d) w in
  let w2 := state (Render.logEvent "comment_stored"
                     (LdCommentStored (w_nextId w) (cmt_text d) (cmt_username d))
                     true None) w1 in
  Render.handleComment iid (Some v) w
  = (Ok tt,
     if negb (String.eqb (cmt_text d) EmptyString)
     then state (Render.processCommentAutomation iid (mkDoc (w_nextId w) d)) w2
     else w2).
Proof.
  intros d w1 w2. unfold Render.handleComment, try_catch, dateNow.
  rewrite bind_gets, bind_insertOne.
  rewrite bind_unit by apply logEvent_safe.
  fold d w1 w2.
  destruct (negb (String.eqb (cmt_text d) EmptyString)).
  - now rewrite (run_safe _ w2 (render_processCommentAutomation_safe _ _)).
  - reflexivity.
Qed.

Lemma forOf_calls {A : Type} (f : A -> M unit)
    (F : list (Doc Automation) -> Time -> A -> list DispatchCall) :
  (forall x, safe (f x)) ->
  (forall x, preserves (unchanged w_automations) (f x)) ->
  (forall x, preserves (unchanged w_now) (f x)) ->
  (forall x w, w_calls (state (f x) w)
               = w_calls w ++ F (w_automations w) (w_now w) x) ->
  forall l w,
    w_calls (state (forOf l f) w)
    = w_calls w ++ flat_map (F (w_automations w) (w_now w)) l.
Proof.
  intros Hs Ha Hn Hc. induction l as [|x rest IH]; intro w; simpl.
  - unfold state, ret. simpl. now rewrite app_nil_r.
  - rewrite state_bind_unit by apply Hs.
    rewrite IH, Hc, (Ha x w), (Hn x w). now rewrite app_assoc.
Qed.

Lemma forOf_measure {A : Type} (mu : World -> nat) (f : A -> M unit)
    (count : A -> nat) :
  (forall x, safe (f x)) ->
  (forall x w, mu (state (f x) w) = mu w + count x) ->
  forall l w, mu (state (forOf l f) w) = mu w + list_sum (map count l).
Proof.
  intros Hs Hc. induction l as [|x rest IH]; intro w; simpl.
  - unfold state, ret. simpl. lia.
  - rewrite state_bind_unit by apply Hs. rewrite IH, Hc. lia.
Qed.

Lemma list_sum_filter {A : Type} (f : A -> bool) (l : list A) :
  list_sum (map (fun x => if f x then 1 else 0) l) = length (filter f l).
Proof.
  induction l as [|x rest IH]; simpl; [reflexivity |].
  destruct (f x); simpl; now rewrite IH.
Qed.

Lemma updateFirst_length {A : Type} (sel : Doc A -> bool) (f : A -> A) l :
  length (updateFirst sel f l) = length l.
Proof.
  induction l as [|d rest IH]; simpl; [reflexivity |].
  destruct (sel d); simpl; now rewrite ?IH.
Qed.

(** The matcher may rewrite a comment, it never adds or removes one. *)
Lemma render_processCommentAutomation_length iid d :
  preserves (unchanged (fun w => length (w_comments w)))
            (Render.processCommentAutomation iid d).
Proof.
  unfold Render.processCommentAutomation; unfold_helpers.
  walk (unchanged_refl (fun w => length (w_comments w)))
       (unchanged_trans (fun w => length (w_comments w)))
       ltac:(first
         [ first [ apply logEvent_ignores | apply logAutomationTrigger_ignores
                 | apply replyToComment_ignores ]; ignore_all
         | walk_leaf ltac:(unfold unchanged; simpl;
                           rewrite ?updateFirst_length; reflexivity) ]).
Qed.

(** *** [handleMessage] *)

Lemma render_handleMessage_calls iid item w :
  w_calls (state (Render.handleMessage iid item) w)
  = w_calls w ++ messageCallsOf (w_automations w) (w_now w) iid item.
Proof.
  unfold messageCallsOf.
  destruct (storesMessage item) eqn:Hs.
  - unfold storesMessage in Hs.
    destruct (mi_message item) as [p|] eqn:Hm; [| discriminate].
    assert (Hs' : storesMessage item = true) by (unfold storesMessage; now rewrite Hm).
    unfold state at 1. rewrite (render_handleMessage_store iid item p w Hm Hs').
    cbv zeta. simpl snd.
    destruct (mp_is_echo p) as [[|]|]; [discriminate | |];
      (destruct (String.eqb _ EmptyString); simpl negb; cbv iota;
       [ rewrite (preserved w_calls (Render.logEvent _ _ _ _))
           by (apply logEvent_ignores; ignore_all);
         rewrite state_insertOne; simpl; now rewrite app_nil_r
       | rewrite render_processMessageAutomation_calls;
         rewrite (preserved w_calls (Render.logEvent _ _ _ _))
           by (apply logEvent_ignores; ignore_all);
         unfold loaded;
         rewrite (preserved w_automations (Render.logEvent _ _ _ _))
           by (apply logEvent_ignores; ignore_all);
         rewrite state_insertOne; reflexivity ]).
  - unfold state. rewrite (render_handleMessage_skip _ _ _ Hs). simpl.
    unfold storesMessage in Hs.
    destruct (mi_message item) as [p|]; [| now rewrite app_nil_r].
    destruct (mp_is_echo p) as [[|]|]; [now rewrite app_nil_r | |]; discriminate.
Qed.

Lemma render_handleMessage_count iid item w :
  length (w_messages (state (Render.handleMessage iid item) w))
  = length (w_messages w) + (if storesMessage item then 1 else 0).
Proof.
  destruct (storesMessage item) eqn:Hs.
  - pose proof Hs as Hs'. unfold storesMessage in Hs.
    destruct (mi_message item) as [p|] eqn:Hm; [| discriminate].
    unfold state at 1. rewrite (render_handleMessage_store iid item p w Hm Hs').
    cbv zeta. simpl snd.
    destruct (negb _);
      rewrite ?(preserved w_messages (Render.processMessageAutomation _ _))
        by (apply render_processMessageAutomation_ignores; ignore_all);
      rewrite (preserved w_messages (Render.logEvent _ _ _ _))
        by (apply logEvent_ignores; ignore_all);
      rewrite state_insertOne; simpl; now rewrite length_app.
  - unfold state. rewrite (render_handleMessage_skip _ _ _ Hs). simpl. lia.
Qed.

(** *** [handleComment] *)

Lemma render_handleComment_calls iid v w :
  w_calls (state (Render.handleComment iid v) w)
  = w_calls w ++ commentCallsOf (w_automations w) (w_now w) iid v.
Proof.
  unfold commentCallsOf. destruct v as [v|].
  - unfold state at 1. rewrite render_handleComment_store. cbv zeta. simpl snd.
    destruct (String.eqb _ EmptyString); simpl negb; cbv iota.
    + rewrite (preserved w_calls (Render.logEvent _ _ _ _))
        by (apply logEvent_ignores; ignore_all).
      rewrite state_insertOne. simpl. now rewrite app_nil_r.
    + rewrite render_processCommentAutomation_calls.
      rewrite (preserved w_calls (Render.logEvent _ _ _ _))
        by (apply logEvent_ignores; ignore_all).
      unfold loaded.
      rewrite (preserved w_automations (Render.logEvent _ _ _ _))
        by (apply logEvent_ignores; ignore_all).
      rewrite state_insertOne. reflexivity.
  - unfold state at 1. rewrite render_handleComment_none. simpl snd.
    rewrite (preserved w_calls (Render.logEvent _ _ _ _))
      by (apply logEvent_ignores; ignore_all).
    now rewrite app_nil_r.
Qed.

Lemma render_handleComment_count iid v w :
  length (w_comments (state (Render.handleComment iid v) w))
  = length (w_comments w) + (if Js.isSome v then 1 else 0).
Proof.
  destruct v as [v|]; simpl Js.isSome; cbv iota.
  - unfold state at 1. rewrite render_handleComment_store. cbv zeta. simpl snd.
    destruct (negb _);
      rewrite ?(preserved (fun w => length (w_comments w))
                  (Render.processCommentAutomation _ _))
        by apply render_processCommentAutomation_length;
      rewrite (preserved (fun w => length (w_comments w)) (Render.logEvent _ _ _ _))
        by (apply logEvent_ignores; ignore_all);
      rewrite state_insertOne; simpl; now rewrite length_app.
  - unfold state at 1. rewrite render_handleComment_none. simpl snd.
    rewrite (preserved w_comments (Render.logEvent _ _ _ _))
      by (apply logEvent_ignores; ignore_all).
    lia.
Qed.

(** *** One change, one entry *)

Lemma handleChange_safe iid change : safe (Render.handleChange iid change).
Proof.
  unfold Render.handleChange. destruct (isCommentField _);
    [apply render_handleComment_safe | apply safe_ret].
Qed.

Lemma handleChange_calls iid change w :
  w_calls (state (Render.handleChange iid change) w)
  = w_calls w ++ changeCallsOf (w_automations w) (w_now w) iid change.
Proof.
  unfold Render.handleChange, changeCallsOf. destruct (isCommentField _).
  - apply render_handleComment_calls.
  - unfold state, ret. simpl. now rewrite app_nil_r.
Qed.

Lemma handleChange_count iid change w :
  length (w_comments (state (Render.handleChange iid change) w))
  = length (w_comments w) + (if storesComment change then 1 else 0).
Proof.
  unfold Render.handleChange, storesComment. destruct (isCommentField _); simpl andb.
  - apply render_handleComment_count.
  - unfold state, ret. simpl. lia.
Qed.

Lemma handleChange_ignores {B : Type} (proj : World -> B) iid change :
  ignores proj set_calls -> ignores proj set_http -> ignores proj set_nextId ->
  ignores proj set_webhook_logs -> ignores proj set_automation_logs ->
  ignores proj set_comments ->
  preserves (unchanged proj) (Render.handleChange iid change).
Proof.
  intros. unfold Render.handleChange. destruct (isCommentField _).
  - now apply render_handleComment_ignores.
  - apply (preserves_ret _ (unchanged_refl proj)).
Qed.

Lemma forOf_ignores {A B : Type} (proj : World -> B) (f : A -> M unit) l :
  (forall x, preserves (unchanged proj) (f x)) ->
  preserves (unchanged proj) (forOf l f).
Proof.
  intro H. apply (preserves_forOf _ (unchanged_refl proj) (unchanged_trans proj)).
  intros x _. apply H.
Qed.

Lemma eachMessage_safe iid o : safe (eachMessage iid o).
Proof.
  destruct o; [| apply safe_ret]. apply safe_forOf, render_handleMessage_safe.
Qed.

Lemma eachChange_safe iid o : safe (eachChange iid o).
Proof.
  destruct o; [| apply safe_ret]. apply safe_forOf, handleChange_safe.
Qed.

Lemma eachMessage_ignores {B : Type} (proj : World -> B) iid o :
  ignores proj set_calls -> ignores proj set_http -> ignores proj set_nextId ->
  ignores proj set_webhook_logs -> ignores proj set_automation_logs ->
  ignores proj set_messages ->
  preserves (unchanged proj) (eachMessage iid o).
Proof.
  intros. destruct o; [| apply (preserves_ret _ (unchanged_refl proj))].
  apply forOf_ignores. intro. now apply render_handleMessage_ignores.
Qed.

Lemma eachChange_ignores {B : Type} (proj : World -> B) iid o :
  ignores proj set_calls -> ignores proj set_http -> ignores proj set_nextId ->
  ignores proj set_webhook_logs -> ignores proj set_automation_logs ->
  ignores proj set_comments ->
  preserves (unchanged proj) (eachChange iid o).
Proof.
  intros. destruct o; [| apply (preserves_ret _ (unchanged_refl proj))].
  apply forOf_ignores. intro. now apply handleChange_ignores.
Qed.

Lemma eachMessage_calls iid o w :
  w_calls (state (eachMessage iid o) w)
  = w_calls w ++ match o with
                 | Some l => flat_map (messageCallsOf (w_automations w) (w_now w) iid) l
                 | None => []
                 end.
Proof.
  destruct o as [l|]; simpl.
  - apply (forOf_calls (Render.handleMessage iid)
             (fun a n => messageCallsOf a n iid)).
    + apply render_handleMessage_safe.
    + intro. apply render_handleMessage_ignores; ignore_all.
    + intro. apply render_handleMessage_ignores; ignore_all.
    + intros. apply render_handleMessage_calls.
  - unfold state, ret. simpl. now rewrite app_nil_r.
Qed.

Lemma eachChange_calls iid o w :
  w_calls (state (eachChange iid o) w)
  = w_calls w ++ match o with
                 | Some l => flat_map (changeCallsOf (w_automations w) (w_now w) iid) l
                 | None => []
                 end.
Proof.
  destruct o as [l|]; simpl.
  - apply (forOf_calls (Render.handleChange iid)
             (fun a n => changeCallsOf a n iid)).
    + apply handleChange_safe.
    + intro. apply handleChange_ignores; ignore_all.
    + intro. apply handleChange_ignores; ignore_all.
    + intros. apply handleChange_calls.
  - unfold state, ret. simpl. now rewrite app_nil_r.
Qed.

Lemma eachMessage_count iid o w :
  length (w_messages (state (eachMessage iid o) w))
  = length (w_messages w) + match o with
                            | Some l => length (filter storesMessage l)
                            | None => 0
                            end.
Proof.
  destruct o as [l|]; simpl.
  - rewrite <- list_sum_filter.
    apply (forOf_measure (fun w => length (w_messages w))).
    + apply render_handleMessage_safe.
    + intros. apply render_handleMessage_count.
  - unfold state, ret. simpl. lia.
Qed.

Lemma eachChange_count iid o w :
  length (w_comments (state (eachChange iid o) w))
  = length (w_comments w) + match o with
                            | Some l => length (filter storesComment l)
                            | None => 0
                            end.
Proof.
  destruct o as [l|]; simpl.
  - rewrite <- list_sum_filter.
    apply (forOf_measure (fun w => length (w_comments w))).
    + apply handleChange_safe.
    + intros. apply handleChange_count.
  - unfold state, ret. simpl. lia.
Qed.

Lemma render_processEntry_run entry w :
  Render.processEntry entry w
  = (Ok tt,
     state (eachChange (en_id entry) (en_changes entry))
           (state (eachMessage (en_id entry) (en_messaging entry)) w)).
Proof.
  unfold Render.processEntry.
  fold (eachMessage (en_id entry) (en_messaging entry)).
  fold (eachChange (en_id entry) (en_changes entry)).
  rewrite try_safe.
  - now rewrite state_bind_unit by apply eachMessage_safe.
  - apply safe_bind; [apply eachMessage_safe | intro; apply eachChange_safe].
Qed.

Lemma render_processEntry_calls entry w :
  w_calls (state (Render.processEntry entry) w)
  = w_calls w ++ entryCallsOf (w_automations w) (w_now w) entry.
Proof.
  unfold state at 1. rewrite render_processEntry_run. simpl snd.
  rewrite eachChange_calls, eachMessage_calls.
  rewrite (preserved w_automations (eachMessage _ _))
    by (apply eachMessage_ignores; ignore_all).
  rewrite (preserved w_now (eachMessage _ _))
    by (apply eachMessage_ignores; ignore_all).
  unfold entryCallsOf. now rewrite app_assoc.
Qed.

Lemma render_processEntry_messages entry w :
  length (w_messages (state (Render.processEntry entry) w))
  = length (w_messages w) + storedMessagesOf entry.
Proof.
  unfold state at 1. rewrite render_processEntry_run. simpl snd.
  rewrite (preserved (fun w => length (w_messages w)) (eachChange _ _))
    by (apply eachChange_ignores; ignore_all).
  apply eachMessage_count.
Qed.

Lemma render_processEntry_comments entry w :
  length (w_comments (state (Render.processEntry entry) w))
  = length (w_comments w) + storedCommentsOf entry.
Proof.
  unfold state at 1. rewrite render_processEntry_run. simpl snd.
  rewrite eachChange_count.
  rewrite (preserved (fun w => length (w_comments w)) (eachMessage _ _))
    by (apply eachMessage_ignores; ignore_all).
  reflexivity.
Qed.

(* ================================================================== *)
(** ** The empty keyword *)

(** C10. An automation whose [triggerKeywords] contains the empty string
    passes the keyword test on every text.  So for every comment and every
    message with a non-empty text that the handlers store, when the
    automation is loaded and no automation before it matches, it is the one
    that fires: the dispatcher is invoked with its reply. *)
Theorem empty_keyword_always_matches :
  forall (a : Doc Automation) (keywords : list string),
    auto_triggerKeywords (fields a) = Some keywords ->
    In EmptyString keywords ->
    (forall text, hasKeyword (Js.toLowerCase text) a = true) /\
    (forall instagramId value w before after,
        loaded w instagramId "comment" = before ++ a :: after ->
        Js.orDefault (cv_text value) EmptyString <> EmptyString ->
        (forall b, In b before ->
                   ~ matches (Js.orDefault (cv_text value) EmptyString) b) ->
        w_calls (state (Render.handleComment instagramId (Some value)) w)
        = w_calls w
          ++ [CallReplyToComment (commentIdOf value (w_now w))
                (auto_replyMessage (fields a)) instagramId]) /\
    (forall instagramId item payload w before after,
        loaded w instagramId "message" = before ++ a :: after ->
        mi_message item = Some payload ->
        storesMessage item = true ->
        Js.orDefault (mp_text payload) EmptyString <> EmptyString ->
        (forall b, In b before ->
                   ~ matches (Js.orDefault (mp_text payload) EmptyString) b) ->
        w_calls (state (Render.handleMessage instagramId item) w)
        = w_calls w
          ++ [CallSendDirectMessage instagramId (idOf (mi_sender item))
                (auto_replyMessage (fields a))]).
Proof.
  intros a kws Hk Hin.
  assert (Hall : forall text, hasKeyword (Js.toLowerCase text) a = true).
  { intro text. unfold hasKeyword. rewrite Hk. apply existsb_exists.
    exists EmptyString. split; [exact Hin |].
    simpl. now destruct (Js.toLowerCase text). }
  split; [exact Hall |]. split.
  - intros iid v w before after Hl Hne Hb.
    rewrite render_handleComment_calls. unfold commentCallsOf. simpl cmt_text.
    apply String.eqb_neq in Hne. rewrite Hne.
    unfold loaded in Hl. rewrite Hl. unfold callsFor, firstMatch.
    rewrite find_app_first; [reflexivity | apply Hall |].
    intros b Hi. apply hasKeyword_no_match. now apply Hb.
  - intros iid item p w before after Hl Hm Hs Hne Hb.
    rewrite render_handleMessage_calls. unfold messageCallsOf. rewrite Hm.
    unfold storesMessage in Hs. rewrite Hm in Hs.
    assert (E : forall k1 k2 : list DispatchCall,
               match mp_is_echo p with
               | Some true => k1
               | _ => k2
               end = k2).
    { intros. destruct (mp_is_echo p) as [[|]|]; [discriminate | |]; reflexivity. }
    rewrite E. simpl msg_text.
    apply String.eqb_neq in Hne. rewrite Hne.
    unfold loaded in Hl. rewrite Hl. unfold callsFor, firstMatch.
    rewrite find_app_first; [reflexivity | apply Hall |].
    intros b Hi. apply hasKeyword_no_match. now apply Hb.
Qed.

Lemma empty_keyword_always_matches_witness :
  hasKeyword (Js.toLowerCase "nice post") Scenario.anyOnComments = true /\
  w_calls (state (Render.handleComment (Some "ig1"%string)
                    (Some (Scenario.commentValue "c9" "nice post")))
                 Scenario.withEmptyKeyword)
  = [CallReplyToComment "c9" "Thanks for your comment!" (Some "ig1"%string)].
Proof.
  destruct (empty_keyword_always_matches Scenario.anyOnComments [EmptyString]
              eq_refl (or_introl eq_refl)) as (H1 & H2 & _).
  split; [apply H1 |].
  apply (H2 (Some "ig1"%string) (Scenario.commentValue "c9" "nice post")
            Scenario.withEmptyKeyword [Scenario.helloOnComments]
            [Scenario.priceOnComments] eq_refl).
  - discriminate.
  - intros b [<- | []]. apply hasKeyword_no_match. reflexivity.
Defined.

(* ================================================================== *)
(** ** The reconciliation sweep *)

Lemma render_processEntries_calls l w :
  w_calls (state (forOf l Render.processEntry) w)
  = w_calls w ++ flat_map (entryCallsOf (w_automations w) (w_now w)) l.
Proof.
  apply (forOf_calls Render.processEntry entryCallsOf).
  - apply render_processEntry_safe.
  - intro. apply render_processEntry_ignores; ignore_all.
  - intro. apply render_processEntry_ignores; ignore_all.
  - intros. apply render_processEntry_calls.
Qed.

Lemma render_processPendingEvent_run event w :
  Render.processPendingEvent event w = (Ok tt, afterEvent event w).
Proof.
  unfold Render.processPendingEvent, afterEvent, try_catch.
  destruct (we_data (fields event)) as [data|]; [| reflexivity].
  destruct (isInstagram data); [| reflexivity].
  unfold Render.processWebhookEntries.
  destruct (env_entry data) as [|l|]; try reflexivity.
  unfold iterate. unfold bind at 2. unfold ret at 1.
  rewrite bind_unit by apply render_processEntries_safe.
  reflexivity.
Qed.

Lemma render_processPendingEvent_calls event w :
  w_calls (state (Render.processPendingEvent event) w)
  = w_calls w ++ eventCallsOf (w_automations w) (w_now w) event.
Proof.
  unfold state at 1. rewrite render_processPendingEvent_run. simpl snd.
  unfold afterEvent, eventCallsOf.
  destruct (we_data (fields event)) as [data|]; [| now rewrite app_nil_r].
  destruct (isInstagram data); [| now rewrite app_nil_r].
  destruct (env_entry data) as [|l|]; try now rewrite app_nil_r.
  apply render_processEntries_calls.
Qed.

Lemma render_processPendingEvent_ignores {B : Type} (proj : World -> B) event :
  ignores proj set_calls -> ignores proj set_http -> ignores proj set_nextId ->
  ignores proj set_webhook_logs -> ignores proj set_automation_logs ->
  ignores proj set_comments -> ignores proj set_messages ->
  ignores proj set_webhook_events ->
  preserves (unchanged proj) (Render.processPendingEvent event).
Proof.
  intros I1 I2 I3 I4 I5 I6 I7 I8 w. unfold state.
  rewrite render_processPendingEvent_run. simpl snd. unfold afterEvent, unchanged.
  destruct (we_data (fields event)) as [data|];
    [| unfold recordFailure; now rewrite I8].
  destruct (isInstagram data); [| reflexivity].
  destruct (env_entry data) as [|l|];
    try (unfold recordFailure; now rewrite I8).
  unfold recordProcessed. rewrite I8.
  apply (forOf_ignores proj). intro.
  now apply render_processEntry_ignores.
Qed.

Lemma render_sweep_calls l w :
  w_calls (state (forOf l Render.processPendingEvent) w)
  = w_calls w ++ flat_map (eventCallsOf (w_automations w) (w_now w)) l.
Proof.
  apply (forOf_calls Render.processPendingEvent eventCallsOf).
  - apply render_processPendingEvent_safe.
  - intro. apply render_processPendingEvent_ignores; ignore_all.
  - intro. apply render_processPendingEvent_ignores; ignore_all.
  - intros. apply render_processPendingEvent_calls.
Qed.

Lemma render_verifyAuth_state (req : Request) (next : M HttpReply) (w : World) :
  state (Render.verifyAuth req next) w
  = if authorizedBy w req then state next w else w.
Proof.
  unfold Render.verifyAuth, authorizedBy, state.
  destruct (req_authorization req) as [h|]; [| reflexivity].
  destruct (Js.startsWith h "Bearer "); [| reflexivity].
  cbv beta iota delta [negb andb bind gets].
  now destruct (String.eqb (Js.substringFrom 7 h) (w_secret w)).
Qed.

Lemma render_process_pending_state req w :
  state (Render.process_pending req) w
  = if authorizedBy w req
    then state (forOf (fetchPending 50 (w_webhook_events w))
                  Render.processPendingEvent) w
    else w.
Proof.
  unfold Render.process_pending. rewrite render_verifyAuth_state.
  destruct (authorizedBy w req); [| reflexivity].
  unfold state at 1. unfold try_catch. rewrite bind_gets.
  rewrite bind_unit
    by (apply safe_forOf; intro; apply render_processPendingEvent_safe).
  reflexivity.
Qed.

(** *** Which comments the sweep replies to *)

Lemma callsFor_In call text automations c :
  In c (callsFor call text automations) -> exists a, c = call a.
Proof.
  unfold callsFor. destruct (firstMatch text automations) as [a|]; [| intros []].
  intros [<- | []]. now exists a.
Qed.

Lemma messageCallsOf_no_reply automations now iid item cid r i :
  ~ In (CallReplyToComment cid r i) (messageCallsOf automations now iid item).
Proof.
  unfold messageCallsOf. intro H.
  destruct (mi_message item) as [p|]; [| exact H].
  destruct (mp_is_echo p) as [[|]|]; [exact H | |];
    (destruct (String.eqb _ EmptyString); [exact H |];
     apply callsFor_In in H; destruct H as [a H]; discriminate).
Qed.

Lemma changeCallsOf_reply automations now iid change cid r i :
  In (CallReplyToComment cid r i) (changeCallsOf automations now iid change) ->
  In cid (commentIdsOfChanges now [change]).
Proof.
  unfold changeCallsOf, commentIdsOfChanges, commentCallsOf. simpl.
  destruct (isCommentField (ch_field change)); [| intros []].
  destruct (ch_value change) as [v|]; [| intros []].
  destruct (String.eqb _ EmptyString); [intros [] |].
  intro H. apply callsFor_In in H. destruct H as [a H].
  injection H as -> _ _. now left.
Qed.

Lemma entryCallsOf_reply automations now entry cid r i :
  In (CallReplyToComment cid r i) (entryCallsOf automations now entry) ->
  In cid (commentIdsOfEntry now entry).
Proof.
  unfold entryCallsOf, commentIdsOfEntry. intro H. apply in_app_or in H.
  destruct H as [H | H].
  - destruct (en_messaging entry) as [l|]; [| destruct H].
    apply in_flat_map in H. destruct H as (item & _ & H).
    now apply messageCallsOf_no_reply in H.
  - destruct (en_changes entry) as [l|]; [| destruct H].
    apply in_flat_map in H. destruct H as (change & Hin & H).
    apply changeCallsOf_reply in H. unfold commentIdsOfChanges in *.
    apply in_flat_map. exists change. split; [exact Hin |].
    simpl in H. now rewrite app_nil_r in H.
Qed.

Lemma eventCallsOf_reply automations now event cid r i :
  In (CallReplyToComment cid r i) (eventCallsOf automations now event) ->
  In cid (commentIdsOfEvent now event).
Proof.
  unfold eventCallsOf, commentIdsOfEvent, commentIdsOfEnvelope.
  destruct (we_data (fields event)) as [data|]; [| intros []].
  destruct (isInstagram data); [| intros []].
  destruct (env_entry data) as [|l|]; try (intros []).
  intro H. apply in_flat_map in H. destruct H as (entry & Hin & H).
  apply in_flat_map. exists entry. split; [exact Hin |].
  now apply entryCallsOf_reply in H.
Qed.

(** C1, as stated, fails: after [/webhook/process] has replied to comment
    c1 and stored it with [isProcessed] true and a [replyId], a sweep that
    finds the raw event of that comment unprocessed invokes
    [replyToComment] for c1 again. *)
Lemma sweep_replies_again_to_processed_comment :
  existsb (fun c => String.eqb (cmt_commentId (fields c)) "c1"
                    && cmt_isProcessed (fields c)
                    && Js.isSome (cmt_replyId (fields c)))
          (w_comments Scenario.afterLive) = true /\
  w_calls Scenario.afterLiveThenSweep
  = w_calls Scenario.afterLive
    ++ [CallReplyToComment "c1" Scenario.priceReply (Some "ig1"%string)].
Proof. split; vm_compute; reflexivity. Qed.

(** C1 (amended). A reconciliation sweep does not read the comments of the
    store: its dispatcher invocations are those that the (at most 50,
    oldest) unprocessed webhook events it fetches lead to.  So a comment,
    processed or not, is not replied to by a sweep when no fetched
    unprocessed webhook event carries it. *)
Theorem sweep_replies_only_to_carried_comments :
  forall (req : Request) (w : World) (commentId : string),
    (forall event,
        In event (fetchPending 50 (w_webhook_events w)) ->
        ~ In commentId (commentIdsOfEvent (w_now w) event)) ->
    exists made,
      w_calls (state (Render.process_pending req) w) = w_calls w ++ made /\
      made = (if authorizedBy w req
              then flat_map (eventCallsOf (w_automations w) (w_now w))
                            (fetchPending 50 (w_webhook_events w))
              else []) /\
      forall replyMessage instagramId,
        ~ In (CallReplyToComment commentId replyMessage instagramId) made.
Proof.
  intros req w cid Hno. eexists. split; [| split; [reflexivity |]].
  - rewrite render_process_pending_state.
    destruct (authorizedBy w req).
    + apply render_sweep_calls.
    + now rewrite app_nil_r.
  - intros r i H. destruct (authorizedBy w req); [| exact H].
    apply in_flat_map in H. destruct H as (event & Hin & H).
    apply eventCallsOf_reply in H. exact (Hno event Hin H).
Qed.

Lemma sweep_replies_only_to_carried_comments_witness :
  exists made,
    w_calls (state (Render.process_pending Scenario.sweep) Scenario.otherPending)
    = w_calls Scenario.otherPending ++ made /\
    forall replyMessage instagramId,
      ~ In (CallReplyToComment "c1" replyMessage instagramId) made.
Proof.
  destruct (sweep_replies_only_to_carried_comments
              Scenario.sweep Scenario.otherPending "c1") as (made & H1 & _ & H3).
  - intros event [<- | []]. simpl. intros [H | []]. discriminate.
  - exists made. split; [exact H1 | exact H3].
Defined.

(** *** What the sweep stores *)

Lemma render_processEntries_messages l w :
  length (w_messages (state (forOf l Render.processEntry) w))
  = length (w_messages w) + list_sum (map storedMessagesOf l).
Proof.
  apply (forOf_measure (fun w => length (w_messages w))).
  - apply render_processEntry_safe.
  - intros. apply render_processEntry_messages.
Qed.

Lemma render_processEntries_comments l w :
  length (w_comments (state (forOf l Render.processEntry) w))
  = length (w_comments w) + list_sum (map storedCommentsOf l).
Proof.
  apply (forOf_measure (fun w => length (w_comments w))).
  - apply render_processEntry_safe.
  - intros. apply render_processEntry_comments.
Qed.

Lemma render_processWebhookEntries_array l w :
  Render.processWebhookEntries (EntriesArray l) w
  = (Ok tt, state (forOf l Render.processEntry) w).
Proof.
  unfold Render.processWebhookEntries, iterate. unfold bind, ret at 1.
  apply run_safe, render_processEntries_safe.
Qed.

(** C4, as stated, fails: the sweep stores the comment of a raw event a
    second time, and it stores the message of a raw event. *)
Lemma sweep_inserts_event_records :
  length (w_comments Scenario.afterLive) = 1 /\
  map (fun c => cmt_commentId (fields c))
      (w_comments Scenario.afterLiveThenSweep)
  = ["c1"; "c1"]%string /\
  w_messages Scenario.pendingMessage = [] /\
  length (w_messages (state (Render.process_pending Scenario.sweep)
                        Scenario.pendingMessage)) = 1.
Proof. repeat split; vm_compute; reflexivity. Qed.

Lemma render_processPendingEvent_messages event w :
  length (w_messages (state (Render.processPendingEvent event) w))
  = length (w_messages w) + storedMessagesOfEvent event.
Proof.
  unfold state. rewrite render_processPendingEvent_run. simpl snd.
  unfold afterEvent, storedMessagesOfEvent.
  destruct (we_data (fields event)) as [data|]; [| simpl; lia].
  destruct (isInstagram data); [| lia].
  destruct (env_entry data) as [|l|]; try (simpl; lia).
  apply render_processEntries_messages.
Qed.

Lemma render_processPendingEvent_comments event w :
  length (w_comments (state (Render.processPendingEvent event) w))
  = length (w_comments w) + storedCommentsOfEvent event.
Proof.
  unfold state. rewrite render_processPendingEvent_run. simpl snd.
  unfold afterEvent, storedCommentsOfEvent.
  destruct (we_data (fields event)) as [data|]; [| simpl; lia].
  destruct (isInstagram data); [| lia].
  destruct (env_entry data) as [|l|]; try (simpl; lia).
  apply render_processEntries_comments.
Qed.

(** C4 (amended). An authorized sweep drives each unprocessed Instagram
    event it fetches through [processWebhookEntries], the path of a live
    webhook, and so ingests it: over the sweep, one MessageEvent is inserted
    for each messaging item that has a message and is no echo, and one
    CommentEvent for each [comments] or [live_comments] change that has a
    value; the raw event is then marked processed. *)
Theorem sweep_ingests_the_event :
  forall (req : Request) (w : World),
    authorizedBy w req = true ->
    length (w_messages (state (Render.process_pending req) w))
      = length (w_messages w)
        + list_sum (map storedMessagesOfEvent
                        (fetchPending 50 (w_webhook_events w))) /\
    length (w_comments (state (Render.process_pending req) w))
      = length (w_comments w)
        + list_sum (map storedCommentsOfEvent
                        (fetchPending 50 (w_webhook_events w))) /\
    (forall event w',
        wellFormed event ->
        exists data,
          we_data (fields event) = Some data /\
          state (Render.processPendingEvent event) w'
          = recordProcessed event
              (state (Render.processWebhookEntries (env_entry data)) w')).
Proof.
  intros req w Hauth.
  rewrite render_process_pending_state, Hauth. split; [| split].
  - apply (forOf_measure (fun w => length (w_messages w))).
    + apply render_processPendingEvent_safe.
    + intros. apply render_processPendingEvent_messages.
  - apply (forOf_measure (fun w => length (w_comments w))).
    + apply render_processPendingEvent_safe.
    + intros. apply render_processPendingEvent_comments.
  - intros event w' (data & entries & Hd & Hi & He).
    exists data. split; [exact Hd |].
    unfold state at 1. rewrite render_processPendingEvent_run. simpl snd.
    unfold afterEvent. rewrite Hd, Hi, He.
    unfold state at 2. now rewrite render_processWebhookEntries_array.
Qed.

Lemma sweep_ingests_the_event_witness :
  length (w_comments (state (Render.process_pending Scenario.sweep)
                        Scenario.afterLive))
  = length (w_comments Scenario.afterLive) + 1.
Proof.
  apply (sweep_ingests_the_event Scenario.sweep Scenario.afterLive).
  reflexivity.
Defined.

(** *** What the sweep records on the event *)

Lemma byId_same {A : Type} (d : Doc A) : byId (_id d) d = true.
Proof. apply Nat.eqb_refl. Qed.

Lemma updateFirst_In {A : Type} (f : A -> A) (l : list (Doc A)) (d : Doc A) :
  NoDup (map _id l) -> In d l ->
  In (mkDoc (_id d) (f (fields d))) (updateFirst (byId (_id d)) f l).
Proof.
  induction l as [|x rest IH]; simpl; [intros _ [] |].
  intros Hnd Hin. inversion Hnd as [|? ? Hx Hrest]; subst.
  destruct (byId (_id d) x) eqn:E.
  - left. destruct Hin as [-> | Hin]; [reflexivity |].
    exfalso. apply Hx. apply Nat.eqb_eq in E. rewrite E.
    now apply in_map.
  - right. destruct Hin as [-> | Hin].
    + now rewrite byId_same in E.
    + now apply IH.
Qed.

Lemma render_processEntries_events l w :
  w_webhook_events (state (forOf l Render.processEntry) w) = w_webhook_events w /\
  w_now (state (forOf l Render.processEntry) w) = w_now w.
Proof.
  split; apply (forOf_ignores _ Render.processEntry); intro;
    apply render_processEntry_ignores; ignore_all.
Qed.

(** C3, as stated, fails: of three unprocessed comment events, one reply
    accepted and two rejected, the sweep leaves one comment with
    [isProcessed] true and two with [isProcessed] false, none of them with
    an [error]; the three raw events are marked processed, without error. *)
Lemma sweep_records_no_error_on_failed_reply :
  length (filter (fun c => cmt_isProcessed (fields c))
                 (w_comments Scenario.afterThreePending)) = 1 /\
  length (filter (fun c => negb (cmt_isProcessed (fields c)))
                 (w_comments Scenario.afterThreePending)) = 2 /\
  length (filter (fun c => negb (cmt_isProcessed (fields c))
                           && Js.isSome (cmt_error (fields c)))
                 (w_comments Scenario.afterThreePending)) = 0 /\
  map (fun e => (we_processed (fields e), we_error (fields e)))
      (w_webhook_events Scenario.afterThreePending)
  = [(true, None); (true, None); (true, None)].
Proof. repeat split; vm_compute; reflexivity. Qed.

Lemma updateFirst_ids {A : Type} (sel : Doc A -> bool) (f : A -> A) l :
  map _id (updateFirst sel f l) = map _id l.
Proof.
  induction l as [|d rest IH]; simpl; [reflexivity |].
  destruct (sel d); simpl; now rewrite ?IH.
Qed.

Lemma updateFirst_other {A : Type} (f : A -> A) (l : list (Doc A)) (d : Doc A) i :
  In d l -> _id d <> i -> In d (updateFirst (byId i) f l).
Proof.
  induction l as [|x rest IH]; simpl; [intros [] |].
  intros Hin Hne. destruct (byId i x) eqn:E.
  - destruct Hin as [-> | Hin]; [| now right].
    apply Nat.eqb_eq in E. now contradiction Hne.
  - destruct Hin as [-> | Hin]; [now left | right; now apply IH].
Qed.

Lemma applyUpdate_ids now events event :
  map _id (applyUpdate now events event) = map _id events.
Proof.
  unfold applyUpdate. destruct (eventUpdate now event); [| reflexivity].
  apply updateFirst_ids.
Qed.

Lemma applyUpdate_other now events event d :
  In d events -> _id d <> _id event -> In d (applyUpdate now events event).
Proof.
  unfold applyUpdate. intros Hin Hne.
  destruct (eventUpdate now event); [| exact Hin].
  now apply updateFirst_other.
Qed.

Lemma sweep_keeps_others now l : forall events d,
  In d events -> ~ In (_id d) (map _id l) ->
  In d (fold_left (applyUpdate now) l events).
Proof.
  induction l as [|x rest IH]; simpl; intros events d Hin Hno; [exact Hin |].
  apply IH.
  - apply applyUpdate_other; [exact Hin |]. intro E. apply Hno. now left.
  - intro H. apply Hno. now right.
Qed.

Lemma sweep_updates_each now l : forall events e f,
  NoDup (map _id l) -> NoDup (map _id events) ->
  In e l -> In e events -> eventUpdate now e = Some f ->
  In (mkDoc (_id e) (f (fields e))) (fold_left (applyUpdate now) l events).
Proof.
  induction l as [|x rest IH]; simpl; intros events e f Hl He Hin Hst Hf;
    [destruct Hin |].
  inversion Hl as [|? ? Hx Hrest]; subst.
  destruct Hin as [-> | Hin].
  - apply sweep_keeps_others; [| exact Hx].
    unfold applyUpdate. rewrite Hf. now apply updateFirst_In.
  - apply IH; try assumption.
    + now rewrite applyUpdate_ids.
    + apply applyUpdate_other; [exact Hst |].
      intro E. apply Hx. rewrite <- E. now apply in_map.
Qed.

Lemma insertByCreatedAt_perm e l : Permutation (insertByCreatedAt e l) (e :: l).
Proof.
  induction l as [|x rest IH]; simpl; [reflexivity |].
  destruct (_ <=? _)%Z; [reflexivity |].
  rewrite IH. apply perm_swap.
Qed.

Lemma sortByCreatedAt_perm l : Permutation (sortByCreatedAt l) l.
Proof.
  induction l as [|x rest IH]; simpl; [reflexivity |].
  rewrite insertByCreatedAt_perm. now constructor.
Qed.

Lemma NoDup_map_filter {A B : Type} (g : A -> B) (p : A -> bool) l :
  NoDup (map g l) -> NoDup (map g (filter p l)).
Proof.
  induction l as [|x rest IH]; simpl; [trivial |].
  intro H. inversion H as [|? ? Hx Hrest]; subst.
  destruct (p x); simpl; [| now apply IH].
  constructor; [| now apply IH].
  intro Hin. apply Hx. apply in_map_iff in Hin. destruct Hin as (y & <- & Hy).
  apply in_map. now apply filter_In in Hy.
Qed.

Lemma fetchPending_ids limit events :
  NoDup (map _id events) -> NoDup (map _id (fetchPending limit events)).
Proof.
  intro H. unfold fetchPending.
  assert (Hs : NoDup (map _id (sortByCreatedAt (filter isPending events)))).
  { apply (Permutation_NoDup (l := map _id (filter isPending events))).
    - apply Permutation_map. symmetry. apply sortByCreatedAt_perm.
    - now apply NoDup_map_filter. }
  rewrite <- (firstn_skipn limit (sortByCreatedAt (filter isPending events))) in Hs.
  rewrite map_app in Hs.
  now apply NoDup_app_remove_r in Hs.
Qed.

Lemma afterEvent_events event w :
  w_webhook_events (afterEvent event w)
  = applyUpdate (w_now w) (w_webhook_events w) event.
Proof.
  unfold afterEvent, applyUpdate, eventUpdate.
  destruct (we_data (fields event)) as [data|]; [| reflexivity].
  destruct (isInstagram data); [| reflexivity].
  destruct (env_entry data) as [|l|]; try reflexivity.
  unfold recordProcessed. simpl.
  now destruct (render_processEntries_events l w) as [-> ->].
Qed.

Lemma render_sweep_events l : forall w,
  w_webhook_events (state (forOf l Render.processPendingEvent) w)
  = fold_left (applyUpdate (w_now w)) l (w_webhook_events w).
Proof.
  induction l as [|x rest IH]; intro w; simpl; [reflexivity |].
  rewrite state_bind_unit by apply render_processPendingEvent_safe.
  rewrite IH.
  rewrite (preserved w_now (Render.processPendingEvent x))
    by (apply render_processPendingEvent_ignores; ignore_all).
  unfold state at 1. rewrite render_processPendingEvent_run. simpl snd.
  now rewrite afterEvent_events.
Qed.

(** C3 (amended). In every authorized sweep, for each unprocessed event it
    fetches: when processing the event throws (the event has no [data], or
    its [entry] cannot be iterated), the failure is recorded on that event,
    [error] and [processedAt] set, and [processed] stays false; when the
    event is an Instagram envelope with a list of entries, processing does
    not throw, whatever the dispatcher answers, and the event is marked
    [processed] true with [processedAt] set and no [error] written.  A
    failed outbound reply is thus recorded neither on the event nor on the
    comment. *)
Theorem sweep_records_thrown_failures :
  forall (req : Request) (w : World) (event : Doc WebhookEvent),
    authorizedBy w req = true ->
    NoDup (map _id (w_webhook_events w)) ->
    In event (fetchPending 50 (w_webhook_events w)) ->
    (processingThrows event ->
     exists stored error,
       In stored (w_webhook_events (state (Render.process_pending req) w)) /\
       _id stored = _id event /\
       we_error (fields stored) = Some error /\
       we_processedAt (fields stored) = Some (w_now w) /\
       we_processed (fields stored) = false) /\
    (wellFormed event ->
     exists stored,
       In stored (w_webhook_events (state (Render.process_pending req) w)) /\
       _id stored = _id event /\
       we_processed (fields stored) = true /\
       we_processedAt (fields stored) = Some (w_now w) /\
       we_error (fields stored) = we_error (fields event)).
Proof.
  intros req w event Hauth Hnd Hin.
  rewrite render_process_pending_state, Hauth, render_sweep_events.
  destruct (fetchPending_In _ _ _ Hin) as [Hstore Hpending].
  pose proof (fetchPending_ids 50 _ Hnd) as Hids.
  pose proof (sweep_updates_each (w_now w) (fetchPending 50 (w_webhook_events w))
                (w_webhook_events w) event) as Hupd.
  split.
  - intro Hthrow.
    assert (Hf : exists error,
               eventUpdate (w_now w) event = Some (setError error (w_now w))).
    { unfold eventUpdate.
      destruct Hthrow as [-> | (data & -> & -> & ->)]; eexists; reflexivity. }
    destruct Hf as [error Hf].
    exists (mkDoc (_id event) (setError error (w_now w) (fields event))), error.
    split; [now apply Hupd | repeat split]. exact Hpending.
  - intros (data & entries & Hd & Hi & He).
    exists (mkDoc (_id event) (setProcessed (w_now w) (fields event))).
    split; [| repeat split].
    apply Hupd; try assumption. unfold eventUpdate. now rewrite Hd, Hi, He.
Qed.

Lemma sweep_records_thrown_failures_witness :
  exists stored error,
    In stored (w_webhook_events
                 (state (Render.process_pending Scenario.sweep)
                        Scenario.brokenPending)) /\
    _id stored = 101 /\
    we_error (fields stored) = Some error /\
    we_processed (fields stored) = false.
Proof.
  destruct (sweep_records_thrown_failures Scenario.sweep Scenario.brokenPending
              (Scenario.pending 101 1700000020%Z
                 (Some (mkEnvelope (Some "instagram"%string) EntriesNotIterable))))
    as [H _].
  - reflexivity.
  - simpl. repeat constructor; simpl; intuition discriminate.
  - simpl. right. left. reflexivity.
  - destruct H as (stored & error & H1 & H2 & H3 & _ & H5).
    + right. eexists. repeat split.
    + exists stored, error. repeat split; assumption.
Defined.

(* ================================================================== *)
(** * Beyond the claims *)

(* ================================================================== *)
(** ** Authentication *)

Lemma substringFrom_bearer post :
  Js.substringFrom 7 ("Bearer " ++ post) = post.
Proof. reflexivity. Qed.

Lemma authorizedBy_iff (w : World) (req : Request) :
  authorizedBy w req = true
  <-> req_authorization req = Some ("Bearer " ++ w_secret w)%string.
Proof.
  unfold authorizedBy. destruct (req_authorization req) as [h|].
  - rewrite andb_true_iff, startsWith_spec. split.
    + intros [[post ->] E]. rewrite substringFrom_bearer in E.
      apply String.eqb_eq in E. now subst.
    + intros [= ->]. split; [now exists (w_secret w) |].
      simpl. apply String.eqb_refl.
  - split; discriminate.
Qed.

Lemma render_verifyAuth_rejects (req : Request) (next : M HttpReply) (w : World) :
  authorizedBy w req = false ->
  exists error,
    Render.verifyAuth req next w = (Ok (mkHttpReply 401 (RError error)), w).
Proof.
  unfold authorizedBy, Render.verifyAuth.
  destruct (req_authorization req) as [h|]; [| intros _; now eexists].
  destruct (Js.startsWith h "Bearer "); [| intros _; now eexists].
  cbv beta iota delta [negb andb bind gets].
  intros ->. now eexists.
Qed.

(** X1. [verifyAuth] lets a request through exactly when its
    [Authorization] header is "Bearer " followed by the server's secret: the
    handler then runs as if there were no check; with any other header, or
    none, the answer is 401, the handler does not run and nothing in the
    world changes.  So neither [/webhook/process] nor [/process/pending]
    has any effect on an unauthorized request. *)
Theorem verifyAuth_accepts_exactly_the_secret :
  forall (req : Request) (next : M HttpReply) (w : World),
    (req_authorization req = Some ("Bearer " ++ w_secret w)%string ->
     Render.verifyAuth req next w = next w) /\
    (req_authorization req <> Some ("Bearer " ++ w_secret w)%string ->
     (exists error,
         Render.verifyAuth req next w = (Ok (mkHttpReply 401 (RError error)), w)) /\
     (exists error,
         Render.webhook_process req w = (Ok (mkHttpReply 401 (RError error)), w)) /\
     (exists error,
         Render.process_pending req w = (Ok (mkHttpReply 401 (RError error)), w))).
Proof.
  intros req next w. split.
  - apply render_authorized.
  - intro Hne.
    assert (Hf : authorizedBy w req = false).
    { destruct (authorizedBy w req) eqn:E; [| reflexivity].
      apply authorizedBy_iff in E. now contradiction Hne. }
    repeat split; now apply render_verifyAuth_rejects.
Qed.

Lemma verifyAuth_accepts_exactly_the_secret_witness :
  Render.verifyAuth Scenario.sweep (reply 200 (RProcessed 0)) Scenario.liveAndPending
    = (Ok (mkHttpReply 200 (RProcessed 0)), Scenario.liveAndPending) /\
  exists error,
    Render.webhook_process
      (Scenario.withWrongToken (Scenario.commentEnvelope "c1" "price"))
      Scenario.liveAndPending
    = (Ok (mkHttpReply 401 (RError error)), Scenario.liveAndPending).
Proof.
  split.
  - apply (proj1 (verifyAuth_accepts_exactly_the_secret Scenario.sweep
                    (reply 200 (RProcessed 0)) Scenario.liveAndPending)).
    reflexivity.
  - apply (proj2 (verifyAuth_accepts_exactly_the_secret
                    (Scenario.withWrongToken (Scenario.commentEnvelope "c1" "price"))
                    (reply 200 (RProcessed 0)) Scenario.liveAndPending)).
    discriminate.
Defined.

(** X2. The processor answers 401 to a request whose [Authorization]
    header is not exactly "Bearer " followed by its secret key, before it
    touches the store: no webhook log is updated and nothing is ingested. *)
Theorem processor_rejects_unauthorized :
  forall (req : Request) (w : World),
    req_authorization req <> Some ("Bearer " ++ w_secret w)%string ->
    Processor.process_webhook req w
    = (Ok (mkHttpReply 401 (RError "Unauthorized")), w).
Proof.
  intros req w Hne. unfold Processor.process_webhook.
  unfold try_catch at 1. unfold bind at 1. unfold gets at 1.
  assert (E : negb (Js.truthy (req_authorization req))
              || negb (Js.optEq (req_authorization req)
                                (Some ("Bearer " ++ w_secret w)%string)) = true).
  { apply orb_true_iff. right. apply negb_true_iff.
    destruct (req_authorization req) as [h|]; [| reflexivity].
    simpl. apply String.eqb_neq. intro E. apply Hne. now rewrite E. }
  now rewrite E.
Qed.

Lemma processor_rejects_unauthorized_witness :
  Processor.process_webhook
    (Scenario.withoutHeader Scenario.pageEnvelope) Scenario.processorWorld
  = (Ok (mkHttpReply 401 (RError "Unauthorized")), Scenario.processorWorld).
Proof.
  apply (processor_rejects_unauthorized
           (Scenario.withoutHeader Scenario.pageEnvelope) Scenario.processorWorld).
  discriminate.
Defined.

(* ================================================================== *)
(** ** The dispatcher with credentials *)

Lemma sendDirectMessage_with_token w iid rid msg token :
  accessTokenOf (storedAccount w iid) = Some token ->
  token <> EmptyString ->
  sendDirectMessage iid rid msg w
  = (Ok (outcomeOf (w_net w (w_http w) (messageRequest iid rid msg token))),
     set_http (w_http w ++ [messageRequest iid rid msg token])
       (set_calls (w_calls w ++ [CallSendDirectMessage iid rid msg]) w)).
Proof.
  intros Ht Hne. apply String.eqb_neq in Hne.
  unfold sendDirectMessage, bind, try_catch, recordCall, modify, findAccount, gets.
  simpl. fold (storedAccount w iid). rewrite Ht, Hne.
  unfold fetch, outcomeOf, messageRequest, json. simpl.
  destruct (w_net w (w_http w) _) as [r|e]; [| reflexivity].
  destruct (rs_json r) as [d|]; [| reflexivity].
  now destruct (rs_ok r).
Qed.

Lemma replyToComment_with_token w cid msg iid token :
  accessTokenOf (storedAccount w iid) = Some token ->
  token <> EmptyString ->
  replyToComment cid msg iid w
  = (Ok (outcomeOf (w_net w (w_http w) (replyRequest cid msg token))),
     set_http (w_http w ++ [replyRequest cid msg token])
       (set_calls (w_calls w ++ [CallReplyToComment cid msg iid]) w)).
Proof.
  intros Ht Hne. apply String.eqb_neq in Hne.
  unfold replyToComment, bind, try_catch, recordCall, modify, findAccount, gets.
  simpl. fold (storedAccount w iid). rewrite Ht, Hne.
  unfold fetch, outcomeOf, replyRequest, json. simpl.
  destruct (w_net w (w_http w) _) as [r|e]; [| reflexivity].
  destruct (rs_json r) as [d|]; [| reflexivity].
  now destruct (rs_ok r).
Qed.

(** X3. When the account of the id has a non-empty access token,
    [sendDirectMessage] and [replyToComment] each send exactly one POST
    request, to [/{instagramId}/messages] and to [/{commentId}/replies] of
    the Graph API, carrying that token; they write nothing to the store and
    never throw.  The result is [success] with the id of the response when
    the platform answers ok, the response body as [error] when it answers
    not ok, and an error message when the request fails or the body is not
    JSON. *)
Theorem dispatch_with_access_token :
  forall (w : World) (instagramId recipientId : option string)
         (commentId message token : string) (account : Doc Account),
    storedAccount w instagramId = Some account ->
    acc_accessToken (fields account) = Some token ->
    token <> EmptyString ->
    (result (sendDirectMessage instagramId recipientId message) w
       = Ok (outcomeOf (w_net w (w_http w)
                          (messageRequest instagramId recipientId message token))) /\
     w_http (state (sendDirectMessage instagramId recipientId message) w)
       = w_http w ++ [messageRequest instagramId recipientId message token] /\
     sameStore w (state (sendDirectMessage instagramId recipientId message) w)) /\
    (result (replyToComment commentId message instagramId) w
       = Ok (outcomeOf (w_net w (w_http w) (replyRequest commentId message token))) /\
     w_http (state (replyToComment commentId message instagramId) w)
       = w_http w ++ [replyRequest commentId message token] /\
     sameStore w (state (replyToComment commentId message instagramId) w)).
Proof.
  intros w iid rid cid msg token account Ha Ht Hne.
  assert (H : accessTokenOf (storedAccount w iid) = Some token)
    by (rewrite Ha; exact Ht).
  unfold result, state.
  rewrite (sendDirectMessage_with_token w iid rid msg token H Hne).
  rewrite (replyToComment_with_token w cid msg iid token H Hne).
  simpl. repeat split.
Qed.

Lemma dispatch_with_access_token_witness :
  result (replyToComment "c1" "hello" (Some "ig1"%string)) Scenario.unreachable
    = Ok (Failed (ErrMessage "fetch failed")) /\
  w_http (state (sendDirectMessage (Some "ig1"%string) (Some "user1"%string) "hello")
            Scenario.liveAndPending)
    = [mkHttpRequest "https://graph.instagram.com/v19.0/ig1/messages"
         (MessageBody (Some "user1"%string) "hello" "token-1")].
Proof.
  split.
  - apply (dispatch_with_access_token Scenario.unreachable (Some "ig1"%string)
             None "c1" "hello" "token-1" Scenario.account);
      [reflexivity | reflexivity | discriminate].
  - apply (dispatch_with_access_token Scenario.liveAndPending (Some "ig1"%string)
             (Some "user1"%string) "c1" "hello" "token-1" Scenario.account);
      [reflexivity | reflexivity | discriminate].
Defined.

(* ================================================================== *)
(** ** What a firing writes *)

Lemma state_ret {A : Type} (a : A) (w : World) : state (ret a) w = w.
Proof. reflexivity. Qed.

Lemma state_logAutomationTrigger a iid by_ text rep type w :
  state (logAutomationTrigger a iid by_ text rep type) w
  = set_nextId (S (w_nextId w))
      (set_automation_logs
         (w_automation_logs w
          ++ [mkDoc (w_nextId w)
                (mkAutomationLog (_id a) (auto_name (fields a)) iid by_ text rep
                   type (w_now w))]) w).
Proof. reflexivity. Qed.

Lemma state_logEvent t d s e w :
  state (Render.logEvent t d s e) w
  = set_nextId (S (w_nextId w))
      (set_webhook_logs
         (w_webhook_logs w
          ++ [mkDoc (w_nextId w)
                (mkWebhookLog t d s e (w_now w) (w_now w) "render_server"
                   None None None)]) w).
Proof. reflexivity. Qed.

Lemma render_messageTurn_run iid d t a w r :
  hasKeyword t a = true ->
  result (sendDirectMessage iid (msg_senderId (fields d))
            (auto_replyMessage (fields a))) w = Ok r ->
  Render.messageTurn iid d t a w
  = (Ok true,
     state (if success r then
              logAutomationTrigger a iid (msg_senderId (fields d))
                (msg_text (fields d)) (auto_replyMessage (fields a)) "message"
            else ret tt)
       (state (Render.logEvent "automation_triggered"
                 (LdTriggered (auto_name (fields a)) (msg_text (fields d))
                    (auto_replyMessage (fields a)) (success r)) true None)
          (state (sendDirectMessage iid (msg_senderId (fields d))
                    (auto_replyMessage (fields a))) w))).
Proof.
  intros Ha Hr. unfold Render.messageTurn. rewrite Ha, (bind_ok _ _ _ _ Hr).
  rewrite bind_unit by apply logEvent_safe.
  rewrite bind_unit; [reflexivity |].
  destruct (success r); [apply logAutomationTrigger_safe | apply safe_ret].
Qed.

Lemma processor_messageTurn_run iid d t a w r :
  hasKeyword t a = true ->
  result (sendDirectMessage iid (msg_senderId (fields d))
            (auto_replyMessage (fields a))) w = Ok r ->
  Processor.messageTurn iid d t a w
  = (Ok true,
     state (if success r then
              logAutomationTrigger a iid (msg_senderId (fields d))
                (msg_text (fields d)) (auto_replyMessage (fields a)) "message"
            else ret tt)
       (state (sendDirectMessage iid (msg_senderId (fields d))
                 (auto_replyMessage (fields a))) w)).
Proof.
  intros Ha Hr. unfold Processor.messageTurn. rewrite Ha, (bind_ok _ _ _ _ Hr).
  rewrite bind_unit; [reflexivity |].
  destruct (success r); [apply logAutomationTrigger_safe | apply safe_ret].
Qed.

Lemma firstMatch_hasKeyword text l a :
  firstMatch text l = Some a -> hasKeyword (Js.toLowerCase text) a = true.
Proof. unfold firstMatch. intro H. now apply find_some in H. Qed.

Lemma render_processMessageAutomation_run iid d w a r :
  firstMatch (msg_text (fields d)) (loaded w iid "message") = Some a ->
  result (sendDirectMessage iid (msg_senderId (fields d))
            (auto_replyMessage (fields a))) w = Ok r ->
  state (Render.processMessageAutomation iid d) w
  = snd (Render.messageTurn iid d (Js.toLowerCase (msg_text (fields d))) a w).
Proof.
  intros Hf Hr. unfold Render.processMessageAutomation.
  pose proof (render_messageTurn_run iid d _ a w r
                (firstMatch_hasKeyword _ _ _ Hf) Hr) as Hrun.
  rewrite (matcher_state "message" (msg_text (fields d)) iid _ _ _ a w).
  - reflexivity.
  - intros b Hb. unfold Render.messageTurn. now rewrite Hb.
  - exact Hf.
  - unfold result. now rewrite Hrun.
Qed.

Lemma processor_processMessageAutomation_run iid d w a r :
  firstMatch (msg_text (fields d)) (loaded w iid "message") = Some a ->
  result (sendDirectMessage iid (msg_senderId (fields d))
            (auto_replyMessage (fields a))) w = Ok r ->
  state (Processor.processMessageAutomation iid d) w
  = snd (Processor.messageTurn iid d (Js.toLowerCase (msg_text (fields d))) a w).
Proof.
  intros Hf Hr. unfold Processor.processMessageAutomation.
  pose proof (processor_messageTurn_run iid d _ a w r
                (firstMatch_hasKeyword _ _ _ Hf) Hr) as Hrun.
  rewrite (matcher_state "message" (msg_text (fields d)) iid _ _ _ a w).
  - reflexivity.
  - intros b Hb. unfold Processor.messageTurn. now rewrite Hb.
  - exact Hf.
  - unfold result. now rewrite Hrun.
Qed.

(** X4. When a message matches, the firing is logged exactly when the
    direct message was sent: after [processMessageAutomation], in both
    servers, [automation_logs] holds one more record, with the automation,
    the sender, the text, the reply and the type "message", if
    [sendDirectMessage] succeeded, and is unchanged if it failed.  The
    stored messages are the same either way: a message is not marked
    processed when it is answered. *)
Theorem message_firing_is_logged_on_success :
  forall (instagramId : option string) (messageData : Doc MessageData)
         (w : World) (automation : Doc Automation) (r : DispatchResult),
    firstMatch (msg_text (fields messageData)) (loaded w instagramId "message")
      = Some automation ->
    result (sendDirectMessage instagramId (msg_senderId (fields messageData))
              (auto_replyMessage (fields automation))) w = Ok r ->
    let fired :=
      if success r
      then [firingOf automation instagramId (msg_senderId (fields messageData))
              (msg_text (fields messageData)) "message" (w_now w)]
      else [] in
    map fields (w_automation_logs
                  (state (Render.processMessageAutomation instagramId messageData) w))
      = map fields (w_automation_logs w) ++ fired /\
    map fields (w_automation_logs
                  (state (Processor.processMessageAutomation instagramId messageData) w))
      = map fields (w_automation_logs w) ++ fired /\
    w_messages (state (Render.processMessageAutomation instagramId messageData) w)
      = w_messages w /\
    w_messages (state (Processor.processMessageAutomation instagramId messageData) w)
      = w_messages w.
Proof.
  intros iid d w a r Hf Hr fired.
  pose proof (firstMatch_hasKeyword _ _ _ Hf) as Ha.
  rewrite (render_processMessageAutomation_run iid d w a r Hf Hr).
  rewrite (processor_processMessageAutomation_run iid d w a r Hf Hr).
  rewrite (render_messageTurn_run iid d _ a w r Ha Hr).
  rewrite (processor_messageTurn_run iid d _ a w r Ha Hr).
  simpl snd. unfold fired, firingOf.
  destruct (success r).
  - rewrite !state_logAutomationTrigger, state_logEvent. simpl.
    rewrite !map_app. simpl.
    rewrite !(preserved _ (sendDirectMessage _ _ _))
      by (apply sendDirectMessage_ignores; ignore_all).
    repeat split.
  - rewrite !state_ret, state_logEvent. simpl.
    rewrite !(preserved _ (sendDirectMessage _ _ _))
      by (apply sendDirectMessage_ignores; ignore_all).
    rewrite app_nil_r. repeat split.
Qed.

Lemma message_firing_is_logged_on_success_witness :
  map fields (w_automation_logs
                (state (Render.processMessageAutomation (Some "ig1"%string)
                          (Scenario.storedMessage "What is the price?"))
                       Scenario.answering))
  = [firingOf Scenario.priceOnMessages (Some "ig1"%string) (Some "user1"%string)
       "What is the price?" "message" 1700000100%Z].
Proof.
  apply (message_firing_is_logged_on_success (Some "ig1"%string)
           (Scenario.storedMessage "What is the price?") Scenario.answering
           Scenario.priceOnMessages (Sent (Some "reply-1"%string)));
    reflexivity.
Defined.

(* ================================================================== *)
(** ** A comment that is answered *)

Lemma replyToComment_result_frame cid msg iid w w' :
  w_accounts w' = w_accounts w -> w_net w' = w_net w -> w_http w' = w_http w ->
  result (replyToComment cid msg iid) w' = result (replyToComment cid msg iid) w.
Proof.
  intros Ha Hn Hh.
  unfold result, replyToComment, bind, try_catch, recordCall, modify,
    findAccount, gets. simpl. rewrite Ha.
  destruct (accessTokenOf _) as [token|]; [| reflexivity].
  destruct (String.eqb token EmptyString); [reflexivity |].
  unfold fetch. simpl. rewrite Hn, Hh.
  destruct (w_net w (w_http w) _) as [r|e]; [| reflexivity].
  unfold json. destruct (rs_json r); [| reflexivity].
  now destruct (rs_ok r).
Qed.

Lemma render_commentTurn_run iid d t a w r :
  hasKeyword t a = true ->
  result (replyToComment (cmt_commentId (fields d))
            (auto_replyMessage (fields a)) iid) w = Ok r ->
  Render.commentTurn iid d t a w
  = (Ok true,
     state (if success r then
              logAutomationTrigger a iid (cmt_userId (fields d))
                (cmt_text (fields d)) (auto_replyMessage (fields a)) "comment" ;;
              t <- dateNow ;;
              updateOne w_comments set_comments (byId (_id d))
                (setReplied (_id a) (resultId r) t)
            else ret tt)
       (state (Render.logEvent "comment_automation_triggered"
                 (LdTriggered (auto_name (fields a)) (cmt_text (fields d))
                    (auto_replyMessage (fields a)) (success r)) true None)
          (state (replyToComment (cmt_commentId (fields d))
                    (auto_replyMessage (fields a)) iid) w))).
Proof.
  intros Ha Hr. unfold Render.commentTurn. rewrite Ha, (bind_ok _ _ _ _ Hr).
  rewrite bind_unit by apply logEvent_safe.
  rewrite bind_unit; [reflexivity |].
  destruct (success r); [| apply safe_ret].
  apply safe_bind; [apply logAutomationTrigger_safe | intro].
  apply safe_bind; [apply safe_gets | intro]. apply safe_modify.
Qed.

Lemma processor_commentTurn_run iid d t a w r :
  hasKeyword t a = true ->
  result (replyToComment (cmt_commentId (fields d))
            (auto_replyMessage (fields a)) iid) w = Ok r ->
  Processor.commentTurn iid d t a w
  = (Ok true,
     state (if success r then
              logAutomationTrigger a iid (cmt_userId (fields d))
                (cmt_text (fields d)) (auto_replyMessage (fields a)) "comment" ;;
              t <- dateNow ;;
              updateOne w_comments set_comments (byId (_id d))
                (setReplied (_id a) (resultId r) t)
            else ret tt)
       (state (replyToComment (cmt_commentId (fields d))
                 (auto_replyMessage (fields a)) iid) w)).
Proof.
  intros Ha Hr. unfold Processor.commentTurn. rewrite Ha, (bind_ok _ _ _ _ Hr).
  rewrite bind_unit; [reflexivity |].
  destruct (success r); [| apply safe_ret].
  apply safe_bind; [apply logAutomationTrigger_safe | intro].
  apply safe_bind; [apply safe_gets | intro]. apply safe_modify.
Qed.

Lemma state_fire_comment a iid by_ text rep aid rid (cid : ObjectId) w :
  state (logAutomationTrigger a iid by_ text rep "comment" ;;
         t <- dateNow ;;
         updateOne w_comments set_comments (byId cid) (setReplied aid rid t)) w
  = set_comments
      (updateFirst (byId cid) (setReplied aid rid (w_now w)) (w_comments w))
      (state (logAutomationTrigger a iid by_ text rep "comment") w).
Proof. reflexivity. Qed.

Lemma render_processCommentAutomation_answered iid d w a id :
  firstMatch (cmt_text (fields d)) (loaded w iid "comment") = Some a ->
  result (replyToComment (cmt_commentId (fields d))
            (auto_replyMessage (fields a)) iid) w = Ok (Sent id) ->
  w_comments (state (Render.processCommentAutomation iid d) w)
    = updateFirst (byId (_id d)) (setReplied (_id a) id (w_now w)) (w_comments w) /\
  map fields (w_automation_logs (state (Render.processCommentAutomation iid d) w))
    = map fields (w_automation_logs w)
      ++ [firingOf a iid (cmt_userId (fields d)) (cmt_text (fields d)) "comment"
            (w_now w)].
Proof.
  intros Hf Hr. pose proof (firstMatch_hasKeyword _ _ _ Hf) as Ha.
  pose proof (render_commentTurn_run iid d _ a w _ Ha Hr) as Hrun.
  unfold Render.processCommentAutomation.
  rewrite (matcher_state "comment" (cmt_text (fields d)) iid _ _ _ a w);
    [ | intros b Hb; unfold Render.commentTurn; now rewrite Hb | exact Hf
      | unfold result; now rewrite Hrun ].
  unfold state at 1 2. rewrite Hrun. simpl snd. simpl success. cbv iota.
  rewrite state_fire_comment, state_logAutomationTrigger, state_logEvent.
  simpl. rewrite map_app. simpl.
  rewrite !(preserved _ (replyToComment _ _ _))
    by (apply replyToComment_ignores; ignore_all).
  split; reflexivity.
Qed.

Lemma processor_processCommentAutomation_answered iid d w a id :
  firstMatch (cmt_text (fields d)) (loaded w iid "comment") = Some a ->
  result (replyToComment (cmt_commentId (fields d))
            (auto_replyMessage (fields a)) iid) w = Ok (Sent id) ->
  w_comments (state (Processor.processCommentAutomation iid d) w)
    = updateFirst (byId (_id d)) (setReplied (_id a) id (w_now w)) (w_comments w) /\
  map fields (w_automation_logs (state (Processor.processCommentAutomation iid d) w))
    = map fields (w_automation_logs w)
      ++ [firingOf a iid (cmt_userId (fields d)) (cmt_text (fields d)) "comment"
            (w_now w)].
Proof.
  intros Hf Hr. pose proof (firstMatch_hasKeyword _ _ _ Hf) as Ha.
  pose proof (processor_commentTurn_run iid d _ a w _ Ha Hr) as Hrun.
  unfold Processor.processCommentAutomation.
  rewrite (matcher_state "comment" (cmt_text (fields d)) iid _ _ _ a w);
    [ | intros b Hb; unfold Processor.commentTurn; now rewrite Hb | exact Hf
      | unfold result; now rewrite Hrun ].
  unfold state at 1 2. rewrite Hrun. simpl snd. simpl success. cbv iota.
  rewrite state_fire_comment, state_logAutomationTrigger.
  simpl. rewrite map_app. simpl.
  rewrite !(preserved _ (replyToComment _ _ _))
    by (apply replyToComment_ignores; ignore_all).
  split; reflexivity.
Qed.

Lemma updateFirst_fresh {A : Type} (f : A -> A) (l : list (Doc A)) n x :
  Forall (fun d => _id d < n) l ->
  updateFirst (byId n) f (l ++ [mkDoc n x]) = l ++ [mkDoc n (f x)].
Proof.
  induction 1 as [|d rest Hd _ IH]; simpl.
  - unfold byId. simpl. now rewrite Nat.eqb_refl.
  - unfold byId at 1. replace (Nat.eqb (_id d) n) with false.
    + now rewrite IH.
    + symmetry. apply Nat.eqb_neq. lia.
Qed.

Lemma processor_processCommentAutomation_safe iid d :
  safe (Processor.processCommentAutomation iid d).
Proof. apply safe_try. intro. apply safe_ret. Qed.

Lemma processor_processMessageAutomation_safe iid d :
  safe (Processor.processMessageAutomation iid d).
Proof. apply safe_try. intro. apply safe_ret. Qed.

Lemma processor_handleComment_none iid w :
  Processor.handleComment iid None w = (Ok tt, w).
Proof. reflexivity. Qed.

Lemma processor_handleComment_store iid v w :
  let d := buildCommentData iid v (w_now w) in
  let w1 := state (insertOne w_comments set_comments d) w in
  Processor.handleComment iid (Some v) w
  = (Ok tt,
     if negb (String.eqb (cmt_text d) EmptyString)
     then state (Processor.processCommentAutomation iid (mkDoc (w_nextId w) d)) w1
     else w1).
Proof.
  intros d w1. unfold Processor.handleComment, try_catch, dateNow.
  rewrite bind_gets, bind_insertOne. fold d w1.
  destruct (negb (String.eqb (cmt_text d) EmptyString)).
  - now rewrite (run_safe _ w1 (processor_processCommentAutomation_safe _ _)).
  - reflexivity.
Qed.

(** X5. A comment with a non-empty text whose first matching automation
    is answered by the platform is stored, in both servers, as one new
    record that carries [isProcessed] true, the automation's id, the reply
    id of the platform and the reply time; the comments already stored are
    not touched, and one firing of type "comment" is logged. *)
Theorem answered_comment_is_stored_processed :
  forall (instagramId : option string) (value : CommentValue) (w : World)
         (automation : Doc Automation) (replyId : option string),
    freshComments w ->
    Js.orDefault (cv_text value) EmptyString <> EmptyString ->
    firstMatch (Js.orDefault (cv_text value) EmptyString)
               (loaded w instagramId "comment") = Some automation ->
    result (replyToComment (commentIdOf value (w_now w))
              (auto_replyMessage (fields automation)) instagramId) w
      = Ok (Sent replyId) ->
    let answered :=
      mkDoc (w_nextId w)
        (setReplied (_id automation) replyId (w_now w)
           (buildCommentData instagramId value (w_now w))) in
    let firing :=
      firingOf automation instagramId (idOf (cv_from value))
        (Js.orDefault (cv_text value) EmptyString) "comment" (w_now w) in
    w_comments (state (Render.handleComment instagramId (Some value)) w)
      = w_comments w ++ [answered] /\
    w_comments (state (Processor.handleComment instagramId (Some value)) w)
      = w_comments w ++ [answered] /\
    map fields (w_automation_logs
                  (state (Render.handleComment instagramId (Some value)) w))
      = map fields (w_automation_logs w) ++ [firing] /\
    map fields (w_automation_logs
                  (state (Processor.handleComment instagramId (Some value)) w))
      = map fields (w_automation_logs w) ++ [firing].
Proof.
  intros iid v w a id Hfresh Hne Hf Hr answered firing.
  apply String.eqb_neq in Hne.
  set (d := mkDoc (w_nextId w) (buildCommentData iid v (w_now w))).
  unfold state at 1 2 3 4.
  rewrite render_handleComment_store, processor_handleComment_store.
  cbv zeta. simpl cmt_text. rewrite Hne. simpl negb. cbv iota. simpl snd.
  fold d.
  match goal with
  | |- context [state (Render.processCommentAutomation iid d) ?w2] =>
      destruct (render_processCommentAutomation_answered iid d w2 a id)
        as [Hc Hl]
  end.
  { exact Hf. }
  { rewrite replyToComment_result_frame with (w := w); [exact Hr | | |];
      reflexivity. }
  match goal with
  | |- context [state (Processor.processCommentAutomation iid d) ?w1] =>
      destruct (processor_processCommentAutomation_answered iid d w1 a id)
        as [Hc' Hl']
  end.
  { exact Hf. }
  { rewrite replyToComment_result_frame with (w := w); [exact Hr | | |];
      reflexivity. }
  rewrite Hc, Hl, Hc', Hl'. rewrite state_logEvent, !state_insertOne.
  simpl. unfold d. simpl _id.
  rewrite (updateFirst_fresh _ _ _ _ Hfresh).
  repeat split.
Qed.

Lemma answered_comment_is_stored_processed_witness :
  map (fun c => (cmt_commentId (fields c), cmt_isProcessed (fields c),
                 cmt_replyId (fields c)))
      (w_comments (state (Render.handleComment (Some "ig1"%string)
                            (Some (Scenario.commentValue "c5" "price?")))
                         Scenario.answering))
  = [("c2"%string, false, None); ("c5"%string, true, Some "reply-1"%string)].
Proof.
  pose proof (answered_comment_is_stored_processed (Some "ig1"%string)
                (Scenario.commentValue "c5" "price?") Scenario.answering
                Scenario.priceOnComments (Some "reply-1"%string)) as H.
  destruct H as [H _].
  - repeat constructor.
  - discriminate.
  - reflexivity.
  - reflexivity.
  - rewrite H. reflexivity.
Defined.

(* ================================================================== *)
(** ** The live endpoint *)

Lemma render_webhook_process_accepted req w entries :
  req_authorization req = Some ("Bearer " ++ w_secret w)%string ->
  env_object (req_body req) = Some "instagram"%string ->
  env_entry (req_body req) = EntriesArray entries ->
  Render.webhook_process req w
  = (Ok (mkHttpReply 200 (RSuccess "Webhook processed successfully")),
     state (Render.logEvent "webhook_processed_on_render" (LdEnvelope (req_body req))
              true None)
           (state (forOf entries Render.processEntry) w)).
Proof.
  intros Hauth Ho He. unfold Render.webhook_process.
  rewrite (render_authorized _ _ _ Hauth).
  unfold isInstagram. rewrite Ho, He. simpl andb. cbv iota.
  unfold try_catch.
  assert (Hs : safe (Render.processWebhookEntries (EntriesArray entries))).
  { intro w0. exists tt. unfold result.
    now rewrite render_processWebhookEntries_array. }
  rewrite bind_unit by exact Hs.
  rewrite bind_unit by apply logEvent_safe.
  unfold state at 2. now rewrite render_processWebhookEntries_array.
Qed.

(** X6. An authorized Instagram envelope with a list of entries is always
    answered 200 by [/webhook/process], whatever happens to its items.  The
    endpoint stores one MessageEvent for each messaging item that has a
    message and is no echo and one CommentEvent for each [comments] or
    [live_comments] change that has a value: changes of other fields and
    changes without a value are passed over without stopping the items that
    follow.  It leaves [webhook_events] alone and ends by logging
    [webhook_processed_on_render]. *)
Theorem webhook_process_ingests_each_item :
  forall (req : Request) (w : World) (entries : list Entry),
    req_authorization req = Some ("Bearer " ++ w_secret w)%string ->
    env_object (req_body req) = Some "instagram"%string ->
    env_entry (req_body req) = EntriesArray entries ->
    result (Render.webhook_process req) w
      = Ok (mkHttpReply 200 (RSuccess "Webhook processed successfully")) /\
    length (w_messages (state (Render.webhook_process req) w))
      = length (w_messages w) + list_sum (map storedMessagesOf entries) /\
    length (w_comments (state (Render.webhook_process req) w))
      = length (w_comments w) + list_sum (map storedCommentsOf entries) /\
    w_webhook_events (state (Render.webhook_process req) w) = w_webhook_events w /\
    exists earlier last,
      w_webhook_logs (state (Render.webhook_process req) w) = earlier ++ [last] /\
      wl_eventType (fields last) = "webhook_processed_on_render"%string /\
      wl_data (fields last) = LdEnvelope (req_body req) /\
      wl_success (fields last) = true.
Proof.
  intros req w entries Hauth Ho He.
  pose proof (render_webhook_process_accepted req w entries Hauth Ho He) as Hrun.
  assert (Hres : result (Render.webhook_process req) w
                 = Ok (mkHttpReply 200 (RSuccess "Webhook processed successfully")))
    by (unfold result; now rewrite Hrun).
  assert (Hst : state (Render.webhook_process req) w
                = state (Render.logEvent "webhook_processed_on_render"
                           (LdEnvelope (req_body req)) true None)
                        (state (forOf entries Render.processEntry) w))
    by (unfold state at 1; now rewrite Hrun).
  rewrite Hres, Hst, state_logEvent. simpl.
  split; [reflexivity |].
  split; [apply render_processEntries_messages |].
  split; [apply render_processEntries_comments |].
  split; [apply render_processEntries_events |].
  eexists. eexists. split; [reflexivity |]. repeat split.
Qed.

Lemma webhook_process_ingests_each_item_witness :
  result (Render.webhook_process (Scenario.authorized Scenario.mixedEnvelope))
         Scenario.nicePost
    = Ok (mkHttpReply 200 (RSuccess "Webhook processed successfully")) /\
  length (w_comments
            (state (Render.webhook_process (Scenario.authorized Scenario.mixedEnvelope))
                   Scenario.nicePost)) = 2 /\
  length (w_messages
            (state (Render.webhook_process (Scenario.authorized Scenario.mixedEnvelope))
                   Scenario.nicePost)) = 0.
Proof.
  destruct (webhook_process_ingests_each_item
              (Scenario.authorized Scenario.mixedEnvelope) Scenario.nicePost
              [mkEntry (Some "ig1"%string)
                 (Some [Scenario.messagingItem "hello" (Some true)])
                 (Some [mkChange (Some "comments"%string)
                          (Some (Scenario.commentValue "c1" "first"));
                        mkChange (Some "comments"%string) None;
                        mkChange (Some "mentions"%string)
                          (Some (Scenario.commentValue "m1" "price"));
                        mkChange (Some "live_comments"%string)
                          (Some (Scenario.commentValue "c2" "price"))])
                 None None]
              eq_refl eq_refl eq_refl) as (H1 & H2 & H3 & _).
  split; [exact H1 |]. split; [exact H3 | exact H2].
Defined.

(** X7. A [comments] change without a value is an error that
    [handleComment] keeps to itself: it returns normally, stores no comment
    and dispatches nothing.  The render server records the failure as one
    [comment_handling_error] log with [success] false; the processor
    changes nothing at all. *)
Theorem handleComment_without_value :
  forall (instagramId : option string) (w : World),
    result (Render.handleComment instagramId None) w = Ok tt /\
    w_comments (state (Render.handleComment instagramId None) w) = w_comments w /\
    w_calls (state (Render.handleComment instagramId None) w) = w_calls w /\
    w_http (state (Render.handleComment instagramId None) w) = w_http w /\
    (exists error,
        w_webhook_logs (state (Render.handleComment instagramId None) w)
        = w_webhook_logs w
          ++ [logged w "comment_handling_error" (LdCommentError None error) false
                (Some error)]) /\
    Processor.handleComment instagramId None w = (Ok tt, w).
Proof.
  intros iid w.
  pose proof (render_handleComment_none iid w) as Hrun.
  assert (Hres : result (Render.handleComment iid None) w = Ok tt)
    by (unfold result; now rewrite Hrun).
  assert (Hst : state (Render.handleComment iid None) w
                = state (Render.logEvent "comment_handling_error"
                           (LdCommentError None
                              "Cannot read properties of undefined (reading 'id')")
                           false
                           (Some "Cannot read properties of undefined (reading 'id')"%string))
                        w)
    by (unfold state at 1; now rewrite Hrun).
  rewrite Hres, Hst, state_logEvent. simpl.
  repeat split. eexists. reflexivity.
Qed.

(** X8. An authorized Instagram envelope whose [entry] is present but
    cannot be iterated makes [/webhook/process] answer 500: nothing is
    ingested or dispatched, and the only trace is one
    [webhook_processing_error] log with [success] false. *)
Theorem webhook_process_fails_on_uniterable_entry :
  forall (req : Request) (w : World),
    req_authorization req = Some ("Bearer " ++ w_secret w)%string ->
    env_object (req_body req) = Some "instagram"%string ->
    env_entry (req_body req) = EntriesNotIterable ->
    result (Render.webhook_process req) w
      = Ok (mkHttpReply 500 (RError "Internal server error")) /\
    w_messages (state (Render.webhook_process req) w) = w_messages w /\
    w_comments (state (Render.webhook_process req) w) = w_comments w /\
    w_calls (state (Render.webhook_process req) w) = w_calls w /\
    w_http (state (Render.webhook_process req) w) = w_http w /\
    exists error,
      w_webhook_logs (state (Render.webhook_process req) w)
      = w_webhook_logs w
        ++ [logged w "webhook_processing_error" (LdError error) false (Some error)].
Proof.
  intros req w Hauth Ho He. unfold result, state, Render.webhook_process.
  rewrite (render_authorized _ _ _ Hauth).
  unfold isInstagram. rewrite Ho, He. simpl.
  repeat split. eexists. reflexivity.
Qed.

Lemma webhook_process_fails_on_uniterable_entry_witness :
  result (Render.webhook_process (Scenario.authorized Scenario.objectEntryEnvelope))
         Scenario.nicePost
    = Ok (mkHttpReply 500 (RError "Internal server error")).
Proof.
  apply (webhook_process_fails_on_uniterable_entry
           (Scenario.authorized Scenario.objectEntryEnvelope) Scenario.nicePost);
    reflexivity.
Defined.

(* ================================================================== *)
(** ** More on the sweep *)

Lemma render_process_pending_run req w :
  authorizedBy w req = true ->
  Render.process_pending req w
  = (Ok (mkHttpReply 200 (RProcessed (length (fetchPending 50 (w_webhook_events w))))),
     state (forOf (fetchPending 50 (w_webhook_events w)) Render.processPendingEvent) w).
Proof.
  intro Hauth. apply authorizedBy_iff in Hauth.
  unfold Render.process_pending. rewrite (render_authorized _ _ _ Hauth).
  unfold try_catch. rewrite bind_gets.
  rewrite bind_unit
    by (apply safe_forOf; intro; apply render_processPendingEvent_safe).
  reflexivity.
Qed.

Lemma filter_nil_when_none {A : Type} (f : A -> bool) (l : list A) :
  (forall x, In x l -> f x = false) -> filter f l = [].
Proof.
  induction l as [|x rest IH]; simpl; intro H; [reflexivity |].
  rewrite (H x) by now left. apply IH. intros y Hy. apply H. now right.
Qed.

(** X9. An authorized [/process/pending] always answers 200, and the
    [processed] count of the answer is the number of pending events it
    fetched, at most 50 and at most the number of events stored: events
    that were skipped or whose processing threw are counted too.  When
    every stored event is already processed the sweep changes nothing. *)
Theorem process_pending_reports_fetched_count :
  forall (req : Request) (w : World),
    authorizedBy w req = true ->
    result (Render.process_pending req) w
      = Ok (mkHttpReply 200
              (RProcessed (length (fetchPending 50 (w_webhook_events w))))) /\
    length (fetchPending 50 (w_webhook_events w)) <= 50 /\
    length (fetchPending 50 (w_webhook_events w)) <= length (w_webhook_events w) /\
    ((forall e, In e (w_webhook_events w) -> we_processed (fields e) = true) ->
     Render.process_pending req w = (Ok (mkHttpReply 200 (RProcessed 0)), w)).
Proof.
  intros req w Hauth.
  pose proof (render_process_pending_run req w Hauth) as Hrun.
  split; [unfold result; now rewrite Hrun |].
  split; [unfold fetchPending; apply firstn_le_length |].
  split.
  - unfold fetchPending. rewrite length_firstn.
    rewrite (Permutation_length (sortByCreatedAt_perm _)).
    pose proof (filter_length_le isPending (w_webhook_events w)). lia.
  - intro Hall. rewrite Hrun.
    assert (E : fetchPending 50 (w_webhook_events w) = []).
    { unfold fetchPending. rewrite filter_nil_when_none; [reflexivity |].
      intros x Hx. unfold isPending. now rewrite (Hall x Hx). }
    rewrite E. reflexivity.
Qed.

Lemma process_pending_reports_fetched_count_witness :
  result (Render.process_pending Scenario.sweep) Scenario.brokenPending
  = Ok (mkHttpReply 200 (RProcessed 2)).
Proof.
  apply (process_pending_reports_fetched_count Scenario.sweep Scenario.brokenPending).
  reflexivity.
Defined.

Lemma Forall2_same {A : Type} (R : A -> A -> Prop) (l : list A) :
  (forall x, R x x) -> Forall2 R l l.
Proof. intro H. induction l; constructor; auto. Qed.

Lemma Forall2_chain {A : Type} (R : A -> A -> Prop) :
  (forall x y z, R x y -> R y z -> R x z) ->
  forall l1 l2 l3, Forall2 R l1 l2 -> Forall2 R l2 l3 -> Forall2 R l1 l3.
Proof.
  intros Ht l1 l2 l3 H12. revert l3.
  induction H12 as [|x y l1 l2 Hxy _ IH]; intros l3 H23;
    inversion H23; subst; constructor; eauto.
Qed.

Lemma updateFirst_Forall2 {A : Type} (R : Doc A -> Doc A -> Prop)
    (sel : Doc A -> bool) (f : A -> A) (l : list (Doc A)) :
  (forall d, R d d) ->
  (forall d, R d (mkDoc (_id d) (f (fields d)))) ->
  Forall2 R l (updateFirst sel f l).
Proof.
  intros Hrefl Hf. induction l as [|d rest IH]; simpl; [constructor |].
  destruct (sel d); constructor; auto. now apply Forall2_same.
Qed.

Lemma sameEvent_refl d : sameEvent d d.
Proof. repeat split. Qed.

Lemma sameEvent_trans a b c : sameEvent a b -> sameEvent b c -> sameEvent a c.
Proof. unfold sameEvent. intuition congruence. Qed.

Lemma samePending_refl d : samePending d d.
Proof. repeat split. Qed.

Lemma samePending_trans a b c : samePending a b -> samePending b c -> samePending a c.
Proof. unfold samePending. intuition congruence. Qed.

Lemma applyUpdate_sameEvent now events event :
  Forall2 sameEvent events (applyUpdate now events event).
Proof.
  unfold applyUpdate, eventUpdate.
  destruct (we_data (fields event)) as [data|].
  - destruct (isInstagram data); [| apply Forall2_same, sameEvent_refl].
    destruct (env_entry data);
      apply updateFirst_Forall2; try apply sameEvent_refl; intro; repeat split.
  - apply updateFirst_Forall2; [apply sameEvent_refl | intro; repeat split].
Qed.

Lemma sweep_sameEvent now l : forall events,
  Forall2 sameEvent events (fold_left (applyUpdate now) l events).
Proof.
  induction l as [|x rest IH]; intro events; simpl.
  - apply Forall2_same, sameEvent_refl.
  - eapply (Forall2_chain _ sameEvent_trans);
      [apply applyUpdate_sameEvent | apply IH].
Qed.

Lemma render_process_pending_events req w :
  w_webhook_events (state (Render.process_pending req) w)
  = if authorizedBy w req
    then fold_left (applyUpdate (w_now w)) (fetchPending 50 (w_webhook_events w))
                   (w_webhook_events w)
    else w_webhook_events w.
Proof.
  rewrite render_process_pending_state.
  destruct (authorizedBy w req); [apply render_sweep_events | reflexivity].
Qed.

(** X10. A sweep neither adds nor removes a raw event, and it never
    rewrites the identifier, the payload or the creation time of one: the
    events after it are the events before it, one by one, with at most
    [processed], [processedAt] and [error] changed.  Events that it did not
    fetch are left exactly as they were. *)
Theorem sweep_keeps_the_events :
  forall (req : Request) (w : World),
    Forall2 sameEvent (w_webhook_events w)
            (w_webhook_events (state (Render.process_pending req) w)) /\
    (forall d,
        In d (w_webhook_events w) ->
        ~ In (_id d) (map _id (fetchPending 50 (w_webhook_events w))) ->
        In d (w_webhook_events (state (Render.process_pending req) w))).
Proof.
  intros req w. rewrite render_process_pending_events.
  destruct (authorizedBy w req).
  - split; [apply sweep_sameEvent |].
    intros d Hin Hno. now apply sweep_keeps_others.
  - split; [apply Forall2_same, sameEvent_refl | tauto].
Qed.

Lemma sweep_keeps_the_events_witness :
  In Scenario.settled
     (w_webhook_events (state (Render.process_pending Scenario.sweep)
                          Scenario.oneSettled)).
Proof.
  apply (proj2 (sweep_keeps_the_events Scenario.sweep Scenario.oneSettled)).
  - simpl. auto.
  - vm_compute. intros [H | []]. discriminate.
Defined.


Lemma NoDup_map_same {A B : Type} (g : A -> B) (l : list A) x y :
  NoDup (map g l) -> In x l -> In y l -> g x = g y -> x = y.
Proof.
  induction l as [|a rest IH]; simpl; [intros _ [] |].
  intros Hnd Hx Hy E. inversion Hnd as [|? ? Ha Hrest]; subst.
  destruct Hx as [-> | Hx], Hy as [-> | Hy]; try reflexivity.
  - exfalso. apply Ha. rewrite E. now apply in_map.
  - exfalso. apply Ha. rewrite <- E. now apply in_map.
  - now apply IH.
Qed.

Lemma sweep_ids now l : forall events,
  map _id (fold_left (applyUpdate now) l events) = map _id events.
Proof.
  induction l as [|x rest IH]; intro events; simpl; [reflexivity |].
  now rewrite IH, applyUpdate_ids.
Qed.

Lemma sweep_leaves_skipped now l : forall events e,
  NoDup (map _id l) -> In e l -> In e events -> eventUpdate now e = None ->
  In e (fold_left (applyUpdate now) l events).
Proof.
  induction l as [|x rest IH]; simpl; intros events e Hl Hin Hst Hf;
    [destruct Hin |].
  inversion Hl as [|? ? Hx Hrest]; subst.
  destruct Hin as [-> | Hin].
  - apply sweep_keeps_others; [| exact Hx].
    unfold applyUpdate. now rewrite Hf.
  - apply IH; try assumption.
    apply applyUpdate_other; [exact Hst |].
    intro E. apply Hx. rewrite <- E. now apply in_map.
Qed.

Lemma eventUpdate_cases now event :
  (wellFormed event /\ eventUpdate now event = Some (setProcessed now)) \/
  (~ wellFormed event /\
   ((exists error, eventUpdate now event = Some (setError error now)) \/
    eventUpdate now event = None)).
Proof.
  unfold eventUpdate, wellFormed.
  destruct (we_data (fields event)) as [data|].
  - destruct (isInstagram data) eqn:Hi.
    + destruct (env_entry data) as [|l|] eqn:He.
      * right. split; [| left; now eexists].
        intros (d & es & [= <-] & _ & H). congruence.
      * left. split; [now exists data, l | reflexivity].
      * right. split; [| left; now eexists].
        intros (d & es & [= <-] & _ & H). congruence.
    + right. split; [| now right].
      intros (d & es & [= <-] & H & _). congruence.
  - right. split; [| left; now eexists].
    intros (d & es & H & _). discriminate.
Qed.

(** X11. After an authorized sweep over a store with unique identifiers,
    a fetched event that is an Instagram envelope with a list of entries is
    no longer pending, so the next sweep does not fetch it again; a fetched
    event of any other shape (no data, another [object], an [entry] that is
    missing or not iterable) is still stored with [processed] false, so
    every later sweep finds it pending again. *)
Theorem sweep_retires_only_well_formed_events :
  forall (req : Request) (w : World) (event : Doc WebhookEvent),
    authorizedBy w req = true ->
    NoDup (map _id (w_webhook_events w)) ->
    In event (fetchPending 50 (w_webhook_events w)) ->
    (wellFormed event ->
     forall d,
       In d (fetchPending 50 (w_webhook_events (state (Render.process_pending req) w))) ->
       _id d <> _id event) /\
    (~ wellFormed event ->
     exists stored,
       In stored (w_webhook_events (state (Render.process_pending req) w)) /\
       _id stored = _id event /\
       we_processed (fields stored) = false).
Proof.
  intros req w event Hauth Hnd Hin.
  rewrite render_process_pending_events, Hauth.
  destruct (fetchPending_In _ _ _ Hin) as [Hstore Hpending].
  pose proof (fetchPending_ids 50 _ Hnd) as Hids.
  set (events' := fold_left (applyUpdate (w_now w))
                    (fetchPending 50 (w_webhook_events w)) (w_webhook_events w)).
  assert (Hnd' : NoDup (map _id events')).
  { unfold events'. now rewrite sweep_ids. }
  destruct (eventUpdate_cases (w_now w) event) as [[Hwf Hu] | [Hnwf Hu]].
  - split; [| tauto]. intros _ d Hd E.
    destruct (fetchPending_In _ _ _ Hd) as [Hd1 Hd2].
    pose proof (sweep_updates_each (w_now w) _ (w_webhook_events w) event _
                  Hids Hnd Hin Hstore Hu) as Hs.
    fold events' in Hs.
    assert (Heq : d = mkDoc (_id event) (setProcessed (w_now w) (fields event))).
    { apply (NoDup_map_same _id events'); assumption. }
    subst d. discriminate.
  - split; [tauto |]. intros _.
    destruct Hu as [[error Hu] | Hu].
    + exists (mkDoc (_id event) (setError error (w_now w) (fields event))).
      split; [| split; [reflexivity | exact Hpending]].
      now apply (sweep_updates_each (w_now w) _ (w_webhook_events w) event).
    + exists event. split; [| split; [reflexivity | exact Hpending]].
      now apply sweep_leaves_skipped.
Qed.

Lemma sweep_retires_only_well_formed_events_witness :
  (forall d,
      In d (fetchPending 50
              (w_webhook_events
                 (state (Render.process_pending Scenario.sweep)
                        Scenario.liveAndPending))) ->
      _id d <> 100) /\
  exists stored,
    In stored (w_webhook_events
                 (state (Render.process_pending Scenario.sweep)
                        Scenario.blockedBehind)) /\
    _id stored = 101 /\ we_processed (fields stored) = false.
Proof.
  split.
  - apply (proj1 (sweep_retires_only_well_formed_events Scenario.sweep
                    Scenario.liveAndPending
                    (Scenario.pending 100 1700000050%Z
                       (Some (Scenario.commentEnvelope "c1" "What is the PRICE?")))
                    eq_refl
                    ltac:(simpl; repeat constructor; simpl; tauto)
                    ltac:(simpl; tauto))).
    eexists. eexists. repeat split.
  - apply (proj2 (sweep_retires_only_well_formed_events Scenario.sweep
                    Scenario.blockedBehind
                    (Scenario.pending 101 1700000020%Z
                       (Some (mkEnvelope (Some "page"%string) EntriesAbsent)))
                    eq_refl
                    ltac:(simpl; repeat constructor; simpl; intuition discriminate)
                    ltac:(simpl; tauto))).
    intros (d & es & [= <-] & H & _). discriminate.
Defined.

Lemma isPending_same d d' : samePending d d' -> isPending d' = isPending d.
Proof. intros (_ & _ & H). unfold isPending. now rewrite H. Qed.

Lemma filter_samePending l l' :
  Forall2 samePending l l' ->
  Forall2 samePending (filter isPending l) (filter isPending l').
Proof.
  induction 1 as [|d d' l l' H _ IH]; simpl; [constructor |].
  rewrite (isPending_same _ _ H). destruct (isPending d); [now constructor | exact IH].
Qed.

Lemma insertByCreatedAt_samePending e e' l l' :
  samePending e e' -> Forall2 samePending l l' ->
  Forall2 samePending (insertByCreatedAt e l) (insertByCreatedAt e' l').
Proof.
  intros He. induction 1 as [|d d' l l' H Hl IH]; simpl.
  - constructor; [exact He | constructor].
  - assert (E1 : we_createdAt (fields e') = we_createdAt (fields e)) by apply He.
    assert (E2 : we_createdAt (fields d') = we_createdAt (fields d)) by apply H.
    rewrite E1, E2. destruct (_ <=? _)%Z.
    + constructor; [exact He |]. constructor; [exact H | exact Hl].
    + constructor; [exact H | exact IH].
Qed.

Lemma sortByCreatedAt_samePending l l' :
  Forall2 samePending l l' ->
  Forall2 samePending (sortByCreatedAt l) (sortByCreatedAt l').
Proof.
  induction 1 as [|d d' l l' H _ IH]; simpl; [constructor |].
  now apply insertByCreatedAt_samePending.
Qed.

Lemma firstn_Forall2 {A : Type} (R : A -> A -> Prop) n : forall l l',
  Forall2 R l l' -> Forall2 R (firstn n l) (firstn n l').
Proof.
  induction n as [|n IH]; intros l l' H; simpl; [constructor |].
  destruct H; constructor; auto.
Qed.

Lemma fetchPending_samePending limit l l' :
  Forall2 samePending l l' ->
  Forall2 samePending (fetchPending limit l) (fetchPending limit l').
Proof.
  intro H. unfold fetchPending.
  now apply firstn_Forall2, sortByCreatedAt_samePending, filter_samePending.
Qed.

Lemma samePending_ids l l' : Forall2 samePending l l' -> map _id l' = map _id l.
Proof.
  induction 1 as [|d d' l l' (H & _) _ IH]; simpl; [reflexivity |].
  now rewrite H, IH.
Qed.

Lemma applyUpdate_samePending now events event :
  ~ wellFormed event -> Forall2 samePending events (applyUpdate now events event).
Proof.
  intro Hn. unfold applyUpdate.
  destruct (eventUpdate_cases now event) as [[Hwf _] | [_ [[error ->] | ->]]].
  - contradiction.
  - apply updateFirst_Forall2; [apply samePending_refl | intro; repeat split].
  - apply Forall2_same, samePending_refl.
Qed.

Lemma sweep_samePending now l : forall events,
  (forall e, In e l -> ~ wellFormed e) ->
  Forall2 samePending events (fold_left (applyUpdate now) l events).
Proof.
  induction l as [|x rest IH]; intros events H; simpl.
  - apply Forall2_same, samePending_refl.
  - eapply (Forall2_chain _ samePending_trans).
    + apply applyUpdate_samePending. apply H. now left.
    + apply IH. intros e He. apply H. now right.
Qed.

(** X12. Events that a sweep cannot retire block the queue: when none of
    the pending events that an authorized sweep fetches is an Instagram
    envelope with a list of entries, the next sweep fetches the very same
    events, in the same order.  With 50 such events at the head, no younger
    pending event is ever driven. *)
Theorem unretired_events_are_fetched_again :
  forall (req : Request) (w : World),
    authorizedBy w req = true ->
    (forall e, In e (fetchPending 50 (w_webhook_events w)) -> ~ wellFormed e) ->
    map _id (fetchPending 50
               (w_webhook_events (state (Render.process_pending req) w)))
    = map _id (fetchPending 50 (w_webhook_events w)).
Proof.
  intros req w Hauth Hnone.
  rewrite render_process_pending_events, Hauth.
  apply samePending_ids, fetchPending_samePending.
  now apply sweep_samePending.
Qed.

Lemma unretired_events_are_fetched_again_witness :
  map _id (fetchPending 50
             (w_webhook_events
                (state (Render.process_pending Scenario.sweep)
                       Scenario.blockedBehind)))
  = [100; 101].
Proof.
  apply (unretired_events_are_fetched_again Scenario.sweep Scenario.blockedBehind).
  - reflexivity.
  - intros e [<- | [<- | []]];
      intros (d & es & H & Hi & He); simpl in H; try discriminate.
    injection H as <-. discriminate.
Defined.

(* ================================================================== *)
(** ** What the endpoints leave alone *)

Section EndpointFootprint.

Context {B : Type} (proj : World -> B).

Hypothesis I_calls : ignores proj set_calls.
Hypothesis I_http : ignores proj set_http.
Hypothesis I_nextId : ignores proj set_nextId.
Hypothesis I_webhook_logs : ignores proj set_webhook_logs.
Hypothesis I_automation_logs : ignores proj set_automation_logs.
Hypothesis I_comments : ignores proj set_comments.
Hypothesis I_messages : ignores proj set_messages.

Let refl := unchanged_refl proj.
Let trans := unchanged_trans proj.

Ltac endpoint_leaf :=
  first
    [ first [ apply render_processEntry_ignores
            | apply logEvent_ignores
            | apply logAutomationTrigger_ignores
            | apply sendDirectMessage_ignores
            | apply replyToComment_ignores
            | apply processor_processMessageAutomation_ignores ]; assumption
    | walk_leaf ltac:(unfold unchanged;
                      rewrite ?I_nextId, ?I_calls, ?I_http, ?I_webhook_logs,
                              ?I_automation_logs, ?I_comments, ?I_messages;
                      reflexivity) ].

Lemma render_webhook_process_ignores req :
  preserves (unchanged proj) (Render.webhook_process req).
Proof.
  unfold Render.webhook_process, Render.verifyAuth, Render.processWebhookEntries;
    unfold_helpers.
  walk refl trans endpoint_leaf.
Qed.

Lemma processor_processCommentAutomation_ignores iid d :
  preserves (unchanged proj) (Processor.processCommentAutomation iid d).
Proof.
  unfold Processor.processCommentAutomation; unfold_helpers.
  walk refl trans endpoint_leaf.
Qed.

Lemma processor_handleMessage_ignores iid item :
  preserves (unchanged proj) (Processor.handleMessage iid item).
Proof.
  unfold Processor.handleMessage; unfold_helpers. walk refl trans endpoint_leaf.
Qed.

Lemma processor_handleComment_ignores iid v :
  preserves (unchanged proj) (Processor.handleComment iid v).
Proof.
  unfold Processor.handleComment; unfold_helpers.
  walk refl trans ltac:(first [ apply processor_processCommentAutomation_ignores
                              | endpoint_leaf ]).
Qed.

Lemma processor_processEntry_ignores entry :
  preserves (unchanged proj) (Processor.processEntry entry).
Proof.
  unfold Processor.processEntry; unfold_helpers.
  walk refl trans ltac:(first [ apply processor_handleMessage_ignores
                              | apply processor_handleComment_ignores
                              | endpoint_leaf ]).
Qed.

Hypothesis I_webhook_events : ignores proj set_webhook_events.

Lemma render_process_pending_ignores req :
  preserves (unchanged proj) (Render.process_pending req).
Proof.
  intro w. unfold unchanged. rewrite render_process_pending_state.
  destruct (authorizedBy w req); [| reflexivity].
  apply (forOf_ignores proj). intro.
  now apply render_processPendingEvent_ignores.
Qed.

End EndpointFootprint.

Lemma processor_process_webhook_ignores {B : Type} (proj : World -> B) req :
  ignores proj set_calls -> ignores proj set_http -> ignores proj set_nextId ->
  ignores proj set_webhook_logs -> ignores proj set_automation_logs ->
  ignores proj set_comments -> ignores proj set_messages ->
  preserves (unchanged proj) (Processor.process_webhook req).
Proof.
  intros I1 I2 I3 I4 I5 I6 I7.
  unfold Processor.process_webhook, Processor.processWebhookEntries;
    unfold_helpers.
  walk (unchanged_refl proj) (unchanged_trans proj)
    ltac:(first
      [ apply processor_processEntry_ignores; assumption
      | walk_leaf ltac:(unfold unchanged; rewrite ?I4; reflexivity) ]).
Qed.

(** X13. No endpoint writes an account or an automation: credentials and
    rules are read only.  The live endpoints, [/webhook/process] and the
    processor's [/process-webhook], never write a raw event either; only
    the sweep marks [webhook_events], so an event that was handled live
    stays pending until a sweep drives it again. *)
Theorem endpoints_leave_configuration_alone :
  forall (req : Request) (w : World),
    (w_accounts (state (Render.webhook_process req) w) = w_accounts w /\
     w_automations (state (Render.webhook_process req) w) = w_automations w /\
     w_webhook_events (state (Render.webhook_process req) w) = w_webhook_events w) /\
    (w_accounts (state (Render.process_pending req) w) = w_accounts w /\
     w_automations (state (Render.process_pending req) w) = w_automations w) /\
    (w_accounts (state (Processor.process_webhook req) w) = w_accounts w /\
     w_automations (state (Processor.process_webhook req) w) = w_automations w /\
     w_webhook_events (state (Processor.process_webhook req) w) = w_webhook_events w).
Proof.
  intros req w. repeat split.
  - apply (render_webhook_process_ignores w_accounts); ignore_all.
  - apply (render_webhook_process_ignores w_automations); ignore_all.
  - apply (render_webhook_process_ignores w_webhook_events); ignore_all.
  - apply (render_process_pending_ignores w_accounts); ignore_all.
  - apply (render_process_pending_ignores w_automations); ignore_all.
  - apply (processor_process_webhook_ignores w_accounts); ignore_all.
  - apply (processor_process_webhook_ignores w_automations); ignore_all.
  - apply (processor_process_webhook_ignores w_webhook_events); ignore_all.
Qed.

(* ================================================================== *)
(** ** Collections that only grow *)

(** [stroll] is [walk] through a whole endpoint: it opens the handlers it
    meets on its way down to the primitive operations.  [stroll_to known]
    stops at the dispatcher, where [known] takes over. *)
Ltac stride refl trans :=
  match goal with
  | |- preserves _ (ret _) => apply (preserves_ret _ refl)
  | |- preserves _ (throw _) => apply (preserves_throw _ refl)
  | |- preserves _ (gets _) => apply (preserves_gets _ refl)
  | |- preserves _ (bind _ _) => apply (preserves_bind _ trans); [ | intro ]
  | |- preserves _ (try_catch _ _) => apply (preserves_try _ trans); [ | intro ]
  | |- preserves _ (forOf _ _) =>
      apply (preserves_forOf _ refl trans); intros ? ?
  | |- preserves _ (forOfBreak _ _) =>
      apply (preserves_forOfBreak _ refl trans); intros ? ?
  | |- preserves _ (match ?x with _ => _ end) => destruct x
  end.

Ltac open_handlers :=
  progress unfold Render.webhook_process, Render.process_pending,
    Render.verifyAuth, Render.processWebhookEntries,
    Render.processPendingEvent, Render.processEntry, Render.handleChange,
    Render.handleMessage, Render.handleComment,
    Render.processMessageAutomation, Render.processCommentAutomation,
    Render.messageTurn, Render.commentTurn, Render.logEvent,
    Processor.process_webhook, Processor.processWebhookEntries,
    Processor.processEntry, Processor.handleChange,
    Processor.handleMessage, Processor.handleComment,
    Processor.processMessageAutomation, Processor.processCommentAutomation,
    Processor.messageTurn, Processor.commentTurn,
    logAutomationTrigger, dateNow, findAutomations, findAccount, reply.

Ltac stroll refl trans leaf :=
  repeat first
    [ stride refl trans
    | open_handlers
    | progress unfold sendDirectMessage, replyToComment
    | solve [ walk_leaf leaf ] ].

Ltac stroll_to known refl trans leaf :=
  repeat first
    [ stride refl trans
    | solve [ known ]
    | open_handlers
    | solve [ walk_leaf leaf ] ].

(** A primitive either leaves the collection alone or appends one record. *)
Ltac grows :=
  unfold extends; simpl;
  first [ exists []; split; [symmetry; apply app_nil_r | constructor]
        | eexists; split; [reflexivity | repeat constructor] ].

Lemma render_webhook_process_logs req :
  preserves (extends w_webhook_logs fromRender) (Render.webhook_process req).
Proof.
  stroll (extends_refl w_webhook_logs fromRender)
         (extends_trans w_webhook_logs fromRender) grows.
Qed.

Lemma render_process_pending_logs req :
  preserves (extends w_webhook_logs fromRender) (Render.process_pending req).
Proof.
  stroll (extends_refl w_webhook_logs fromRender)
         (extends_trans w_webhook_logs fromRender) grows.
Qed.

Lemma render_webhook_process_messages req :
  preserves (extends w_messages asStored) (Render.webhook_process req).
Proof.
  stroll (extends_refl w_messages asStored)
         (extends_trans w_messages asStored) grows.
Qed.

Lemma render_process_pending_messages req :
  preserves (extends w_messages asStored) (Render.process_pending req).
Proof.
  stroll (extends_refl w_messages asStored)
         (extends_trans w_messages asStored) grows.
Qed.

Lemma processor_process_webhook_messages req :
  preserves (extends w_messages asStored) (Processor.process_webhook req).
Proof.
  stroll (extends_refl w_messages asStored)
         (extends_trans w_messages asStored) grows.
Qed.

Lemma render_webhook_process_firings req :
  preserves (extends w_automation_logs anyRecord) (Render.webhook_process req).
Proof.
  stroll (extends_refl w_automation_logs (@anyRecord _))
         (extends_trans w_automation_logs (@anyRecord _)) grows.
Qed.

Lemma render_process_pending_firings req :
  preserves (extends w_automation_logs anyRecord) (Render.process_pending req).
Proof.
  stroll (extends_refl w_automation_logs (@anyRecord _))
         (extends_trans w_automation_logs (@anyRecord _)) grows.
Qed.

Lemma processor_process_webhook_firings req :
  preserves (extends w_automation_logs anyRecord) (Processor.process_webhook req).
Proof.
  stroll (extends_refl w_automation_logs (@anyRecord _))
         (extends_trans w_automation_logs (@anyRecord _)) grows.
Qed.

(** X14. Messages, firing logs and, in the render server, webhook logs are
    append-only: whatever the request, an endpoint leaves every record of
    these collections as it was and in place, and only adds records at the
    end.  Every message it adds has [isEcho] false and [processed] false,
    and no endpoint ever sets [processed] on a stored message; every
    webhook log that the render server adds has the source
    "render_server". *)
Theorem collections_are_append_only :
  forall (req : Request) (w : World),
    (extends w_messages asStored w (state (Render.webhook_process req) w) /\
     extends w_webhook_logs fromRender w (state (Render.webhook_process req) w) /\
     extends w_automation_logs anyRecord w (state (Render.webhook_process req) w)) /\
    (extends w_messages asStored w (state (Render.process_pending req) w) /\
     extends w_webhook_logs fromRender w (state (Render.process_pending req) w) /\
     extends w_automation_logs anyRecord w (state (Render.process_pending req) w)) /\
    (extends w_messages asStored w (state (Processor.process_webhook req) w) /\
     extends w_automation_logs anyRecord w (state (Processor.process_webhook req) w)).
Proof.
  intros req w. repeat split.
  - apply render_webhook_process_messages.
  - apply render_webhook_process_logs.
  - apply render_webhook_process_firings.
  - apply render_process_pending_messages.
  - apply render_process_pending_logs.
  - apply render_process_pending_firings.
  - apply processor_process_webhook_messages.
  - apply processor_process_webhook_firings.
Qed.

(* ================================================================== *)
(** ** The outbound traffic *)

Lemma requestsOf_same w w' c :
  w_accounts w' = w_accounts w -> requestsOf w' c = requestsOf w c.
Proof.
  intro H. destruct c; unfold requestsOf, storedAccount; now rewrite H.
Qed.

Lemma traffic_refl w : traffic w w.
Proof.
  split; [reflexivity |]. exists []. simpl. now rewrite !app_nil_r.
Qed.

Lemma traffic_trans a b c : traffic a b -> traffic b c -> traffic a c.
Proof.
  intros (A1 & c1 & C1 & H1) (A2 & c2 & C2 & H2). split.
  - now rewrite A2.
  - exists (c1 ++ c2). split.
    + now rewrite C2, C1, app_assoc.
    + rewrite H2, H1, flat_map_app, <- app_assoc. f_equal. f_equal.
      apply flat_map_ext. intro x. now apply requestsOf_same.
Qed.

Lemma sendDirectMessage_traffic iid rid msg :
  preserves traffic (sendDirectMessage iid rid msg).
Proof.
  intro w. unfold state.
  destruct (accessTokenOf (storedAccount w iid)) as [token|] eqn:Ht.
  - destruct (String.eqb token EmptyString) eqn:He.
    + rewrite sendDirectMessage_no_token by (rewrite Ht; simpl; now rewrite He).
      split; [reflexivity |]. exists [CallSendDirectMessage iid rid msg].
      simpl. rewrite Ht, He. simpl. now rewrite app_nil_r.
    + rewrite (sendDirectMessage_with_token w iid rid msg token Ht)
        by (now apply String.eqb_neq).
      split; [reflexivity |]. exists [CallSendDirectMessage iid rid msg].
      simpl. now rewrite Ht, He.
  - rewrite sendDirectMessage_no_token by (now rewrite Ht).
    split; [reflexivity |]. exists [CallSendDirectMessage iid rid msg].
    simpl. rewrite Ht. simpl. now rewrite app_nil_r.
Qed.

Lemma replyToComment_traffic cid msg iid :
  preserves traffic (replyToComment cid msg iid).
Proof.
  intro w. unfold state.
  destruct (accessTokenOf (storedAccount w iid)) as [token|] eqn:Ht.
  - destruct (String.eqb token EmptyString) eqn:He.
    + rewrite replyToComment_no_token by (rewrite Ht; simpl; now rewrite He).
      split; [reflexivity |]. exists [CallReplyToComment cid msg iid].
      simpl. rewrite Ht, He. simpl. now rewrite app_nil_r.
    + rewrite (replyToComment_with_token w cid msg iid token Ht)
        by (now apply String.eqb_neq).
      split; [reflexivity |]. exists [CallReplyToComment cid msg iid].
      simpl. now rewrite Ht, He.
  - rewrite replyToComment_no_token by (now rewrite Ht).
    split; [reflexivity |]. exists [CallReplyToComment cid msg iid].
    simpl. rewrite Ht. simpl. now rewrite app_nil_r.
Qed.

(** The dispatcher apart, no operation sends a request. *)
Ltac silent :=
  split; [reflexivity |]; exists []; simpl; now rewrite !app_nil_r.

Ltac dispatcher_traffic :=
  first [ apply sendDirectMessage_traffic | apply replyToComment_traffic ].

Lemma render_webhook_process_traffic req :
  preserves traffic (Render.webhook_process req).
Proof. stroll_to dispatcher_traffic traffic_refl traffic_trans silent. Qed.

Lemma render_process_pending_traffic req :
  preserves traffic (Render.process_pending req).
Proof. stroll_to dispatcher_traffic traffic_refl traffic_trans silent. Qed.

Lemma processor_process_webhook_traffic req :
  preserves traffic (Processor.process_webhook req).
Proof. stroll_to dispatcher_traffic traffic_refl traffic_trans silent. Qed.

(** X15. All outbound HTTP traffic of an endpoint comes from the
    dispatcher, one request per invocation at most and never a retry:
    over a whole request the requests sent are, in order, those of the
    invocations of [sendDirectMessage] and [replyToComment] made, one
    Graph API request carrying the account's token for each invocation
    whose account has a non-empty access token, and none for the
    others. *)
Theorem traffic_is_one_request_per_dispatch :
  forall (req : Request) (w : World),
    traffic w (state (Render.webhook_process req) w) /\
    traffic w (state (Render.process_pending req) w) /\
    traffic w (state (Processor.process_webhook req) w).
Proof.
  intros req w. split; [| split].
  - apply render_webhook_process_traffic.
  - apply render_process_pending_traffic.
  - apply processor_process_webhook_traffic.
Qed.

(* ================================================================== *)
(** ** The processor's pipeline *)

Lemma eachOf_safe {A : Type} (o : option (list A)) (f : A -> M unit) :
  (forall x, safe (f x)) -> safe (eachOf o f).
Proof. intro H. destruct o; [now apply safe_forOf | apply safe_ret]. Qed.

Lemma eachOf_ignores {A B : Type} (proj : World -> B) (o : option (list A))
    (f : A -> M unit) :
  (forall x, preserves (unchanged proj) (f x)) ->
  preserves (unchanged proj) (eachOf o f).
Proof.
  intro H. destruct o; [now apply forOf_ignores |].
  apply (preserves_ret _ (unchanged_refl proj)).
Qed.

Lemma eachOf_calls {A : Type} (f : A -> M unit)
    (F : list (Doc Automation) -> Time -> A -> list DispatchCall) :
  (forall x, safe (f x)) ->
  (forall x, preserves (unchanged w_automations) (f x)) ->
  (forall x, preserves (unchanged w_now) (f x)) ->
  (forall x w, w_calls (state (f x) w)
               = w_calls w ++ F (w_automations w) (w_now w) x) ->
  forall o w,
    w_calls (state (eachOf o f) w)
    = w_calls w ++ match o with
                   | Some l => flat_map (F (w_automations w) (w_now w)) l
                   | None => []
                   end.
Proof.
  intros Hs Ha Hn Hc [l|] w; simpl.
  - now apply forOf_calls.
  - unfold state, ret. simpl. now rewrite app_nil_r.
Qed.

Lemma eachOf_measure {A : Type} (mu : World -> nat) (f : A -> M unit)
    (stores : A -> bool) :
  (forall x, safe (f x)) ->
  (forall x w, mu (state (f x) w) = mu w + (if stores x then 1 else 0)) ->
  forall o w,
    mu (state (eachOf o f) w)
    = mu w + match o with
             | Some l => length (filter stores l)
             | None => 0
             end.
Proof.
  intros Hs Hc [l|] w; simpl.
  - rewrite <- list_sum_filter. now apply (forOf_measure mu).
  - unfold state, ret. simpl. lia.
Qed.

Lemma processor_handleMessage_safe iid item :
  safe (Processor.handleMessage iid item).
Proof. apply safe_try. intro. apply safe_ret. Qed.

Lemma processor_handleComment_safe iid v : safe (Processor.handleComment iid v).
Proof. apply safe_try. intro. apply safe_ret. Qed.

Lemma processor_handleChange_safe iid change :
  safe (Processor.handleChange iid change).
Proof.
  unfold Processor.handleChange.
  destruct (isCommentField _); [apply processor_handleComment_safe | apply safe_ret].
Qed.

Lemma processor_processEntry_safe entry : safe (Processor.processEntry entry).
Proof. apply safe_try. intro. apply safe_ret. Qed.

Lemma processor_handleChange_ignores {B : Type} (proj : World -> B) iid change :
  ignores proj set_calls -> ignores proj set_http -> ignores proj set_nextId ->
  ignores proj set_automation_logs -> ignores proj set_comments ->
  preserves (unchanged proj) (Processor.handleChange iid change).
Proof.
  intros. unfold Processor.handleChange. destruct (isCommentField _).
  - now apply processor_handleComment_ignores.
  - apply (preserves_ret _ (unchanged_refl proj)).
Qed.

Lemma processor_handleMessage_skip iid item w :
  storesMessage item = false -> Processor.handleMessage iid item w = (Ok tt, w).
Proof.
  unfold storesMessage, Processor.handleMessage, try_catch.
  destruct (mi_message item) as [p|]; [| reflexivity].
  destruct (mp_is_echo p) as [[|]|]; [reflexivity | discriminate | discriminate].
Qed.

Lemma processor_handleMessage_store iid item p w :
  mi_message item = Some p -> storesMessage item = true ->
  let d := buildMessageData iid item p (w_now w) in
  let w1 := state (insertOne w_messages set_messages d) w in
  Processor.handleMessage iid item w
  = (Ok tt,
     if negb (String.eqb (msg_text d) EmptyString)
     then state (Processor.processMessageAutomation iid (mkDoc (w_nextId w) d)) w1
     else w1).
Proof.
  intros Hm Hs d w1. unfold storesMessage in Hs. rewrite Hm in Hs.
  unfold Processor.handleMessage. rewrite Hm.
  assert (E : forall k1 k2 : M unit,
             match mp_is_echo p with
             | Some true => k1
             | _ => k2
             end = k2).
  { intros. destruct (mp_is_echo p) as [[|]|]; [discriminate | |]; reflexivity. }
  rewrite E. unfold try_catch, dateNow.
  rewrite bind_gets, bind_insertOne. fold d w1.
  destruct (negb (String.eqb (msg_text d) EmptyString)).
  - now rewrite (run_safe _ w1 (processor_processMessageAutomation_safe _ _)).
  - reflexivity.
Qed.

Lemma processor_handleMessage_calls iid item w :
  w_calls (state (Processor.handleMessage iid item) w)
  = w_calls w ++ messageCallsOf (w_automations w) (w_now w) iid item.
Proof.
  unfold messageCallsOf.
  destruct (storesMessage item) eqn:Hs.
  - unfold storesMessage in Hs.
    destruct (mi_message item) as [p|] eqn:Hm; [| discriminate].
    assert (Hs' : storesMessage item = true) by (unfold storesMessage; now rewrite Hm).
    unfold state at 1. rewrite (processor_handleMessage_store iid item p w Hm Hs').
    cbv zeta. simpl snd.
    destruct (mp_is_echo p) as [[|]|]; [discriminate | |];
      (destruct (String.eqb _ EmptyString); simpl negb; cbv iota;
       [ rewrite state_insertOne; simpl; now rewrite app_nil_r
       | rewrite processor_processMessageAutomation_calls;
         rewrite state_insertOne; reflexivity ]).
  - unfold state. rewrite (processor_handleMessage_skip _ _ _ Hs). simpl.
    unfold storesMessage in Hs.
    destruct (mi_message item) as [p|]; [| now rewrite app_nil_r].
    destruct (mp_is_echo p) as [[|]|]; [now rewrite app_nil_r | |]; discriminate.
Qed.

Lemma processor_handleMessage_count iid item w :
  length (w_messages (state (Processor.handleMessage iid item) w))
  = length (w_messages w) + (if storesMessage item then 1 else 0).
Proof.
  destruct (storesMessage item) eqn:Hs.
  - pose proof Hs as Hs'. unfold storesMessage in Hs.
    destruct (mi_message item) as [p|] eqn:Hm; [| discriminate].
    unfold state at 1. rewrite (processor_handleMessage_store iid item p w Hm Hs').
    cbv zeta. simpl snd.
    destruct (negb _);
      rewrite ?(preserved w_messages (Processor.processMessageAutomation _ _))
        by (apply processor_processMessageAutomation_ignores; ignore_all);
      rewrite state_insertOne; simpl; now rewrite length_app.
  - unfold state. rewrite (processor_handleMessage_skip _ _ _ Hs). simpl. lia.
Qed.

Lemma processor_handleComment_calls iid v w :
  w_calls (state (Processor.handleComment iid v) w)
  = w_calls w ++ commentCallsOf (w_automations w) (w_now w) iid v.
Proof.
  unfold commentCallsOf. destruct v as [v|].
  - unfold state at 1. rewrite processor_handleComment_store. cbv zeta. simpl snd.
    destruct (String.eqb _ EmptyString); simpl negb; cbv iota.
    + rewrite state_insertOne. simpl. now rewrite app_nil_r.
    + rewrite processor_processCommentAutomation_calls.
      rewrite state_insertOne. reflexivity.
  - unfold state at 1. rewrite processor_handleComment_none. simpl.
    now rewrite app_nil_r.
Qed.

(** The matcher may rewrite a comment, it never adds or removes one. *)
Lemma processor_processCommentAutomation_length iid d :
  preserves (unchanged (fun w => length (w_comments w)))
            (Processor.processCommentAutomation iid d).
Proof.
  stroll (unchanged_refl (fun w => length (w_comments w)))
         (unchanged_trans (fun w => length (w_comments w)))
         ltac:(unfold unchanged; simpl; rewrite ?updateFirst_length; reflexivity).
Qed.

Lemma processor_handleComment_count iid v w :
  length (w_comments (state (Processor.handleComment iid v) w))
  = length (w_comments w) + (if Js.isSome v then 1 else 0).
Proof.
  destruct v as [v|]; simpl Js.isSome; cbv iota.
  - unfold state at 1. rewrite processor_handleComment_store. cbv zeta. simpl snd.
    destruct (negb _);
      rewrite ?(preserved (fun w => length (w_comments w))
                  (Processor.processCommentAutomation _ _))
        by apply processor_processCommentAutomation_length;
      rewrite state_insertOne; simpl; now rewrite length_app.
  - unfold state at 1. rewrite processor_handleComment_none. simpl. lia.
Qed.

Lemma processor_handleChange_calls iid change w :
  w_calls (state (Processor.handleChange iid change) w)
  = w_calls w ++ changeCallsOf (w_automations w) (w_now w) iid change.
Proof.
  unfold Processor.handleChange, changeCallsOf. destruct (isCommentField _).
  - apply processor_handleComment_calls.
  - unfold state, ret. simpl. now rewrite app_nil_r.
Qed.

Lemma processor_handleChange_count iid change w :
  length (w_comments (state (Processor.handleChange iid change) w))
  = length (w_comments w) + (if storesComment change then 1 else 0).
Proof.
  unfold Processor.handleChange, storesComment. destruct (isCommentField _); simpl andb.
  - apply processor_handleComment_count.
  - unfold state, ret. simpl. lia.
Qed.

(** The direct comment of an entry. *)
Lemma processor_direct_safe entry :
  safe (if isCommentField (en_field entry)
        then Processor.handleComment (en_id entry) (en_value entry)
        else ret tt).
Proof.
  destruct (isCommentField _); [apply processor_handleComment_safe | apply safe_ret].
Qed.

Lemma processor_processEntry_run entry w :
  Processor.processEntry entry w
  = (Ok tt,
     state (if isCommentField (en_field entry)
            then Processor.handleComment (en_id entry) (en_value entry)
            else ret tt)
       (state (eachOf (en_changes entry) (Processor.handleChange (en_id entry)))
          (state (eachOf (en_messaging entry)
                    (Processor.handleMessage (en_id entry))) w))).
Proof.
  unfold Processor.processEntry.
  fold (eachOf (en_messaging entry) (Processor.handleMessage (en_id entry))).
  fold (eachOf (en_changes entry) (Processor.handleChange (en_id entry))).
  assert (Sm : safe (eachOf (en_messaging entry)
                       (Processor.handleMessage (en_id entry))))
    by (apply eachOf_safe; intro; apply processor_handleMessage_safe).
  assert (Sc : safe (eachOf (en_changes entry)
                       (Processor.handleChange (en_id entry))))
    by (apply eachOf_safe; intro; apply processor_handleChange_safe).
  rewrite try_safe.
  - rewrite state_bind_unit by exact Sm. now rewrite state_bind_unit by exact Sc.
  - apply safe_bind; [exact Sm | intro].
    apply safe_bind; [exact Sc | intro]. apply processor_direct_safe.
Qed.

Lemma processor_eachMessage_ignores {B : Type} (proj : World -> B) iid o :
  ignores proj set_calls -> ignores proj set_http -> ignores proj set_nextId ->
  ignores proj set_automation_logs -> ignores proj set_messages ->
  preserves (unchanged proj) (eachOf o (Processor.handleMessage iid)).
Proof.
  intros. apply eachOf_ignores. intro. now apply processor_handleMessage_ignores.
Qed.

Lemma processor_eachChange_ignores {B : Type} (proj : World -> B) iid o :
  ignores proj set_calls -> ignores proj set_http -> ignores proj set_nextId ->
  ignores proj set_automation_logs -> ignores proj set_comments ->
  preserves (unchanged proj) (eachOf o (Processor.handleChange iid)).
Proof.
  intros. apply eachOf_ignores. intro. now apply processor_handleChange_ignores.
Qed.

Lemma processor_processEntry_calls entry w :
  w_calls (state (Processor.processEntry entry) w)
  = w_calls w ++ processorCallsOf (w_automations w) (w_now w) entry.
Proof.
  unfold state at 1. rewrite processor_processEntry_run. simpl snd.
  set (wm := state (eachOf (en_messaging entry)
                      (Processor.handleMessage (en_id entry))) w).
  set (wc := state (eachOf (en_changes entry)
                      (Processor.handleChange (en_id entry))) wm).
  assert (Cm : w_calls wm = w_calls w ++
                 match en_messaging entry with
                 | Some l => flat_map (messageCallsOf (w_automations w) (w_now w)
                                         (en_id entry)) l
                 | None => []
                 end).
  { apply (eachOf_calls (Processor.handleMessage (en_id entry))
             (fun a n => messageCallsOf a n (en_id entry))).
    - intro. apply processor_handleMessage_safe.
    - intro. apply processor_handleMessage_ignores; ignore_all.
    - intro. apply processor_handleMessage_ignores; ignore_all.
    - intros. apply processor_handleMessage_calls. }
  assert (Am : w_automations wm = w_automations w)
    by (apply processor_eachMessage_ignores; ignore_all).
  assert (Nm : w_now wm = w_now w)
    by (apply processor_eachMessage_ignores; ignore_all).
  assert (Cc : w_calls wc = w_calls wm ++
                 match en_changes entry with
                 | Some l => flat_map (changeCallsOf (w_automations wm) (w_now wm)
                                         (en_id entry)) l
                 | None => []
                 end).
  { apply (eachOf_calls (Processor.handleChange (en_id entry))
             (fun a n => changeCallsOf a n (en_id entry))).
    - intro. apply processor_handleChange_safe.
    - intro. apply processor_handleChange_ignores; ignore_all.
    - intro. apply processor_handleChange_ignores; ignore_all.
    - intros. apply processor_handleChange_calls. }
  assert (Ac : w_automations wc = w_automations wm)
    by (apply processor_eachChange_ignores; ignore_all).
  assert (Nc : w_now wc = w_now wm)
    by (apply processor_eachChange_ignores; ignore_all).
  unfold processorCallsOf, entryCallsOf, directCallsOf.
  destruct (isCommentField (en_field entry)).
  - rewrite processor_handleComment_calls, Cc, Cm, Ac, Nc, Am, Nm.
    now rewrite !app_assoc.
  - unfold state at 1, ret. simpl snd. rewrite Cc, Cm, Am, Nm.
    now rewrite app_nil_r, !app_assoc.
Qed.

Lemma processor_processEntry_messages entry w :
  length (w_messages (state (Processor.processEntry entry) w))
  = length (w_messages w) + storedMessagesOf entry.
Proof.
  unfold state at 1. rewrite processor_processEntry_run. simpl snd.
  assert (D : forall w0,
             length (w_messages
                       (state (if isCommentField (en_field entry)
                               then Processor.handleComment (en_id entry)
                                      (en_value entry)
                               else ret tt) w0))
             = length (w_messages w0)).
  { intro w0. destruct (isCommentField _); [| reflexivity].
    apply (processor_handleComment_ignores (fun w => length (w_messages w)));
      ignore_all. }
  rewrite D.
  rewrite (preserved (fun w => length (w_messages w)) (eachOf _ _))
    by (apply eachOf_ignores; intro;
        apply (processor_handleChange_ignores (fun w => length (w_messages w)));
        ignore_all).
  unfold storedMessagesOf.
  apply (eachOf_measure (fun w => length (w_messages w))).
  - intro. apply processor_handleMessage_safe.
  - intros. apply processor_handleMessage_count.
Qed.

Lemma processor_processEntry_comments entry w :
  length (w_comments (state (Processor.processEntry entry) w))
  = length (w_comments w) + processorCommentsOf entry.
Proof.
  unfold state at 1. rewrite processor_processEntry_run. simpl snd.
  unfold processorCommentsOf, storesDirectComment, storedCommentsOf.
  set (wm := state (eachOf (en_messaging entry)
                      (Processor.handleMessage (en_id entry))) w).
  assert (Lm : length (w_comments wm) = length (w_comments w)).
  { apply (processor_eachMessage_ignores (fun w => length (w_comments w))).
    all: ignore_all. }
  pose proof (eachOf_measure (fun w => length (w_comments w))
                (Processor.handleChange (en_id entry)) storesComment
                (processor_handleChange_safe (en_id entry))
                (processor_handleChange_count (en_id entry))
                (en_changes entry) wm) as Lc.
  simpl in Lc.
  destruct (isCommentField (en_field entry)); simpl andb; cbv iota.
  - rewrite processor_handleComment_count, Lc, Lm. lia.
  - unfold state at 1, ret. simpl snd. rewrite Lc, Lm. lia.
Qed.

Lemma processor_processEntries_safe l : safe (forOf l Processor.processEntry).
Proof. apply safe_forOf, processor_processEntry_safe. Qed.

Lemma processor_process_webhook_accepted req w entries :
  req_authorization req = Some ("Bearer " ++ w_secret w)%string ->
  env_object (req_body req) = Some "instagram"%string ->
  env_entry (req_body req) = EntriesArray entries ->
  Processor.process_webhook req w
  = (Ok (mkHttpReply 200 (RSuccess "Webhook processed successfully")),
     state (forOf entries Processor.processEntry)
       (set_webhook_logs
          (updateFirst (Processor.logOfEntry (Processor.firstEntryId (req_body req)))
             (Processor.setStarted (w_now w)) (w_webhook_logs w)) w)).
Proof.
  intros Hauth Ho He. unfold Processor.process_webhook.
  unfold try_catch at 1. unfold bind at 1. unfold gets at 1.
  rewrite Hauth. unfold Js.optEq, Js.truthy. rewrite String.eqb_refl.
  unfold isInstagram. rewrite Ho, He. simpl.
  unfold Processor.processWebhookEntries, iterate.
  unfold bind at 2. unfold ret at 2.
  unfold bind at 1.
  unfold try_catch, dateNow, bind, gets, updateOne, modify. simpl.
  rewrite (run_safe _ _ (processor_processEntries_safe entries)).
  reflexivity.
Qed.

(** X16. An authorized Instagram envelope with a list of entries is always
    answered 200 by the processor's [/process-webhook].  For each entry the
    processor stores and matches the messaging items and the comment
    changes as the render server does, and then also the comment that the
    entry carries in its own [field] and [value]: the dispatcher is invoked
    for the first matching automation of each stored message and comment
    with a text, in the order of the payload. *)
Theorem processor_ingests_and_dispatches :
  forall (req : Request) (w : World) (entries : list Entry),
    req_authorization req = Some ("Bearer " ++ w_secret w)%string ->
    env_object (req_body req) = Some "instagram"%string ->
    env_entry (req_body req) = EntriesArray entries ->
    result (Processor.process_webhook req) w
      = Ok (mkHttpReply 200 (RSuccess "Webhook processed successfully")) /\
    length (w_messages (state (Processor.process_webhook req) w))
      = length (w_messages w) + list_sum (map storedMessagesOf entries) /\
    length (w_comments (state (Processor.process_webhook req) w))
      = length (w_comments w) + list_sum (map processorCommentsOf entries) /\
    w_calls (state (Processor.process_webhook req) w)
      = w_calls w ++ flat_map (processorCallsOf (w_automations w) (w_now w)) entries.
Proof.
  intros req w entries Hauth Ho He.
  pose proof (processor_process_webhook_accepted req w entries Hauth Ho He) as Hrun.
  unfold result, state at 1 2 3. rewrite Hrun. simpl fst. simpl snd.
  set (w' := set_webhook_logs _ w).
  split; [reflexivity |]. split; [| split].
  - exact (forOf_measure (fun w => length (w_messages w)) Processor.processEntry
             storedMessagesOf processor_processEntry_safe
             processor_processEntry_messages entries w').
  - exact (forOf_measure (fun w => length (w_comments w)) Processor.processEntry
             processorCommentsOf processor_processEntry_safe
             processor_processEntry_comments entries w').
  - refine (forOf_calls Processor.processEntry processorCallsOf
              processor_processEntry_safe _ _ processor_processEntry_calls
              entries w').
    + intro. apply processor_processEntry_ignores; ignore_all.
    + intro. apply processor_processEntry_ignores; ignore_all.
Qed.

Lemma processor_ingests_and_dispatches_witness :
  length (w_comments (state (Processor.process_webhook
                               (Scenario.authorized Scenario.directEnvelope))
                        Scenario.processorWorld)) = 1 /\
  w_calls (state (Processor.process_webhook
                    (Scenario.authorized Scenario.directEnvelope))
             Scenario.processorWorld)
  = [CallReplyToComment "c7" Scenario.priceReply (Some "ig1"%string)].
Proof.
  destruct (processor_ingests_and_dispatches
              (Scenario.authorized Scenario.directEnvelope)
              Scenario.processorWorld
              [mkEntry (Some "ig1"%string) None None (Some "comments"%string)
                 (Some (Scenario.commentValue "c7" "price?"))]
              eq_refl eq_refl eq_refl) as (_ & _ & Hc & Hd).
  split.
  - rewrite Hc. reflexivity.
  - rewrite Hd. reflexivity.
Defined.

(** X17. On one entry the processor makes the dispatches of the render
    server and then those for the comment that the entry carries in its
    own [field] and [value], which the render server never reads; it
    stores one comment more than the render server exactly when that
    field is [comments] or [live_comments] and the value is present. *)
Theorem processor_also_reads_the_direct_comment :
  forall (entry : Entry) (w : World),
    w_calls (state (Processor.processEntry entry) w)
      = w_calls (state (Render.processEntry entry) w)
        ++ directCallsOf (w_automations w) (w_now w) entry /\
    length (w_comments (state (Processor.processEntry entry) w))
      = length (w_comments (state (Render.processEntry entry) w))
        + (if storesDirectComment entry then 1 else 0) /\
    length (w_messages (state (Processor.processEntry entry) w))
      = length (w_messages (state (Render.processEntry entry) w)).
Proof.
  intros entry w. split; [| split].
  - rewrite processor_processEntry_calls, render_processEntry_calls.
    unfold processorCallsOf. now rewrite app_assoc.
  - rewrite processor_processEntry_comments, render_processEntry_comments.
    unfold processorCommentsOf. lia.
  - now rewrite processor_processEntry_messages, render_processEntry_messages.
Qed.

(* ================================================================== *)
(** ** The whole backlog *)

Lemma sortByCreatedAt_length l : length (sortByCreatedAt l) = length l.
Proof. apply Permutation_length, sortByCreatedAt_perm. Qed.

(** X18. [fetchPending] drops nothing but the overflow: it returns as many
    events as are pending, up to the limit, and when the pending events do
    not exceed the limit it returns all of them, each exactly once. *)
Theorem fetchPending_takes_the_whole_backlog :
  forall (limit : nat) (events : list (Doc WebhookEvent)),
    length (fetchPending limit events)
      = Nat.min limit (length (filter isPending events)) /\
    (length (filter isPending events) <= limit ->
     Permutation (fetchPending limit events) (filter isPending events)).
Proof.
  intros limit events. unfold fetchPending. split.
  - now rewrite length_firstn, sortByCreatedAt_length.
  - intro Hle. rewrite firstn_all2.
    + apply sortByCreatedAt_perm.
    + now rewrite sortByCreatedAt_length.
Qed.

Lemma fetchPending_takes_the_whole_backlog_witness :
  Permutation (fetchPending 50 (w_webhook_events Scenario.threePending))
              (filter isPending (w_webhook_events Scenario.threePending)).
Proof.
  apply (proj2 (fetchPending_takes_the_whole_backlog 50
                  (w_webhook_events Scenario.threePending))).
  vm_compute. lia.
Defined.

(* ================================================================== *)
(** ** Only configured replies go out *)

Lemma optEq_true a b : Js.optEq a b = true -> a = b.
Proof.
  destruct a as [x|], b as [y|]; simpl; try discriminate; [| reflexivity].
  intro H. apply String.eqb_eq in H. now subst.
Qed.

Lemma activeAutomation_true iid type a :
  activeAutomation iid type a = true ->
  auto_instagramId (fields a) = iid /\ auto_isActive (fields a) = true /\
  auto_type (fields a) = type.
Proof.
  unfold activeAutomation. intro H.
  apply andb_true_iff in H. destruct H as [H Ht].
  apply andb_true_iff in H. destruct H as [Hi Ha].
  split; [now apply optEq_true |]. split.
  - now destruct (auto_isActive (fields a)).
  - now apply String.eqb_eq.
Qed.

Lemma hasKeyword_keywords text a : hasKeyword text a = true -> keywordsOf a <> [].
Proof.
  unfold hasKeyword, keywordsOf.
  destruct (auto_triggerKeywords (fields a)) as [[|k l]|]; simpl;
    discriminate.
Qed.

Lemma firstMatch_loaded text w iid type a :
  firstMatch text (loaded w iid type) = Some a ->
  In a (w_automations w) /\ auto_isActive (fields a) = true /\
  keywordsOf a <> [] /\ auto_type (fields a) = type /\
  auto_instagramId (fields a) = iid.
Proof.
  intro H. apply find_some in H. destruct H as [Hin Hk].
  apply filter_In in Hin. destruct Hin as [Hin Ha].
  apply activeAutomation_true in Ha. destruct Ha as (Hi & Hact & Ht).
  apply hasKeyword_keywords in Hk. auto.
Qed.

Lemma dispatchesConfigured_refl w : dispatchesConfigured w w.
Proof.
  split; [reflexivity |]. exists []. split; [now rewrite app_nil_r | constructor].
Qed.

Lemma dispatchesConfigured_trans a b c :
  dispatchesConfigured a b -> dispatchesConfigured b c -> dispatchesConfigured a c.
Proof.
  intros (A1 & m1 & C1 & F1) (A2 & m2 & C2 & F2). split; [now rewrite A2 |].
  exists (m1 ++ m2). split.
  - now rewrite C2, C1, app_assoc.
  - apply Forall_app. split; [exact F1 |]. now rewrite A1 in F2.
Qed.

Lemma messages_configured iid d w :
  Forall (configured (w_automations w))
    (callsFor (messageCall iid d) (msg_text (fields d)) (loaded w iid "message")).
Proof.
  unfold callsFor. destruct (firstMatch _ _) as [a|] eqn:E; constructor; [| constructor].
  apply firstMatch_loaded in E. destruct E as (Hin & Hact & Hk & Ht & Hi).
  exists a. simpl. auto 10.
Qed.

Lemma comments_configured iid d w :
  Forall (configured (w_automations w))
    (callsFor (replyCall iid d) (cmt_text (fields d)) (loaded w iid "comment")).
Proof.
  unfold callsFor. destruct (firstMatch _ _) as [a|] eqn:E; constructor; [| constructor].
  apply firstMatch_loaded in E. destruct E as (Hin & Hact & Hk & Ht & Hi).
  exists a. simpl. auto 10.
Qed.

Lemma render_processMessageAutomation_configured iid d :
  preserves dispatchesConfigured (Render.processMessageAutomation iid d).
Proof.
  intro w. split.
  - apply render_processMessageAutomation_ignores; ignore_all.
  - eexists. split; [apply render_processMessageAutomation_calls |].
    apply messages_configured.
Qed.

Lemma render_processCommentAutomation_configured iid d :
  preserves dispatchesConfigured (Render.processCommentAutomation iid d).
Proof.
  intro w. split.
  - apply render_processCommentAutomation_ignores; ignore_all.
  - eexists. split; [apply render_processCommentAutomation_calls |].
    apply comments_configured.
Qed.

Lemma processor_processMessageAutomation_configured iid d :
  preserves dispatchesConfigured (Processor.processMessageAutomation iid d).
Proof.
  intro w. split.
  - apply processor_processMessageAutomation_ignores; ignore_all.
  - eexists. split; [apply processor_processMessageAutomation_calls |].
    apply messages_configured.
Qed.

Lemma processor_processCommentAutomation_configured iid d :
  preserves dispatchesConfigured (Processor.processCommentAutomation iid d).
Proof.
  intro w. split.
  - apply processor_processCommentAutomation_ignores; ignore_all.
  - eexists. split; [apply processor_processCommentAutomation_calls |].
    apply comments_configured.
Qed.

(** The handlers above the matchers. *)
Ltac open_to_matcher :=
  progress unfold Render.webhook_process, Render.process_pending,
    Render.verifyAuth, Render.processWebhookEntries,
    Render.processPendingEvent, Render.processEntry, Render.handleChange,
    Render.handleMessage, Render.handleComment, Render.logEvent,
    Processor.process_webhook, Processor.processWebhookEntries,
    Processor.processEntry, Processor.handleChange,
    Processor.handleMessage, Processor.handleComment,
    dateNow, reply.

Ltac matcher_configured :=
  first [ apply render_processMessageAutomation_configured
        | apply render_processCommentAutomation_configured
        | apply processor_processMessageAutomation_configured
        | apply processor_processCommentAutomation_configured ].

Ltac no_dispatch :=
  split; [reflexivity |]; exists []; simpl;
  split; [now rewrite app_nil_r | constructor].

Ltac amble known refl trans leaf :=
  repeat first
    [ stride refl trans
    | solve [ known ]
    | open_to_matcher
    | solve [ walk_leaf leaf ] ].

Lemma render_webhook_process_configured req :
  preserves dispatchesConfigured (Render.webhook_process req).
Proof.
  amble matcher_configured dispatchesConfigured_refl dispatchesConfigured_trans
        no_dispatch.
Qed.

Lemma render_process_pending_configured req :
  preserves dispatchesConfigured (Render.process_pending req).
Proof.
  amble matcher_configured dispatchesConfigured_refl dispatchesConfigured_trans
        no_dispatch.
Qed.

Lemma processor_process_webhook_configured req :
  preserves dispatchesConfigured (Processor.process_webhook req).
Proof.
  amble matcher_configured dispatchesConfigured_refl dispatchesConfigured_trans
        no_dispatch.
Qed.

(** X19. Only configured replies go out: whatever the request, every
    invocation of the dispatcher that an endpoint makes carries the
    [replyMessage] of an automation that is in the store, is active,
    belongs to the account the call is made for, has the kind of the call
    ([message] for a direct message, [comment] for a reply) and has at
    least one keyword.  An inactive automation, one of another account or
    kind, or one without keywords never fires. *)
Theorem only_configured_replies_go_out :
  forall (req : Request) (w : World),
    dispatchesConfigured w (state (Render.webhook_process req) w) /\
    dispatchesConfigured w (state (Render.process_pending req) w) /\
    dispatchesConfigured w (state (Processor.process_webhook req) w).
Proof.
  intros req w. split; [| split].
  - apply render_webhook_process_configured.
  - apply render_process_pending_configured.
  - apply processor_process_webhook_configured.
Qed.

(* ================================================================== *)
(** ** Letter case *)








(* ================================================================== *)
(** ** Records without a text *)

(** X21. A comment or a message whose text is missing or empty is stored
    and nothing else: both servers append the record, with an empty text
    and not processed, and the matcher is not run, so there is no
    invocation of the dispatcher, no HTTP request and no firing log, even
    when an automation with the empty keyword is loaded. *)
Theorem record_without_text_is_only_stored :
  forall (instagramId : option string) (w : World),
    (forall value : CommentValue,
        Js.orDefault (cv_text value) EmptyString = EmptyString ->
        let stored :=
          mkDoc (w_nextId w) (buildCommentData instagramId value (w_now w)) in
        (w_comments (state (Render.handleComment instagramId (Some value)) w)
           = w_comments w ++ [stored] /\
         nothingFired w (state (Render.handleComment instagramId (Some value)) w)) /\
        (w_comments (state (Processor.handleComment instagramId (Some value)) w)
           = w_comments w ++ [stored] /\
         nothingFired w
           (state (Processor.handleComment instagramId (Some value)) w))) /\
    (forall (item : MessagingItem) (payload : MessagePayload),
        mi_message item = Some payload ->
        storesMessage item = true ->
        Js.orDefault (mp_text payload) EmptyString = EmptyString ->
        let stored :=
          mkDoc (w_nextId w) (buildMessageData instagramId item payload (w_now w)) in
        (w_messages (state (Render.handleMessage instagramId item) w)
           = w_messages w ++ [stored] /\
         nothingFired w (state (Render.handleMessage instagramId item) w)) /\
        (w_messages (state (Processor.handleMessage instagramId item) w)
           = w_messages w ++ [stored] /\
         nothingFired w (state (Processor.handleMessage instagramId item) w))).
Proof.
  intros iid w. split.
  - intros v Ht stored. unfold state at 1 2 3 4.
    rewrite render_handleComment_store, processor_handleComment_store.
    cbv zeta. simpl snd.
    simpl cmt_text. rewrite Ht. simpl negb. cbv iota. rewrite state_logEvent, !state_insertOne.
    repeat split.
  - intros item p Hm Hs Ht stored. unfold state at 1 2 3 4.
    rewrite (render_handleMessage_store iid item p w Hm Hs),
            (processor_handleMessage_store iid item p w Hm Hs).
    cbv zeta. simpl snd.
    simpl msg_text. rewrite Ht. simpl negb. cbv iota. rewrite state_logEvent, !state_insertOne.
    repeat split.
Qed.

Lemma record_without_text_is_only_stored_witness :
  In Scenario.anyOnComments (w_automations Scenario.withEmptyKeyword) /\
  nothingFired Scenario.withEmptyKeyword
    (state (Render.handleComment (Some "ig1"%string)
              (Some Scenario.commentWithoutText)) Scenario.withEmptyKeyword) /\
  nothingFired Scenario.withEmptyKeyword
    (state (Processor.handleMessage (Some "ig1"%string) Scenario.itemWithoutText)
       Scenario.withEmptyKeyword).
Proof.
  pose proof (record_without_text_is_only_stored (Some "ig1"%string)
                Scenario.withEmptyKeyword) as [Hc Hm].
  split; [| split].
  - simpl. auto.
  - apply (Hc Scenario.commentWithoutText). reflexivity.
  - apply (Hm Scenario.itemWithoutText
              (mkMessagePayload (Some "mid8"%string) None None None));
      reflexivity.
Defined.

(* ================================================================== *)
(** ** The stored comments *)

Lemma sameComment_refl d : sameComment d d.
Proof. repeat split. auto. Qed.

Lemma sameComment_trans a b c : sameComment a b -> sameComment b c -> sameComment a c.
Proof.
  intros (I1 & D1 & E1 & P1) (I2 & D2 & E2 & P2). repeat split.
  - now rewrite I2.
  - now rewrite D2.
  - now rewrite E2.
  - auto.
Qed.

Lemma keepsComments_refl w : keepsComments w w.
Proof.
  exists []. rewrite app_nil_r. apply Forall2_same, sameComment_refl.
Qed.

Lemma keepsComments_trans a b c :
  keepsComments a b -> keepsComments b c -> keepsComments a c.
Proof.
  intros (l1 & H1) (l2 & H2).
  apply Forall2_app_inv_l in H2. destruct H2 as (c1 & c2 & Hb & Hl & Hc).
  exists (l1 ++ c2). rewrite Hc, app_assoc. apply Forall2_app.
  - exact (Forall2_chain sameComment sameComment_trans _ _ _ H1 Hb).
  - apply Forall2_same, sameComment_refl.
Qed.

Lemma setReplied_sameComment automationId replyId repliedAt d :
  sameComment d (mkDoc (_id d) (setReplied automationId replyId repliedAt (fields d))).
Proof. repeat split. Qed.

(** A primitive leaves the comments alone, appends one, or marks one as
    replied. *)
Ltac comments_kept :=
  unfold keepsComments; simpl;
  first
    [ exists []; rewrite app_nil_r; apply Forall2_same; exact sameComment_refl
    | eexists; apply Forall2_same; exact sameComment_refl
    | exists []; rewrite app_nil_r; apply updateFirst_Forall2;
      [ exact sameComment_refl | intro; apply setReplied_sameComment ] ].

Lemma render_webhook_process_keepsComments req :
  preserves keepsComments (Render.webhook_process req).
Proof. stroll keepsComments_refl keepsComments_trans comments_kept. Qed.

Lemma render_process_pending_keepsComments req :
  preserves keepsComments (Render.process_pending req).
Proof. stroll keepsComments_refl keepsComments_trans comments_kept. Qed.

Lemma processor_process_webhook_keepsComments req :
  preserves keepsComments (Processor.process_webhook req).
Proof. stroll keepsComments_refl keepsComments_trans comments_kept. Qed.

(** X22. No endpoint deletes or reorders a stored comment, and none alters
    what the webhook delivered: after any request every comment is still
    in place with its identifier, account, comment id, media, parent,
    author, text and times, new comments only follow the old ones, no
    error is ever written on a comment, and a comment that was marked
    processed stays so. *)
Theorem stored_comments_keep_their_identity :
  forall (req : Request) (w : World),
    keepsComments w (state (Render.webhook_process req) w) /\
    keepsComments w (state (Render.process_pending req) w) /\
    keepsComments w (state (Processor.process_webhook req) w).
Proof.
  intros req w. split; [| split].
  - apply render_webhook_process_keepsComments.
  - apply render_process_pending_keepsComments.
  - apply processor_process_webhook_keepsComments.
Qed.

(* ================================================================== *)
(** ** The processor's answer and its log *)

Lemma processor_process_webhook_uniterable req w :
  req_authorization req = Some ("Bearer " ++ w_secret w)%string ->
  env_object (req_body req) = Some "instagram"%string ->
  env_entry (req_body req) = EntriesNotIterable ->
  Processor.process_webhook req w
  = (Ok (mkHttpReply 500 (RError "entries is not iterable")),
     set_webhook_logs
       (updateFirst (Processor.logOfEntry (Processor.firstEntryId (req_body req)))
          (Processor.setStarted (w_now w)) (w_webhook_logs w)) w).
Proof.
  intros Hauth Ho He. unfold Processor.process_webhook.
  unfold try_catch at 1. unfold bind at 1. unfold gets at 1.
  rewrite Hauth. unfold Js.optEq, Js.truthy. rewrite String.eqb_refl.
  unfold isInstagram. rewrite Ho, He. reflexivity.
Qed.

(** X24. To an authorized request the processor never answers 400: it
    answers 500 when the envelope is Instagram's and its [entry] is not a
    list, and 200 in every other case, also for an envelope that is not
    Instagram's.  Whatever the answer, it adds no webhook log and rewrites
    at most one: the first stored log whose first entry has the id of the
    first entry of the request is marked as started. *)
Theorem processor_answer_and_log :
  forall (req : Request) (w : World),
    req_authorization req = Some ("Bearer " ++ w_secret w)%string ->
    result (Processor.process_webhook req) w = Ok (processorReply (req_body req)) /\
    w_webhook_logs (state (Processor.process_webhook req) w)
    = updateFirst (Processor.logOfEntry (Processor.firstEntryId (req_body req)))
        (Processor.setStarted (w_now w)) (w_webhook_logs w).
Proof.
  intros req w Hauth. unfold processorReply.
  destruct (Js.optEq (env_object (req_body req)) (Some "instagram"%string)) eqn:Ho.
  - apply optEq_true in Ho.
    destruct (env_entry (req_body req)) as [|entries|] eqn:He.
    + unfold result, state.
      rewrite (processor_accepts_invalid_envelope req w Hauth (or_intror He)).
      split; reflexivity.
    + unfold result, state.
      rewrite (processor_process_webhook_accepted req w entries Hauth Ho He).
      split; [reflexivity |]. simpl snd.
      rewrite (preserved w_webhook_logs (forOf entries Processor.processEntry)).
      * reflexivity.
      * apply forOf_ignores. intro.
        apply processor_processEntry_ignores; ignore_all.
    + unfold result, state.
      rewrite (processor_process_webhook_uniterable req w Hauth Ho He).
      split; reflexivity.
  - assert (Hne : env_object (req_body req) <> Some "instagram"%string).
    { intro E. rewrite E in Ho. discriminate. }
    unfold result, state.
    rewrite (processor_accepts_invalid_envelope req w Hauth (or_introl Hne)).
    split; [| reflexivity]. now destruct (env_entry (req_body req)).
Qed.

Lemma processor_answer_and_log_witness :
  result (Processor.process_webhook
            (Scenario.authorized Scenario.objectEntryEnvelope))
         Scenario.processorWorld
  = Ok (mkHttpReply 500 (RError "entries is not iterable")) /\
  map (fun l => wl_processed (fields l))
      (w_webhook_logs (state (Processor.process_webhook
                                (Scenario.authorized Scenario.pageEnvelope))
                         Scenario.processorWorld))
  = [Some true].
Proof.
  split.
  - exact (proj1 (processor_answer_and_log
                    (Scenario.authorized Scenario.objectEntryEnvelope)
                    Scenario.processorWorld eq_refl)).
  - rewrite (proj2 (processor_answer_and_log
                      (Scenario.authorized Scenario.pageEnvelope)
                      Scenario.processorWorld eq_refl)).
    reflexivity.
Defined.
